(** * Reverse Challenge System: request authentication, callback delivery
    and callback reception

  A shallow embedding of the Go sources

    - pkg/auth/hmac.go            (signing primitive),
    - pkg/api/middleware.go       (size limit and HMAC middleware),
    - pkg/validator               (validation engine),
    - pkg/db/challenger.go        (result and audit store),
    - internal/challenger/service.go (callback receiver),
    - internal/solver/service.go, worker.go (callback sender, retry loop),

  together with the properties of the specification that concern them.

  Go strings are byte strings: they are modelled by [string], whose
  characters are the 8-bit [ascii].  Go's [int64] is modelled by [Z] with
  the wrap-around written out ([wrap64]).  Go maps are [gmap]s. *)

From Stdlib Require Import ZArith NArith Strings.String Strings.Ascii List Bool Lia.
From Stdlib Require Import Permutation.
From Stdlib Require Import Floats.SpecFloat.
From stdpp Require Import base strings gmap list.

Import ListNotations.
Local Open Scope string_scope.

(* stdpp freezes [String.append] under [simpl]; the proofs below compute
   with it. *)
#[local] Arguments String.append !s1 s2 / : simpl nomatch.

(** ** Go's [strings] and [strconv] packages, as far as the sources use them *)

Module GoStrings.

(** [s ++ t] on byte strings. *)
Notation "s +++ t" := (String.append s t) (at level 60, right associativity).

(** [strings.HasPrefix(s, prefix)]. *)
Fixpoint HasPrefix (s prefix : string) {struct prefix} : bool :=
  match prefix with
  | EmptyString => true
  | String p prefix' =>
      match s with
      | EmptyString => false
      | String c s' => Ascii.eqb c p && HasPrefix s' prefix'
      end
  end.

(** [s[len(prefix):]] when [prefix] is a prefix of [s]. *)
Fixpoint cut_prefix (s prefix : string) {struct prefix} : option string :=
  match prefix with
  | EmptyString => Some s
  | String p prefix' =>
      match s with
      | EmptyString => None
      | String c s' => if Ascii.eqb c p then cut_prefix s' prefix' else None
      end
  end.

(** [strings.TrimPrefix(s, prefix)]: [s] without the leading [prefix],
    and [s] itself when [prefix] does not lead it. *)
Definition TrimPrefix (s prefix : string) : string :=
  match cut_prefix s prefix with
  | Some rest => rest
  | None => s
  end.

(** [strings.Split(s, sep)] for a one-byte separator (the sources split on
    [","] only): the substrings between the separators, [n + 1] of them
    for [n] separators, so [[""]] for the empty string. *)
Fixpoint Split (s : string) (sep : ascii) : list string :=
  match s with
  | EmptyString => [EmptyString]
  | String c s' =>
      if Ascii.eqb c sep then EmptyString :: Split s' sep
      else match Split s' sep with
           | [] => [String c EmptyString]
           | piece :: pieces => String c piece :: pieces
           end
  end.

(** [strings.SplitN(s, sep, 2)] for a one-byte separator (the sources cut
    at ["="] only): [[s]] when [sep] does not occur, otherwise the text
    before the first [sep] and all the text after it. *)
Fixpoint SplitN2 (s : string) (sep : ascii) : list string :=
  match s with
  | EmptyString => [EmptyString]
  | String c s' =>
      if Ascii.eqb c sep then [EmptyString; s']
      else match SplitN2 s' sep with
           | [before; after] => [String c before; after]
           | _ => [s]
           end
  end.

(** [strings.Join(elems, sep)]. *)
Fixpoint Join (elems : list string) (sep : string) : string :=
  match elems with
  | [] => EmptyString
  | [e] => e
  | e :: rest => e +++ sep +++ Join rest sep
  end.

Definition byte (c : ascii) : Z := Z.of_N (N_of_ascii c).
Definition of_byte (z : Z) : ascii := ascii_of_N (Z.to_N z).

(** [strings.ToUpper] on ASCII text.  The sources upper-case the HTTP
    method only, which is an ASCII token; bytes from 0x80 on are left as
    they are here. *)
Definition upper_byte (c : ascii) : ascii :=
  if (97 <=? byte c)%Z && (byte c <=? 122)%Z then of_byte (byte c - 32) else c.

Fixpoint ToUpper (s : string) : string :=
  match s with
  | EmptyString => EmptyString
  | String c s' => String (upper_byte c) (ToUpper s')
  end.

(** *** [strings.TrimSpace]

    Go trims the runes for which [unicode.IsSpace] holds from both ends.
    On the byte level these are the six ASCII bytes of [asciiSpace] and
    the UTF-8 encodings of U+0085, U+00A0, U+1680, U+2000..U+200A, U+2028,
    U+2029, U+202F, U+205F and U+3000.  An ill-formed sequence decodes to
    [utf8.RuneError], which is no space. *)

Definition asciiSpace (c : ascii) : bool :=
  let b := byte c in
  ((9 <=? b)%Z && (b <=? 13)%Z) || (b =? 32)%Z.

(** Two bytes that encode U+0085 or U+00A0. *)
Definition space2 (c1 c2 : ascii) : bool :=
  (byte c1 =? 194)%Z && ((byte c2 =? 133)%Z || (byte c2 =? 160)%Z).

(** Three bytes that encode one of the spaces from U+1680 on. *)
Definition space3 (c1 c2 c3 : ascii) : bool :=
  let b1 := byte c1 in let b2 := byte c2 in let b3 := byte c3 in
  ((b1 =? 225)%Z && (b2 =? 154)%Z && (b3 =? 128)%Z) ||
  ((b1 =? 226)%Z && (b2 =? 128)%Z &&
     (((128 <=? b3)%Z && (b3 <=? 138)%Z) || (b3 =? 168)%Z || (b3 =? 169)%Z
      || (b3 =? 175)%Z)) ||
  ((b1 =? 226)%Z && (b2 =? 129)%Z && (b3 =? 159)%Z) ||
  ((b1 =? 227)%Z && (b2 =? 128)%Z && (b3 =? 128)%Z).

(** Removal of the leading encoded spaces, for spaces of one, two and
    three bytes recognised by [one], [two] and [three]. *)
Section TrimFront.
Variable one : ascii -> bool.
Variable two : ascii -> ascii -> bool.
Variable three : ascii -> ascii -> ascii -> bool.

Fixpoint trim_front (s : string) : string :=
  match s with
  | EmptyString => EmptyString
  | String c1 s1 =>
      if one c1 then trim_front s1
      else match s1 with
           | EmptyString => s
           | String c2 s2 =>
               if two c1 c2 then trim_front s2
               else match s2 with
                    | EmptyString => s
                    | String c3 s3 =>
                        if three c1 c2 c3 then trim_front s3 else s
                    end
           end
  end.

(** [s] begins with an encoded space. *)
Definition starts_with_space (s : string) : bool :=
  match s with
  | String c1 (String c2 (String c3 _)) => one c1 || two c1 c2 || three c1 c2 c3
  | String c1 (String c2 EmptyString) => one c1 || two c1 c2
  | String c1 EmptyString => one c1
  | EmptyString => false
  end.

(** A sequence of encoded spaces. *)
Inductive Spaces : string -> Prop :=
| sp_empty : Spaces EmptyString
| sp_one c w : one c = true -> Spaces w -> Spaces (String c w)
| sp_two c1 c2 w : two c1 c2 = true -> Spaces w -> Spaces (String c1 (String c2 w))
| sp_three c1 c2 c3 w :
    three c1 c2 c3 = true -> Spaces w ->
    Spaces (String c1 (String c2 (String c3 w))).
End TrimFront.

(** [strings.TrimLeftFunc(s, unicode.IsSpace)]. *)
Definition TrimLeftSpace : string -> string := trim_front asciiSpace space2 space3.

Fixpoint rev_onto (s acc : string) : string :=
  match s with
  | EmptyString => acc
  | String c s' => rev_onto s' (String c acc)
  end.

Definition Reverse (s : string) : string := rev_onto s EmptyString.

(** The same scan from the end, on the reversed text: [utf8.DecodeLastRune]
    finds a space exactly when the text ends with one of the encodings, whose
    bytes then come last byte first. *)
Definition space2_rev (c1 c2 : ascii) : bool := space2 c2 c1.
Definition space3_rev (c1 c2 c3 : ascii) : bool := space3 c3 c2 c1.

Definition TrimLeftSpaceRev : string -> string :=
  trim_front asciiSpace space2_rev space3_rev.

(** [strings.TrimRightFunc(s, unicode.IsSpace)]. *)
Definition TrimRightSpace (s : string) : string :=
  Reverse (TrimLeftSpaceRev (Reverse s)).

Definition TrimSpace (s : string) : string :=
  TrimRightSpace (TrimLeftSpace s).

(** *** [strconv.ParseInt(s, 10, 64)] and [strconv.FormatInt(i, 10)] *)

Definition is_digit (c : ascii) : bool :=
  (48 <=? byte c)%Z && (byte c <=? 57)%Z.

(** The value of a non-empty run of decimal digits; anything else is a
    syntax error.  ([strconv.ParseUint] accepts ['_'] for base 0 only.) *)
Fixpoint digits_value (s : string) (acc : Z) : option Z :=
  match s with
  | EmptyString => Some acc
  | String c s' =>
      if is_digit c then digits_value s' (10 * acc + (byte c - 48))%Z
      else None
  end.

Definition ParseUintDigits (s : string) : option Z :=
  match s with
  | EmptyString => None
  | _ => digits_value s 0%Z
  end.

Definition minInt64 : Z := (- 2 ^ 63)%Z.
Definition maxInt64 : Z := (2 ^ 63 - 1)%Z.

(** [ParseInt] picks off one leading sign, reads the digits as an unsigned
    number and fails with a range error outside of [int64]. *)
Definition ParseInt (s : string) : option Z :=
  match s with
  | EmptyString => None
  | String c s' =>
      let neg := Ascii.eqb c "-" in
      let digits := if Ascii.eqb c "+" || neg then s' else s in
      match ParseUintDigits digits with
      | None => None
      | Some un =>
          if negb neg && (2 ^ 63 <=? un)%Z then None
          else if neg && (2 ^ 63 <? un)%Z then None
          else Some (if neg then (- un)%Z else un)
      end
  end.

Definition digit_char (d : Z) : ascii := of_byte (48 + d).

Fixpoint format_pos (fuel : nat) (n : Z) (acc : string) : string :=
  match fuel with
  | O => acc
  | S fuel' =>
      let acc' := String (digit_char (n mod 10)) acc in
      if (n <? 10)%Z then acc' else format_pos fuel' (n / 10) acc'
  end.

(** [strconv.FormatInt(i, 10)]; twenty digits are enough for an [int64]. *)
Definition FormatInt (i : Z) : string :=
  if (i <? 0)%Z then String "-" (format_pos 20 (- i) EmptyString)
  else format_pos 20 i EmptyString.

End GoStrings.



(** ** Go's [crypto/sha256], [crypto/hmac] and [encoding/hex]

  The digest is computed over bytes; 32-bit words are [Z]s reduced
  modulo [2^32]. *)

Module Crypto.
Import GoStrings.
Local Open Scope Z_scope.

Fixpoint bytes_of_string (s : string) : list Z :=
  match s with
  | EmptyString => []
  | String c s' => byte c :: bytes_of_string s'
  end.

Definition add32 (a b : Z) : Z := (a + b) mod 4294967296.
Definition rotr (n x : Z) : Z :=
  Z.lor (Z.shiftr x n) (Z.land (Z.shiftl x (32 - n)) 4294967295).
Definition Ch (x y z : Z) : Z :=
  Z.lxor (Z.land x y) (Z.land (Z.lxor x 4294967295) z).
Definition Maj (x y z : Z) : Z :=
  Z.lxor (Z.lxor (Z.land x y) (Z.land x z)) (Z.land y z).
Definition Sigma0 (x : Z) : Z := Z.lxor (Z.lxor (rotr 2 x) (rotr 13 x)) (rotr 22 x).
Definition Sigma1 (x : Z) : Z := Z.lxor (Z.lxor (rotr 6 x) (rotr 11 x)) (rotr 25 x).
Definition sigma0 (x : Z) : Z := Z.lxor (Z.lxor (rotr 7 x) (rotr 18 x)) (Z.shiftr x 3).
Definition sigma1 (x : Z) : Z := Z.lxor (Z.lxor (rotr 17 x) (rotr 19 x)) (Z.shiftr x 10).

(** The round constants are the first 32 bits of the fractional parts of
    the cube roots of the first 64 primes, and the initial hash value
    those of the square roots of the first 8 primes (FIPS 180-4). *)
Definition is_prime (n : nat) : bool :=
  List.forallb (fun d => negb (Nat.eqb (Nat.modulo n d) 0)) (List.seq 2 (n - 2)).

Definition first_primes : list Z :=
  List.map Z.of_nat (List.filter is_prime (List.seq 2 310)).

(** The largest [r] below [2 ^ bits] with [r ^ 3 <= n], bit by bit. *)
Fixpoint cube_root (bits : nat) (n r : Z) : Z :=
  match bits with
  | O => r
  | S bits' =>
      let r' := r + 2 ^ Z.of_nat bits' in
      cube_root bits' n (if r' * r' * r' <=? n then r' else r)
  end.

Definition K256 : list Z :=
  Eval vm_compute in
    List.map (fun p => cube_root 36 (p * 2 ^ 96) 0 mod 4294967296) first_primes.

Definition init256 : list Z :=
  Eval vm_compute in
    List.map (fun p => Z.sqrt (p * 2 ^ 64) mod 4294967296) (List.firstn 8 first_primes).

(** Message padding: the byte 0x80, zeros up to 56 modulo 64, and the bit
    length as a big-endian 64-bit number. *)
Definition be_bytes (width : nat) (v : Z) : list Z :=
  List.map (fun i => (v / 2 ^ (8 * Z.of_nat i)) mod 256) (List.rev (List.seq 0 width)).

Definition pad256 (msg : list Z) : list Z :=
  let len := Z.of_nat (List.length msg) in
  let zeros := (55 - len) mod 64 in
  (msg ++ [128] ++ List.repeat 0 (Z.to_nat zeros) ++ be_bytes 8 (8 * len))%list.

Fixpoint be_words (bs : list Z) : list Z :=
  match bs with
  | b0 :: b1 :: b2 :: b3 :: rest =>
      (b0 * 16777216 + b1 * 65536 + b2 * 256 + b3) :: be_words rest
  | _ => []
  end.

(** The message schedule, newest word first. *)
Fixpoint schedule (n : nat) (rw : list Z) : list Z :=
  match n with
  | O => rw
  | S n' =>
      let w := add32 (add32 (sigma1 (List.nth 1 rw 0)) (List.nth 6 rw 0))
                     (add32 (sigma0 (List.nth 14 rw 0)) (List.nth 15 rw 0)) in
      schedule n' (w :: rw)
  end.

Definition round256 (st : list Z) (kw : Z * Z) : list Z :=
  match st with
  | [a; b; c; d; e; f; g; h] =>
      let t1 := add32 (add32 (add32 h (Sigma1 e)) (add32 (Ch e f g) (fst kw))) (snd kw) in
      let t2 := add32 (Sigma0 a) (Maj a b c) in
      [add32 t1 t2; a; b; c; add32 d t1; e; f; g]
  | _ => st
  end.

Definition compress256 (h : list Z) (block : list Z) : list Z :=
  let w := List.rev (schedule 48 (List.rev (be_words block))) in
  let st := List.fold_left round256 (List.combine K256 w) h in
  List.map (fun p => add32 (fst p) (snd p)) (List.combine h st).

Fixpoint blocks256 (n : nat) (h : list Z) (bs : list Z) : list Z :=
  match n with
  | O => h
  | S n' => blocks256 n' (compress256 h (List.firstn 64 bs)) (List.skipn 64 bs)
  end.

(** [sha256.Sum256]: the 32 bytes of the digest. *)
Definition Sum256 (msg : list Z) : list Z :=
  let padded := pad256 msg in
  let h := blocks256 (Nat.div (List.length padded) 64) init256 padded in
  List.concat (List.map (be_bytes 4) h).

Definition hex_digit (d : Z) : ascii :=
  if d <? 10 then of_byte (48 + d) else of_byte (87 + d).

(** [hex.EncodeToString]: two lowercase digits for each byte. *)
Fixpoint EncodeToString (bs : list Z) : string :=
  match bs with
  | [] => EmptyString
  | b :: bs' => String (hex_digit (b / 16)) (String (hex_digit (b mod 16)) (EncodeToString bs'))
  end.

(** [hmac.New(sha256.New, key)], [Write(msg)], [Sum(nil)]. *)
Definition hmac_sha256 (key msg : list Z) : list Z :=
  let key' := if 64 <? Z.of_nat (List.length key) then Sum256 key else key in
  let key64 := (key' ++ List.repeat 0 (64 - List.length key')%nat)%list in
  let ipad := List.map (fun b => Z.lxor b 54) key64 in
  let opad := List.map (fun b => Z.lxor b 92) key64 in
  Sum256 (opad ++ Sum256 (ipad ++ msg))%list.

End Crypto.

(** ** Go's [float64] and [int64]

    A [float64] is a [spec_float] of precision 53 and maximal exponent 1024,
    and the operations are the IEEE 754 ones of [SpecFloat]. *)

Module GoNum.
Local Open Scope Z_scope.

Definition minInt64 : Z := GoStrings.minInt64.
Definition maxInt64 : Z := GoStrings.maxInt64.

(** Two's complement wrap-around of [int64] arithmetic. *)
Definition wrap64 (z : Z) : Z := (z + 2 ^ 63) mod 2 ^ 64 - 2 ^ 63.

Definition prec : Z := 53.
Definition emax : Z := 1024.

Definition float64_valid (x : spec_float) : bool := valid_binary prec emax x.

(** [float64(i)] for an integer [i]: the nearest double, ties to even. *)
Definition float64_of_int (i : Z) : spec_float := binary_normalize prec emax i 0 false.

Definition fadd : spec_float -> spec_float -> spec_float := SFadd prec emax.
Definition fsub : spec_float -> spec_float -> spec_float := SFsub prec emax.
Definition fmul : spec_float -> spec_float -> spec_float := SFmul prec emax.
Definition fdiv : spec_float -> spec_float -> spec_float := SFdiv prec emax.
Definition fabs : spec_float -> spec_float := SFabs.
Definition fleb : spec_float -> spec_float -> bool := SFleb.
Definition feqb : spec_float -> spec_float -> bool := SFeqb.

(** [int64(f)]: the fraction is discarded.  For a value outside of [int64]
    the language leaves the result to the implementation; amd64 yields the
    smallest [int64]. *)
Definition int64_of_float (f : spec_float) : Z :=
  match f with
  | S754_zero _ => 0
  | S754_finite s m e =>
      let mag := if 0 <=? e then Zpos m * 2 ^ e else Zpos m / 2 ^ (- e) in
      let v := if s then - mag else mag in
      if (minInt64 <=? v) && (v <=? maxInt64) then v else minInt64
  | _ => minInt64
  end.

(** A zero of either sign. *)
Definition is_zero (f : spec_float) : bool :=
  match f with
  | S754_zero _ => true
  | _ => false
  end.

(** [time.Duration] counts nanoseconds. *)
Definition Millisecond : Z := 1000000.
Definition Second : Z := 1000000000.

(** [Duration.Seconds]: [float64(d / Second) + float64(d % Second) / 1e9],
    with Go's truncating division. *)
Definition Duration_Seconds (d : Z) : spec_float :=
  fadd (float64_of_int (Z.quot d Second))
       (fdiv (float64_of_int (Z.rem d Second)) (float64_of_int 1000000000)).

End GoNum.

(** ** pkg/auth/hmac.go *)

Module Auth.
Import GoStrings Crypto GoNum.

Definition AuthHeaderPrefix : string := "RCS-HMAC-SHA256".
Definition DefaultClockSkew : Z := 300.

Record HMACAuth := mkHMACAuth {
  secrets : gmap string string;   (* keyId to secret *)
  clockSkew : Z                   (* a time.Duration *)
}.

Record AuthHeader := mkAuthHeader {
  KeyID : string;
  Timestamp : string;
  Nonce : string;
  Signature : string
}.

Inductive AuthError :=
| ErrInvalidPrefix                 (* "invalid auth header prefix" *)
| ErrMissingFields                 (* "missing required auth header fields" *)
| ErrUnknownKey (keyID : string)   (* "unknown keyId: %s" *)
| ErrInvalidTimestamp (ts : string)(* "invalid timestamp: %s" *)
| ErrTimestampSkew (ts now : Z)    (* "timestamp outside allowed skew: %d vs %d" *)
| ErrSignatureMismatch.            (* "signature mismatch" *)

Definition NewHMACAuth (secrets : gmap string string) (clockSkew : Z) : HMACAuth :=
  mkHMACAuth secrets
    (if (clockSkew =? 0)%Z then (DefaultClockSkew * Second)%Z else clockSkew).

Definition BodySHA256Hex (body : string) : string :=
  EncodeToString (Sum256 (bytes_of_string body)).

Definition LF : string := String (ascii_of_nat 10) EmptyString.

Definition CanonicalString (method path ts nonce bodyHex : string) : string :=
  Join [ToUpper method; path; ts; nonce; bodyHex] LF.

Definition ComputeSignature (method path body ts nonce secret : string) : string :=
  let canonical := CanonicalString method path ts nonce (BodySHA256Hex body) in
  EncodeToString (hmac_sha256 (bytes_of_string secret) (bytes_of_string canonical)).

(** [fmt.Sprintf("%s keyId=%s,ts=%s,nonce=%s,sig=%s", ...)]. *)
Definition formatAuthHeader (keyID ts nonce sig : string) : string :=
  AuthHeaderPrefix +++ " keyId=" +++ keyID +++ ",ts=" +++ ts
    +++ ",nonce=" +++ nonce +++ ",sig=" +++ sig.

(** [now] is [time.Now().Unix()]. *)
Definition CreateAuthHeader (h : HMACAuth) (now : Z)
    (method path body keyID nonce : string) : string :=
  let ts := FormatInt now in
  match secrets h !! keyID with
  | None => EmptyString
  | Some secret =>
      let sig := ComputeSignature method path body ts nonce secret in
      formatAuthHeader keyID ts nonce sig
  end.

(** The body of the loop over the pairs of [ParseAuthHeader]. *)
Definition parsePair (auth : AuthHeader) (pair : string) : AuthHeader :=
  match SplitN2 pair "=" with
  | [k; v] =>
      let key := TrimSpace k in
      let value := TrimSpace v in
      if String.eqb key "keyId" then
        mkAuthHeader value (Timestamp auth) (Nonce auth) (Signature auth)
      else if String.eqb key "ts" then
        mkAuthHeader (KeyID auth) value (Nonce auth) (Signature auth)
      else if String.eqb key "nonce" then
        mkAuthHeader (KeyID auth) (Timestamp auth) value (Signature auth)
      else if String.eqb key "sig" then
        mkAuthHeader (KeyID auth) (Timestamp auth) (Nonce auth) value
      else auth
  | _ => auth
  end.

Definition ParseAuthHeader (authHeader : string) : AuthError + AuthHeader :=
  if negb (HasPrefix authHeader AuthHeaderPrefix) then inl ErrInvalidPrefix
  else
    let parts := TrimPrefix authHeader (AuthHeaderPrefix +++ " ") in
    let pairs := Split parts "," in
    let auth := List.fold_left parsePair pairs (mkAuthHeader "" "" "" "") in
    if String.eqb (KeyID auth) "" || String.eqb (Timestamp auth) ""
       || String.eqb (Nonce auth) "" || String.eqb (Signature auth) ""
    then inl ErrMissingFields
    else inr auth.

(** [abs] of hmac.go: the negation wraps like every [int64] operation. *)
Definition abs (x : Z) : Z := if (x <? 0)%Z then wrap64 (- x) else x.

(** [int64(h.clockSkew.Seconds())]. *)
Definition skewSeconds (h : HMACAuth) : Z :=
  int64_of_float (Duration_Seconds (clockSkew h)).

(** [hmac.Equal]: equality of the two byte strings, in constant time. *)
Definition hmac_Equal (a b : string) : bool := String.eqb a b.

(** [VerifySignature] returns an error or [nil], here [None]. *)
Definition VerifySignature (h : HMACAuth) (now : Z)
    (method path body : string) (auth : AuthHeader) : option AuthError :=
  match secrets h !! KeyID auth with
  | None => Some (ErrUnknownKey (KeyID auth))
  | Some secret =>
      match ParseInt (Timestamp auth) with
      | None => Some (ErrInvalidTimestamp (Timestamp auth))
      | Some ts =>
          if (abs (wrap64 (now - ts)) >? skewSeconds h)%Z
          then Some (ErrTimestampSkew ts now)
          else
            let expectedSig :=
              ComputeSignature method path body (Timestamp auth) (Nonce auth) secret in
            if negb (hmac_Equal expectedSig (Signature auth))
            then Some ErrSignatureMismatch
            else None
      end
  end.

End Auth.

(** ** Vocabulary of the statements about the auth header *)

Module AuthSpec.
Import GoStrings Auth.

(** [free_of c s]: the byte [c] does not occur in [s]. *)
Fixpoint free_of (c : ascii) (s : string) : bool :=
  match s with
  | EmptyString => true
  | String d s' => negb (Ascii.eqb d c) && free_of c s'
  end.

(** Whitespace: a sequence of encoded Unicode spaces, which is what
    [strings.TrimSpace] removes from an end; and the same read from the
    end. *)
Definition Whitespace : string -> Prop := Spaces asciiSpace space2 space3.
Definition WhitespaceRev : string -> Prop := Spaces asciiSpace space2_rev space3_rev.

(** The bytes with which an encoded space can start. *)
Definition space_start (c : ascii) : bool :=
  asciiSpace c || (byte c =? 194)%Z || (byte c =? 225)%Z
  || (byte c =? 226)%Z || (byte c =? 227)%Z.

(** A field value as the claim has it: present and free of [','] and ['=']. *)
Definition plain_value (v : string) : bool :=
  negb (String.eqb v "") && free_of "," v && free_of "=" v.

(** A value that [TrimSpace] leaves alone: no space at either end. *)
Definition trimmed (v : string) : bool := String.eqb (TrimSpace v) v.

Definition plain_header (h : AuthHeader) : bool :=
  plain_value (KeyID h) && plain_value (Timestamp h)
  && plain_value (Nonce h) && plain_value (Signature h).

Definition trimmed_header (h : AuthHeader) : bool :=
  trimmed (KeyID h) && trimmed (Timestamp h)
  && trimmed (Nonce h) && trimmed (Signature h).

Definition formatHeader (h : AuthHeader) : string :=
  formatAuthHeader (KeyID h) (Timestamp h) (Nonce h) (Signature h).

(** One [name=value] pair of a header with whitespace around the name and
    around the value. *)
Record Pair := mkPair {
  before_name : string;
  name : string;
  after_name : string;
  before_value : string;
  value : string;
  after_value : string
}.

Definition render (p : Pair) : string :=
  before_name p +++ name p +++ after_name p +++ "="
    +++ before_value p +++ value p +++ after_value p.

Definition padding_ok (p : Pair) : Prop :=
  Whitespace (before_name p) /\ Whitespace (after_name p) /\
  Whitespace (before_value p) /\ Whitespace (after_value p).

Definition fields_of (h : AuthHeader) : list (string * string) :=
  [("keyId", KeyID h); ("ts", Timestamp h); ("nonce", Nonce h); ("sig", Signature h)].

(** The header text made of the pairs [ps] in their order. *)
Definition headerOfPairs (ps : list Pair) : string :=
  AuthHeaderPrefix +++ " " +++ Join (List.map render ps) ",".

(** The field of an [AuthHeader] that a pair name selects. *)
Definition getField (nm : string) (a : AuthHeader) : string :=
  if String.eqb nm "keyId" then KeyID a
  else if String.eqb nm "ts" then Timestamp a
  else if String.eqb nm "nonce" then Nonce a
  else if String.eqb nm "sig" then Signature a
  else EmptyString.

Definition names : list string := ["keyId"; "ts"; "nonce"; "sig"].

(** What a pair must satisfy for the parser to read it back. *)
Definition pair_ok (p : Pair) : Prop :=
  padding_ok p /\ In (name p) names /\
  value p <> "" /\ trimmed (value p) = true /\ free_of "," (value p) = true.

(** The assignment that the loop of [ParseAuthHeader] makes for a pair. *)
Definition setField (nm v : string) (auth : AuthHeader) : AuthHeader :=
  if String.eqb nm "keyId" then
    mkAuthHeader v (Timestamp auth) (Nonce auth) (Signature auth)
  else if String.eqb nm "ts" then
    mkAuthHeader (KeyID auth) v (Nonce auth) (Signature auth)
  else if String.eqb nm "nonce" then
    mkAuthHeader (KeyID auth) (Timestamp auth) v (Signature auth)
  else if String.eqb nm "sig" then
    mkAuthHeader (KeyID auth) (Timestamp auth) (Nonce auth) v
  else auth.

End AuthSpec.

(** ** pkg/models

    [json.RawMessage] fields are byte strings that may be [nil], hence
    [option string]; a [time.Time] is a number. *)

Module CallbackRequest.
Record t := mk {
  APIVersion : string;
  ChallengeID : string;
  SolverJobID : string;
  Status : string;
  Answer : string;
  ErrorCode : string;
  ErrorMessage : string;
  Metadata : option string
}.
End CallbackRequest.

Module CallbackResponse.
Record t := mk {
  Received : bool;
  ChallengeID : string;
  Duplicate : bool
}.
End CallbackResponse.

Module ValidationRule.
Record t := mk {
  Type_ : string;               (* the field Type *)
  Params : option string;
  Answer : string
}.
End ValidationRule.

Module Challenge.
Record t := mk {
  ID : string;
  Type_ : string;               (* the field Type *)
  Problem : string;
  OutputSpec : string;
  Rule : ValidationRule.t;      (* the field ValidationRule *)
  CreatedAt : Z
}.
End Challenge.

Module Result.
Record t := mk {
  ID : Z;
  ChallengeID : string;
  RequestID : string;
  SolverJobID : string;
  Status : string;
  ReceivedAnswer : string;
  IsCorrect : bool;
  SolverAddress : string;
  ComputeTimeMs : Z;
  SolverMetadata : option string;
  CreatedAt : Z
}.
End Result.

Module WebhookAudit.
Record t := mk {
  ID : Z;
  ChallengeID : string;
  RequestID : string;
  Headers : string;
  BodyHash : string;
  StatusCode : Z;
  CreatedAt : Z
}.
End WebhookAudit.

Module PendingChallenge.
Record t := mk {
  ID : string;
  Problem : string;
  OutputSpec : string;
  CallbackURL : string;
  ReceivedAt : Z;
  Status : string;
  AttemptCount : Z;
  NextRetryTime : Z
}.
End PendingChallenge.

(** ** Go's [net/http], as far as the sources use it *)

Module Http.
Import GoStrings.
Local Open Scope Z_scope.

(** [textproto.CanonicalMIMEHeaderKey] on a header token: the first letter
    and every letter after a dash in upper case, the others in lower
    case. *)
Definition lower_byte (c : ascii) : ascii :=
  if (65 <=? byte c) && (byte c <=? 90) then of_byte (byte c + 32) else c.

Fixpoint canonical (upper : bool) (s : string) : string :=
  match s with
  | EmptyString => EmptyString
  | String c s' =>
      let c' := if upper then upper_byte c else lower_byte c in
      String c' (canonical (Ascii.eqb c' "-") s')
  end.

Definition CanonicalMIMEHeaderKey (key : string) : string := canonical true key.

(** [http.Header] is a [map[string][]string] with canonical keys. *)
Abbreviation Header := (gmap string (list string)).

Definition Header_Get (h : Header) (key : string) : string :=
  match h !! CanonicalMIMEHeaderKey key with
  | Some (v :: _) => v
  | _ => EmptyString
  end.

Definition Header_Set (h : Header) (key value : string) : Header :=
  <[ CanonicalMIMEHeaderKey key := [value] ]> h.

(** A request body is read once.  [MaxBytes r n] is
    [http.MaxBytesReader(w, r, n)]: it hands out at most [n] bytes and
    fails when the underlying reader has more. *)
Inductive Reader :=
| Bytes (content : string)
| MaxBytes (r : Reader) (n : Z).

Inductive ReadError := ErrBodyTooLarge.   (* "http: request body too large" *)

(** [io.ReadAll(r)]: what was read, and the error that ended the read
    unless that was the end of the data. *)
Fixpoint ReadAll (r : Reader) : string * option ReadError :=
  match r with
  | Bytes content => (content, None)
  | MaxBytes r' n =>
      match ReadAll r' with
      | (content, Some e) =>
          if Z.of_nat (String.length content) <=? n then (content, Some e)
          else (String.substring 0 (Z.to_nat n) content, Some ErrBodyTooLarge)
      | (content, None) =>
          if Z.of_nat (String.length content) <=? n then (content, None)
          else (String.substring 0 (Z.to_nat n) content, Some ErrBodyTooLarge)
      end
  end.

Record Request := mkRequest {
  Method : string;
  EscapedPath : string;            (* r.URL.EscapedPath() *)
  Hdr : Header;                    (* r.Header *)
  Body : Reader;                   (* r.Body *)
  RemoteAddr : string;
  Vars : gmap string string        (* mux.Vars(r) *)
}.

Definition with_Body (r : Request) (b : Reader) : Request :=
  mkRequest (Method r) (EscapedPath r) (Hdr r) b (RemoteAddr r) (Vars r).

Definition with_Header (r : Request) (h : Header) : Request :=
  mkRequest (Method r) (EscapedPath r) h (Body r) (RemoteAddr r) (Vars r).

Definition StatusOK : Z := 200.
Definition StatusAccepted : Z := 202.
Definition StatusBadRequest : Z := 400.
Definition StatusUnauthorized : Z := 401.
Definition StatusNotFound : Z := 404.
Definition StatusRequestEntityTooLarge : Z := 413.
Definition StatusInternalServerError : Z := 500.

(** What a handler writes: the status and the JSON document, either the
    error envelope [models.ErrorResponse] or [models.CallbackResponse]. *)
Inductive Payload :=
| ErrorBody (Code Message RequestID : string)
| CallbackBody (resp : CallbackResponse.t).

Record Response := mkResponse {
  StatusCode : Z;
  Content : Payload
}.

(** [writeError] of the middleware and of both services. *)
Definition writeError (statusCode : Z) (code message requestID : string) : Response :=
  mkResponse statusCode (ErrorBody code message requestID).

End Http.

(** ** pkg/validator

    The functions of Go's library that the validator calls are taken as
    they come: [Lib] holds [strconv.ParseFloat(s, 64)], [json.Unmarshal] into
    the three parameter structs, [strings.EqualFold], and [regexp.Compile]
    followed by [MatchString]. *)

Module Validator.
Import GoNum.

Record Lib := mkLib {
  ParseFloat : string -> option spec_float;
  (* json.Unmarshal into ExactMatchParams whose CaseSensitive holds the
     second argument before the call *)
  UnmarshalExactMatchParams : string -> bool -> option bool;
  UnmarshalNumericToleranceParams : string -> option spec_float;
  UnmarshalRegexParams : string -> option string;
  EqualFold : string -> string -> bool;
  (* None when the pattern does not compile *)
  RegexpMatchString : string -> string -> option bool
}.

Inductive ValidationError :=
| ErrUnknownRuleType (ruleType : string)
| ErrExactMatchParams
| ErrNumericToleranceRequiresParams
| ErrNumericToleranceParams
| ErrParseExpected
| ErrParseReceived
| ErrRegexRequiresParams
| ErrRegexParams
| ErrRegexCompile.

(** Go's pair [(bool, error)]. *)
Definition Verdict : Type := bool * option ValidationError.

Definition failed (e : ValidationError) : Verdict := (false, Some e).

Section WithLib.
Variable lib : Lib.

Definition validateExactMatch (rule : ValidationRule.t) (receivedAnswer : string) : Verdict :=
  let caseSensitive :=
    match ValidationRule.Params rule with
    | None => Some true
    | Some params => UnmarshalExactMatchParams lib params true
    end in
  match caseSensitive with
  | None => failed ErrExactMatchParams
  | Some true => (String.eqb (ValidationRule.Answer rule) receivedAnswer, None)
  | Some false => (EqualFold lib (ValidationRule.Answer rule) receivedAnswer, None)
  end.

Definition validateNumericTolerance (rule : ValidationRule.t) (receivedAnswer : string)
  : Verdict :=
  match ValidationRule.Params rule with
  | None => failed ErrNumericToleranceRequiresParams
  | Some params =>
      match UnmarshalNumericToleranceParams lib params with
      | None => failed ErrNumericToleranceParams
      | Some tolerance =>
          match ParseFloat lib (ValidationRule.Answer rule) with
          | None => failed ErrParseExpected
          | Some expectedValue =>
              match ParseFloat lib receivedAnswer with
              | None => failed ErrParseReceived
              | Some receivedValue =>
                  let diff := fabs (fsub expectedValue receivedValue) in
                  (fleb diff tolerance, None)
              end
          end
      end
  end.

Definition validateRegex (rule : ValidationRule.t) (receivedAnswer : string) : Verdict :=
  match ValidationRule.Params rule with
  | None => failed ErrRegexRequiresParams
  | Some params =>
      match UnmarshalRegexParams lib params with
      | None => failed ErrRegexParams
      | Some pattern =>
          match RegexpMatchString lib pattern receivedAnswer with
          | None => failed ErrRegexCompile
          | Some matched => (matched, None)
          end
      end
  end.

Definition ValidateAnswer (rule : ValidationRule.t) (receivedAnswer : string) : Verdict :=
  let ruleType := ValidationRule.Type_ rule in
  if String.eqb ruleType "ExactMatch" then validateExactMatch rule receivedAnswer
  else if String.eqb ruleType "NumericTolerance" then validateNumericTolerance rule receivedAnswer
  else if String.eqb ruleType "Regex" then validateRegex rule receivedAnswer
  else failed (ErrUnknownRuleType ruleType).

End WithLib.
End Validator.

(** ** pkg/db/challenger.go

    The tables are lists of rows in the order of insertion.  Every statement
    goes through the SQLite driver, which may fail ([DriverFails]: the disk,
    a lock that is not released in time); a failed statement changes
    nothing. *)

Module ChallengerDB.
Local Open Scope Z_scope.

Inductive DriverOutcome := DriverOK | DriverFails.

Inductive DBError :=
| ErrNoRows          (* sql.ErrNoRows: the query found no row *)
| ErrDriver          (* the driver reported a failure *)
| ErrConstraint.     (* a constraint of the table rejected the row *)

(** A row of the table [results]. *)
Module ResultRow.
Record t := mk {
  id : Z;
  challenge_id : string;
  request_id : string;
  solver_job_id : string;
  status : string;
  received_answer : string;
  is_correct : bool;
  solver_address : string;
  compute_time_ms : Z;
  solver_metadata : string;
  created_at : Z
}.
End ResultRow.

Record t := mk {
  challenges : list Challenge.t;
  results : list ResultRow.t;
  results_seq : Z;                    (* AUTOINCREMENT of results *)
  webhooks : list WebhookAudit.t;
  webhooks_seq : Z;                   (* AUTOINCREMENT of webhooks *)
  seen_nonces : list (string * Z)
}.

(** The database after [createTables] on a new file. *)
Definition empty : t := mk [] [] 0 [] 0 [].

(** [GetChallenge]: [row.Scan] fails with [sql.ErrNoRows] when there is no
    such challenge, and the function hands every failure on.  (The rule is
    kept as a value here; the sources store it as JSON text.) *)
Definition GetChallenge (io : DriverOutcome) (db : t) (id : string) : DBError + Challenge.t :=
  match io with
  | DriverFails => inl ErrDriver
  | DriverOK =>
      match List.find (fun c => String.eqb (Challenge.ID c) id) (challenges db) with
      | None => inl ErrNoRows
      | Some c => inr c
      end
  end.

Definition has_key (challengeID requestID : string) (row : ResultRow.t) : bool :=
  String.eqb (ResultRow.challenge_id row) challengeID
  && String.eqb (ResultRow.request_id row) requestID.

Definition metadataJSON (result : Result.t) : string :=
  match Result.SolverMetadata result with
  | None => EmptyString
  | Some m => m
  end.

(** The row that the two insert statements bind. *)
Definition row_of (id : Z) (result : Result.t) : ResultRow.t :=
  ResultRow.mk id (Result.ChallengeID result) (Result.RequestID result)
    (Result.SolverJobID result) (Result.Status result) (Result.ReceivedAnswer result)
    (Result.IsCorrect result) (Result.SolverAddress result) (Result.ComputeTimeMs result)
    (metadataJSON result) (Result.CreatedAt result).

Definition insert_result (db : t) (result : Result.t) : t :=
  mk (challenges db)
     (results db ++ [row_of (results_seq db + 1) result])%list
     (results_seq db + 1) (webhooks db) (webhooks_seq db) (seen_nonces db).

Definition key_taken (db : t) (result : Result.t) : bool :=
  List.existsb (has_key (Result.ChallengeID result) (Result.RequestID result)) (results db).

(** [SaveResult]: a plain [INSERT], which [UNIQUE (challenge_id, request_id)]
    rejects for a key that is there. *)
Definition SaveResult (io : DriverOutcome) (db : t) (result : Result.t) : t * option DBError :=
  match io with
  | DriverFails => (db, Some ErrDriver)
  | DriverOK =>
      if key_taken db result then (db, Some ErrConstraint)
      else (insert_result db result, None)
  end.

(** [SaveResultWithDuplicateCheck]: [INSERT OR IGNORE] skips the row that
    would violate the constraint, and [RowsAffected] tells which it was. *)
Definition SaveResultWithDuplicateCheck (io : DriverOutcome) (db : t) (result : Result.t)
  : t * (DBError + bool) :=
  match io with
  | DriverFails => (db, inl ErrDriver)
  | DriverOK =>
      let db' := if key_taken db result then db else insert_result db result in
      let rowsAffected := Z.of_nat (List.length (results db')) - Z.of_nat (List.length (results db)) in
      (db', inr (rowsAffected >? 0))
  end.

Definition result_of (row : ResultRow.t) : Result.t :=
  Result.mk (ResultRow.id row) (ResultRow.challenge_id row) (ResultRow.request_id row)
    (ResultRow.solver_job_id row) (ResultRow.status row) (ResultRow.received_answer row)
    (ResultRow.is_correct row) (ResultRow.solver_address row) (ResultRow.compute_time_ms row)
    (if String.eqb (ResultRow.solver_metadata row) "" then None
     else Some (ResultRow.solver_metadata row))
    (ResultRow.created_at row).

(** [GetResult]: [nil, nil] when there is no such row. *)
Definition GetResult (io : DriverOutcome) (db : t) (challengeID requestID : string)
  : DBError + option Result.t :=
  match io with
  | DriverFails => inl ErrDriver
  | DriverOK => inr (option_map result_of (List.find (has_key challengeID requestID) (results db)))
  end.

Definition SaveWebhookAudit (io : DriverOutcome) (db : t) (audit : WebhookAudit.t)
  : t * option DBError :=
  match io with
  | DriverFails => (db, Some ErrDriver)
  | DriverOK =>
      let row := WebhookAudit.mk (webhooks_seq db + 1) (WebhookAudit.ChallengeID audit)
                   (WebhookAudit.RequestID audit) (WebhookAudit.Headers audit)
                   (WebhookAudit.BodyHash audit) (WebhookAudit.StatusCode audit)
                   (WebhookAudit.CreatedAt audit) in
      (mk (challenges db) (results db) (results_seq db)
          (webhooks db ++ [row])%list (webhooks_seq db + 1) (seen_nonces db), None)
  end.

Definition HasSeenNonce (io : DriverOutcome) (db : t) (nonce : string) : DBError + bool :=
  match io with
  | DriverFails => inl ErrDriver
  | DriverOK => inr (List.existsb (fun p => String.eqb (fst p) nonce) (seen_nonces db))
  end.

(** [SaveNonce]: [INSERT OR IGNORE] under the primary key [nonce]. *)
Definition SaveNonce (io : DriverOutcome) (db : t) (nonce : string) (now : Z) : t * option DBError :=
  match io with
  | DriverFails => (db, Some ErrDriver)
  | DriverOK =>
      if List.existsb (fun p => String.eqb (fst p) nonce) (seen_nonces db) then (db, None)
      else (mk (challenges db) (results db) (results_seq db) (webhooks db) (webhooks_seq db)
               (seen_nonces db ++ [(nonce, now)])%list, None)
  end.

End ChallengerDB.

(** ** pkg/api/middleware.go *)

Module Middleware.
Import GoStrings Http Auth ChallengerDB.
Local Open Scope Z_scope.

Definition MaxRequestSize : Z := 5 * 1024 * 1024.

(** [SizeLimit] wraps the body and calls the next handler. *)
Definition SizeLimit (r : Request) : Request :=
  with_Body r (MaxBytes (Body r) MaxRequestSize).

(** What the driver does for the two statements of one request. *)
Record NonceIO := mkNonceIO {
  io_HasSeenNonce : DriverOutcome;
  io_SaveNonce : DriverOutcome
}.

(** [checkNonce] for a [*db.ChallengerDB]; the error is [nil] or not. *)
Definition checkNonce (io : DriverOutcome) (db : ChallengerDB.t) (nonce : string) : bool :=
  match HasSeenNonce io db nonce with
  | inl _ => false
  | inr seen => negb seen
  end.

(** A middleware either answers itself or calls the next handler, with the
    request as it has become. *)
Inductive Outcome :=
| Answered (resp : Response)
| Next (r : Request).

(** [HMACAuth]; [now] is the clock of [VerifySignature] and of
    [SaveNonce]. *)
Definition HMACAuth (hmacAuth : Auth.HMACAuth) (now : Z) (io : NonceIO)
    (db : ChallengerDB.t) (r : Request) : ChallengerDB.t * Outcome :=
  let requestID := Header_Get (Hdr r) "X-Request-ID" in
  let authHeader := Header_Get (Hdr r) "Authorization" in
  if String.eqb authHeader "" then
    (db, Answered (writeError StatusUnauthorized "MISSING_AUTH"
                     "Authorization header required" requestID))
  else
    match ParseAuthHeader authHeader with
    | inl _ =>
        (db, Answered (writeError StatusUnauthorized "INVALID_AUTH"
                         "Invalid authorization header" requestID))
    | inr authInfo =>
        match ReadAll (Body r) with
        | (_, Some _) =>
            (db, Answered (writeError StatusBadRequest "READ_ERROR"
                             "Failed to read request body" requestID))
        | (body, None) =>
            let r := with_Body r (Bytes body) in
            if negb (checkNonce (io_HasSeenNonce io) db (Nonce authInfo)) then
              (db, Answered (writeError StatusUnauthorized "REPLAY_ATTACK"
                               "Nonce already seen" requestID))
            else
              match VerifySignature hmacAuth now (Method r) (EscapedPath r) body authInfo with
              | Some _ =>
                  (db, Answered (writeError StatusUnauthorized "INVALID_SIGNATURE"
                                   "Signature verification failed" requestID))
              | None =>
                  let db := fst (SaveNonce (io_SaveNonce io) db (Nonce authInfo) now) in
                  let h := Header_Set (Hdr r) "X-Auth-KeyID" (KeyID authInfo) in
                  let h := Header_Set h "X-Auth-Timestamp" (Timestamp authInfo) in
                  let h := Header_Set h "X-Auth-Nonce" (Nonce authInfo) in
                  (db, Next (with_Header r h))
              end
        end
    end.

(** The stages in front of a protected handler, in the order of the
    routers: the size limit, then the authentication. *)
Definition protectedStages (hmacAuth : Auth.HMACAuth) (now : Z) (io : NonceIO)
    (db : ChallengerDB.t) (r : Request) : ChallengerDB.t * Outcome :=
  HMACAuth hmacAuth now io db (SizeLimit r).

End Middleware.

(** ** internal/challenger/service.go *)

Module Challenger.
Import GoStrings Crypto Http ChallengerDB.
Local Open Scope Z_scope.

(** What surrounds one call of [HandleCallback]: the clock, the JSON
    functions of Go's library, the validator's library, the driver's
    behaviour for the three statements, and the Sui transaction builder,
    which is [nil] or uploads a commitment and gives its object id or an
    error. *)
Record Env := mkEnv {
  now : Z;
  DecodeCallbackRequest : string -> option CallbackRequest.t;
  MarshalCallbackRequest : CallbackRequest.t -> option string;
  UnmarshalComputeTimeMs : string -> option Z;
  MarshalResult : Result.t -> option string;
  lib : Validator.Lib;
  io_GetChallenge : DriverOutcome;
  io_SaveResult : DriverOutcome;
  io_SaveWebhookAudit : DriverOutcome;
  suiTxBuilder : option (Result.t -> option string)
}.

(** What the handler starts beside the store and the response. *)
Inductive Effect :=
| SuiUpload (challengeID : string)
| VaultAddBounty
| LogUpload (id log solverAddr : string).

(** [fmt.Sprintf("%040x", n)]: lowercase hexadecimal, zero-padded to forty
    digits. *)
Fixpoint hex_digits (fuel : nat) (n : Z) (acc : string) : string :=
  match fuel with
  | O => acc
  | S fuel' =>
      let acc' := String (hex_digit (n mod 16)) acc in
      if n <? 16 then acc' else hex_digits fuel' (n / 16) acc'
  end.

Fixpoint zeros (n : nat) : string :=
  match n with
  | O => EmptyString
  | S n' => String "0" (zeros n')
  end.

Definition Sprintf_040x (n : Z) : string :=
  let digits := hex_digits 64 n EmptyString in
  zeros (40 - String.length digits) +++ digits.

(** The solver address: the header [X-Solver-Address], or a placeholder made
    of the length of the peer's address. *)
Definition solverAddressOf (r : Request) : string :=
  let solverAddress := Header_Get (Hdr r) "X-Solver-Address" in
  if String.eqb solverAddress "" then
    "0x" +++ String.substring 0 40 (Sprintf_040x (Z.of_nat (String.length (RemoteAddr r))))
  else solverAddress.

(** [serializeHeaders]: one line [key: value] for every value.  Go leaves
    the order in which a map is ranged over open; the lines come in the
    order of [map_to_list] here. *)
Definition serializeHeaders (headers : Header) : string :=
  let headerLines :=
    List.concat
      (List.map (fun kv => List.map (fun v => fst kv +++ ": " +++ v) (snd kv))
                (map_to_list headers)) in
  Join headerLines Auth.LF.

Definition writeCallbackResponse (challengeID : string) (duplicate : bool) : Response :=
  mkResponse StatusOK (CallbackBody (CallbackResponse.mk true challengeID duplicate)).

(** The validation step: only a successful callback with an answer is
    validated, and a validation error leaves [isCorrect] false. *)
Definition isCorrectOf (env : Env) (challenge : Challenge.t) (req : CallbackRequest.t) : bool :=
  if String.eqb (CallbackRequest.Status req) "success"
     && negb (String.eqb (CallbackRequest.Answer req) "")
  then
    match Validator.ValidateAnswer (lib env) (Challenge.Rule challenge)
            (CallbackRequest.Answer req) with
    | (correct, None) => correct
    | (_, Some _) => false
    end
  else false.

(** The result record that the handler builds. *)
Definition resultOf (env : Env) (r : Request) (challenge : Challenge.t)
    (req : CallbackRequest.t) : Result.t :=
  let challengeID := default EmptyString (Vars r !! "challenge_id") in
  let requestID := Header_Get (Hdr r) "X-Request-ID" in
  let computeTimeMs :=
    match CallbackRequest.Metadata req with
    | None => 0
    | Some metadata => default 0 (UnmarshalComputeTimeMs env metadata)
    end in
  Result.mk 0 challengeID requestID (CallbackRequest.SolverJobID req)
    (CallbackRequest.Status req) (CallbackRequest.Answer req)
    (isCorrectOf env challenge req) (solverAddressOf r) computeTimeMs
    (CallbackRequest.Metadata req) (now env).

(** The audit record of a request: the hash is that of the callback request
    marshalled again, and of no bytes when that fails. *)
Definition auditOf (env : Env) (r : Request) (req : CallbackRequest.t) : WebhookAudit.t :=
  let challengeID := default EmptyString (Vars r !! "challenge_id") in
  let requestID := Header_Get (Hdr r) "X-Request-ID" in
  let bodyBytes := default EmptyString (MarshalCallbackRequest env req) in
  let bodyHash := Sum256 (bytes_of_string bodyBytes) in
  WebhookAudit.mk 0 challengeID requestID (serializeHeaders (Hdr r))
    (EncodeToString bodyHash) StatusOK (now env).

(** What happens after the result is stored: the upload to Sui for a new
    successful result, the log entry, and the response. *)
Definition afterSave (env : Env) (r : Request) (req : CallbackRequest.t)
    (result : Result.t) (isDuplicate : bool) : list Effect * Response :=
  let challengeID := default EmptyString (Vars r !! "challenge_id") in
  let requestID := Header_Get (Hdr r) "X-Request-ID" in
  let fallback := challengeID +++ ":" +++ requestID in
  let '(sui, commitmentID) :=
    match suiTxBuilder env with
    | Some upload =>
        if negb isDuplicate && String.eqb (CallbackRequest.Status req) "success" then
          ([SuiUpload challengeID; VaultAddBounty], default fallback (upload result))
        else ([], fallback)
    | None => ([], fallback)
    end in
  match MarshalResult env result with
  | None =>
      (sui, writeError StatusInternalServerError "DB_ERROR" "Failed to marshal result" requestID)
  | Some b =>
      ((sui ++ [LogUpload commitmentID b (Result.SolverAddress result)])%list,
       writeCallbackResponse challengeID isDuplicate)
  end.

(** [json.NewDecoder(r.Body).Decode(&callbackReq)]: the decoder reads the
    body, and fails when reading fails. *)
Definition decodeBody (env : Env) (r : Request) : option CallbackRequest.t :=
  match ReadAll (Body r) with
  | (content, None) => DecodeCallbackRequest env content
  | (_, Some _) => None
  end.

Definition HandleCallback (env : Env) (db : ChallengerDB.t) (r : Request)
  : ChallengerDB.t * list Effect * Response :=
  let challengeID := default EmptyString (Vars r !! "challenge_id") in
  let requestID := Header_Get (Hdr r) "X-Request-ID" in
  match decodeBody env r with
  | None =>
      (db, [], writeError StatusBadRequest "INVALID_JSON" "Invalid JSON body" requestID)
  | Some callbackReq =>
      if negb (String.eqb (CallbackRequest.ChallengeID callbackReq) challengeID) then
        (db, [], writeError StatusBadRequest "CHALLENGE_ID_MISMATCH"
                   "Challenge ID in body does not match URL" requestID)
      else
        match GetChallenge (io_GetChallenge env) db challengeID with
        | inl _ =>
            (db, [], writeError StatusNotFound "CHALLENGE_NOT_FOUND"
                       "Challenge not found" requestID)
        | inr challenge =>
            let result := resultOf env r challenge callbackReq in
            match SaveResultWithDuplicateCheck (io_SaveResult env) db result with
            | (db, inl _) =>
                (db, [], writeError StatusInternalServerError "DB_ERROR"
                           "Failed to save result" requestID)
            | (db, inr wasInserted) =>
                let isDuplicate := negb wasInserted in
                let db :=
                  if negb isDuplicate then
                    fst (SaveWebhookAudit (io_SaveWebhookAudit env) db
                           (auditOf env r callbackReq))
                  else db in
                let '(effects, resp) := afterSave env r callbackReq result isDuplicate in
                (db, effects, resp)
            end
        end
  end.

End Challenger.

(** ** pkg/db/solver.go: the table [pending_challenges], keyed by [id] *)

Module SolverDB.
Import ChallengerDB.

Abbreviation t := (gmap string PendingChallenge.t).

(** [UpdateChallengeStatus]: an [UPDATE ... WHERE id = ?]. *)
Definition UpdateChallengeStatus (io : DriverOutcome) (db : t)
    (id status : string) (attemptCount nextRetryTime : Z) : t * option DBError :=
  match io with
  | DriverFails => (db, Some ErrDriver)
  | DriverOK =>
      (match db !! id with
       | None => db
       | Some c =>
           <[ id := PendingChallenge.mk (PendingChallenge.ID c) (PendingChallenge.Problem c)
                      (PendingChallenge.OutputSpec c) (PendingChallenge.CallbackURL c)
                      (PendingChallenge.ReceivedAt c) status attemptCount nextRetryTime ]> db
       end, None)
  end.

(** [DeleteChallenge]: a [DELETE ... WHERE id = ?]. *)
Definition DeleteChallenge (io : DriverOutcome) (db : t) (id : string) : t * option DBError :=
  match io with
  | DriverFails => (db, Some ErrDriver)
  | DriverOK => (delete id db, None)
  end.

End SolverDB.

(** ** internal/solver/service.go and internal/solver/worker.go *)

Module Solver.
Import GoStrings GoNum Http Auth ChallengerDB.
Local Open Scope Z_scope.

Definition MaxRetryAttempts : Z := 6.
Definition BaseDelay : Z := 500 * Millisecond.
Definition MaxDelay : Z := 30 * Second.
(** The constants [JitterMin] and [JitterMax - JitterMin] as [float64]. *)
Definition JitterMin : spec_float := fdiv (float64_of_int 85) (float64_of_int 100).
Definition JitterSpan : spec_float := fdiv (float64_of_int 30) (float64_of_int 100).

Record Config := mkConfig {
  ChalHMACKeyID : string;
  SolverMnemonic : string
}.

(** A request as [http.NewRequest] and the calls of [Header.Set] make it. *)
Record OutRequest := mkOutRequest {
  out_Method : string;
  out_URL : string;
  out_Header : Header;
  out_Body : string
}.

Inductive SendError :=
| ErrMarshal          (* "failed to marshal callback request" *)
| ErrAuthHeader       (* "failed to create auth header" *)
| ErrNewRequest       (* "failed to create request" *)
| ErrTransport.       (* "failed to send request" *)

(** What surrounds one call of [SendCallback]: the clock, the two UUIDs,
    [json.Marshal], whether [http.NewRequest] accepts the URL, the address of
    the signer made from the mnemonic ([None] when that fails), and what the
    HTTP client comes back with: a status code, or [None] for an error of the
    transport. *)
Record SendEnv := mkSendEnv {
  clock : Z;
  nonceUUID : string;
  requestUUID : string;
  MarshalCallbackRequest : CallbackRequest.t -> option string;
  NewRequestOK : string -> bool;
  signerAddress : string -> option string;
  clientDo : OutRequest -> option Z
}.

(** A call returns, or panics. *)
Inductive Returned (A : Type) :=
| Panics
| Returns (a : A).
Arguments Panics {A}.
Arguments Returns {A} a.

(** [SendCallback]: the requests handed to the HTTP client, and the pair
    [(int, error)]. *)
Definition SendCallback (cfg : Config) (hmacAuth : Auth.HMACAuth) (env : SendEnv)
    (callbackURL : string) (callbackReq : CallbackRequest.t)
  : list OutRequest * Returned (Z * option SendError) :=
  match MarshalCallbackRequest env callbackReq with
  | None => ([], Returns (0, Some ErrMarshal))
  | Some body =>
      let nonce := nonceUUID env in
      let callbackPath := "/callback/" +++ CallbackRequest.ChallengeID callbackReq in
      let authHeader :=
        CreateAuthHeader hmacAuth (clock env) "POST" callbackPath body
          (ChalHMACKeyID cfg) nonce in
      if String.eqb authHeader "" then ([], Returns (0, Some ErrAuthHeader))
      else if negb (NewRequestOK env callbackURL) then ([], Returns (0, Some ErrNewRequest))
      else
        let h := Header_Set ∅ "Content-Type" "application/json" in
        let h := Header_Set h "Authorization" authHeader in
        let h := Header_Set h "X-Request-ID" (requestUUID env) in
        match signerAddress env (SolverMnemonic cfg) with
        | None => ([], Panics)
        | Some address =>
            let h := Header_Set h "X-Solver-Address" address in
            let req := mkOutRequest "POST" callbackURL h body in
            match clientDo env req with
            | None => ([req], Returns (0, Some ErrTransport))
            | Some statusCode => ([req], Returns (statusCode, None))
            end
        end
  end.

(** [shouldRetry]; [err] is whether the error is not [nil]. *)
Definition shouldRetry (statusCode : Z) (err : bool) : bool :=
  if err then true
  else if statusCode =? 429 then true
  else if statusCode >=? 500 then true
  else if (statusCode >=? 400) && (statusCode <? 500) then false
  else false.

(** [math.Pow(2, float64(attempt))] for [0 <= attempt < 1024]: the power of
    two itself. *)
Definition Pow2 (attempt : Z) : spec_float := S754_finite false (2 ^ 52) (attempt - 52).

(** [calculateBackoffDelay]; [r] is the value of [rand.Float64()]. *)
Definition calculateBackoffDelay (attempt : Z) (r : spec_float) : Z :=
  let delay := wrap64 (BaseDelay * int64_of_float (Pow2 attempt)) in
  let delay := if delay >? MaxDelay then MaxDelay else delay in
  let jitter := fadd JitterMin (fmul r JitterSpan) in
  int64_of_float (fmul (float64_of_int delay) jitter).

(** What surrounds the retry loop: for every attempt (counted from 0) the
    surroundings of [SendCallback], the value of [rand.Float64()], the clock
    and the driver's behaviour for the update of the retry state. *)
Record RetryEnv := mkRetryEnv {
  sendEnv : nat -> SendEnv;
  randFloat64 : nat -> spec_float;
  retryClock : nat -> Z;
  io_retryUpdate : nat -> DriverOutcome
}.

Inductive Event :=
| Sent (req : OutRequest)
| Slept (delay : Z).

Definition is_Sent (e : Event) : bool :=
  match e with
  | Sent _ => true
  | Slept _ => false
  end.

(** The number of requests handed to the HTTP client. *)
Definition attempts (events : list Event) : nat :=
  List.length (List.filter is_Sent events).

Inductive RetryError :=
| ErrNonRetryable (statusCode : Z) (err : option SendError)
| ErrAfterAttempts.    (* "callback failed after 6 attempts" *)

(** The loop of [sendCallbackWithRetry] from attempt [attempt] on, with
    [remaining] iterations to go. *)
Fixpoint retryLoop (cfg : Config) (hmacAuth : Auth.HMACAuth) (env : RetryEnv)
    (challenge : PendingChallenge.t) (callbackReq : CallbackRequest.t)
    (remaining attempt : nat) (db : SolverDB.t)
  : SolverDB.t * list Event * Returned (option RetryError) :=
  match remaining with
  | O => (db, [], Returns (Some ErrAfterAttempts))
  | S remaining' =>
      let '(sent, ret) :=
        SendCallback cfg hmacAuth (sendEnv env attempt)
          (PendingChallenge.CallbackURL challenge) callbackReq in
      let events := List.map Sent sent in
      match ret with
      | Panics => (db, events, Panics)
      | Returns (statusCode, err) =>
          if match err with None => true | Some _ => false end
             && (statusCode >=? 200) && (statusCode <? 300)
          then (db, events, Returns None)
          else if negb (shouldRetry statusCode (match err with None => false | Some _ => true end))
          then (db, events, Returns (Some (ErrNonRetryable statusCode err)))
          else if Z.of_nat attempt =? MaxRetryAttempts - 1
          then (db, events, Returns (Some ErrAfterAttempts))
          else
            let delay := calculateBackoffDelay (Z.of_nat attempt) (randFloat64 env attempt) in
            let nextRetryTime := retryClock env attempt + delay in
            let db := fst (SolverDB.UpdateChallengeStatus (io_retryUpdate env attempt) db
                             (PendingChallenge.ID challenge) "processing"
                             (Z.of_nat attempt + 1) nextRetryTime) in
            let '(db, later, ret) :=
              retryLoop cfg hmacAuth env challenge callbackReq remaining' (S attempt) db in
            (db, (events ++ [Slept delay] ++ later)%list, ret)
      end
  end.

Definition sendCallbackWithRetry (cfg : Config) (hmacAuth : Auth.HMACAuth) (env : RetryEnv)
    (challenge : PendingChallenge.t) (callbackReq : CallbackRequest.t) (db : SolverDB.t)
  : SolverDB.t * list Event * Returned (option RetryError) :=
  retryLoop cfg hmacAuth env challenge callbackReq (Z.to_nat MaxRetryAttempts) 0%nat db.

(** What surrounds [processChallenge]: the outcome of [solveChallenge]
    (the answer and the metadata, or the metadata and an error message), the
    clock and the driver's behaviour for the statements outside the loop. *)
Record WorkerEnv := mkWorkerEnv {
  retryEnv : RetryEnv;
  solveChallenge : PendingChallenge.t -> (string * option string) + (option string * string);
  workerClock : Z;
  io_markProcessing : DriverOutcome;
  io_finish : DriverOutcome
}.

Definition callbackRequestOf (env : WorkerEnv) (challenge : PendingChallenge.t)
  : CallbackRequest.t :=
  let id := PendingChallenge.ID challenge in
  match solveChallenge env challenge with
  | inr (metadata, message) =>
      CallbackRequest.mk "v2.1" id ("solver_job_" +++ id) "failed" "" "SOLVER_ERROR"
        message metadata
  | inl (answer, metadata) =>
      CallbackRequest.mk "v2.1" id ("solver_job_" +++ id) "success" answer "" "" metadata
  end.

Definition processChallenge (cfg : Config) (hmacAuth : Auth.HMACAuth) (env : WorkerEnv)
    (challenge : PendingChallenge.t) (db : SolverDB.t)
  : SolverDB.t * list Event * Returned unit :=
  let id := PendingChallenge.ID challenge in
  match SolverDB.UpdateChallengeStatus (io_markProcessing env) db id "processing"
          (PendingChallenge.AttemptCount challenge) (workerClock env) with
  | (db, Some _) => (db, [], Returns tt)
  | (db, None) =>
      let callbackReq := callbackRequestOf env challenge in
      match sendCallbackWithRetry cfg hmacAuth (retryEnv env) challenge callbackReq db with
      | (db, events, Panics) => (db, events, Panics)
      | (db, events, Returns (Some _)) =>
          (fst (SolverDB.UpdateChallengeStatus (io_finish env) db id "failed"
                  MaxRetryAttempts (workerClock env)), events, Returns tt)
      | (db, events, Returns None) =>
          (fst (SolverDB.DeleteChallenge (io_finish env) db id), events, Returns tt)
      end
  end.

End Solver.

(** ** The ways through the callback receiver *)

Module ChallengerSpec.
Import GoStrings Crypto Http ChallengerDB Challenger.
Local Open Scope Z_scope.

(** The six ways through [HandleCallback]. *)
Inductive Way (env : Env) (db : ChallengerDB.t) (r : Request)
  : ChallengerDB.t * list Effect * Response -> Prop :=
| way_invalid_json :
    decodeBody env r = None ->
    Way env db r
      (db, [], writeError StatusBadRequest "INVALID_JSON" "Invalid JSON body"
                 (Header_Get (Hdr r) "X-Request-ID"))
| way_mismatch req :
    decodeBody env r = Some req ->
    CallbackRequest.ChallengeID req <> default EmptyString (Vars r !! "challenge_id") ->
    Way env db r
      (db, [], writeError StatusBadRequest "CHALLENGE_ID_MISMATCH"
                 "Challenge ID in body does not match URL"
                 (Header_Get (Hdr r) "X-Request-ID"))
| way_not_found req e :
    decodeBody env r = Some req ->
    CallbackRequest.ChallengeID req = default EmptyString (Vars r !! "challenge_id") ->
    GetChallenge (io_GetChallenge env) db (default EmptyString (Vars r !! "challenge_id")) = inl e ->
    Way env db r
      (db, [], writeError StatusNotFound "CHALLENGE_NOT_FOUND" "Challenge not found"
                 (Header_Get (Hdr r) "X-Request-ID"))
| way_save_fails req challenge :
    decodeBody env r = Some req ->
    CallbackRequest.ChallengeID req = default EmptyString (Vars r !! "challenge_id") ->
    GetChallenge (io_GetChallenge env) db (default EmptyString (Vars r !! "challenge_id"))
      = inr challenge ->
    io_SaveResult env = DriverFails ->
    Way env db r
      (db, [], writeError StatusInternalServerError "DB_ERROR" "Failed to save result"
                 (Header_Get (Hdr r) "X-Request-ID"))
| way_duplicate req challenge :
    decodeBody env r = Some req ->
    CallbackRequest.ChallengeID req = default EmptyString (Vars r !! "challenge_id") ->
    GetChallenge (io_GetChallenge env) db (default EmptyString (Vars r !! "challenge_id"))
      = inr challenge ->
    io_SaveResult env = DriverOK ->
    key_taken db (resultOf env r challenge req) = true ->
    Way env db r
      (db, fst (afterSave env r req (resultOf env r challenge req) true),
           snd (afterSave env r req (resultOf env r challenge req) true))
| way_inserted req challenge :
    decodeBody env r = Some req ->
    CallbackRequest.ChallengeID req = default EmptyString (Vars r !! "challenge_id") ->
    GetChallenge (io_GetChallenge env) db (default EmptyString (Vars r !! "challenge_id"))
      = inr challenge ->
    io_SaveResult env = DriverOK ->
    key_taken db (resultOf env r challenge req) = false ->
    Way env db r
      (fst (SaveWebhookAudit (io_SaveWebhookAudit env)
              (insert_result db (resultOf env r challenge req)) (auditOf env r req)),
       fst (afterSave env r req (resultOf env r challenge req) false),
       snd (afterSave env r req (resultOf env r challenge req) false)).

(** The audit row of a request whose body decodes to [req]. *)
Definition audit_row (env : Env) (db : ChallengerDB.t) (r : Request)
    (req : CallbackRequest.t) : WebhookAudit.t :=
  WebhookAudit.mk (webhooks_seq db + 1)
    (default "" (Vars r !! "challenge_id")) (Header_Get (Hdr r) "X-Request-ID")
    (serializeHeaders (Hdr r))
    (EncodeToString
       (Sum256 (bytes_of_string (default "" (MarshalCallbackRequest env req)))))
    StatusOK (now env).

End ChallengerSpec.

(** ** A concrete exchange

    The callback of a solved problem [ch_m1], as the bytes on the wire and as
    the values that Go's JSON functions make of them.  The decoder and the
    encoder of the surroundings are given by their values on these
    documents: [json.Marshal] writes the fields of the struct in their order,
    without spaces, and leaves out the empty [omitempty] fields; the decoder
    reads the same document with or without spaces between the tokens. *)

Module Scenario.
Import GoStrings GoNum Http Auth ChallengerDB.
Local Open Scope Z_scope.

Definition DQ : string := String (ascii_of_nat 34) EmptyString.
Definition quoted (s : string) : string := DQ +++ s +++ DQ.

(** A JSON object with string members, with [colon] after a name and
    [comma] between the members. *)
Definition json_object (colon comma : string) (members : list (string * string)) : string :=
  "{" +++ Join (List.map (fun m => quoted (fst m) +++ colon +++ quoted (snd m)) members) comma
      +++ "}".

Definition omitempty (name value : string) : list (string * string) :=
  if String.eqb value "" then [] else [(name, value)].

(** The members that [json.Marshal] writes for a callback request whose
    texts need no escaping and whose metadata is absent. *)
Definition members (req : CallbackRequest.t) : list (string * string) :=
  ([ ("api_version", CallbackRequest.APIVersion req);
     ("challenge_id", CallbackRequest.ChallengeID req);
     ("solver_job_id", CallbackRequest.SolverJobID req);
     ("status", CallbackRequest.Status req) ]
   ++ omitempty "answer" (CallbackRequest.Answer req)
   ++ omitempty "error_code" (CallbackRequest.ErrorCode req)
   ++ omitempty "error_message" (CallbackRequest.ErrorMessage req))%list.

Definition marshalPlain (req : CallbackRequest.t) : option string :=
  match CallbackRequest.Metadata req with
  | None => Some (json_object ":" "," (members req))
  | Some _ => None
  end.

Definition callback0 : CallbackRequest.t :=
  CallbackRequest.mk "v2.1" "ch_m1" "solver_job_ch_m1" "success" "39.80" "" "" None.

(** The document as [json.Marshal] writes it, and the same with a space
    after every colon and comma, as other encoders write it. *)
Definition body_compact : string := json_object ":" "," (members callback0).
Definition body_spaced : string := json_object ": " ", " (members callback0).

Definition decode0 (body : string) : option CallbackRequest.t :=
  if String.eqb body body_compact || String.eqb body body_spaced then Some callback0
  else None.

(** The double nearest to [n / 100], which is what [strconv.ParseFloat] gives
    for a decimal with two places. *)
Definition hundredths (n : Z) : spec_float := fdiv (float64_of_int n) (float64_of_int 100).

Definition parseFloat0 (s : string) : option spec_float :=
  if String.eqb s "39.80" then Some (hundredths 3980)
  else if String.eqb s "39.81" then Some (hundredths 3981)
  else if String.eqb s "39.82" then Some (hundredths 3982)
  else None.

Definition tolerance_params : string := json_object ":" "," [] .

Definition lib0 : Validator.Lib :=
  Validator.mkLib parseFloat0
    (fun _ preset => Some preset)
    (fun _ => Some (hundredths 1))
    (fun _ => None)
    String.eqb
    (fun _ _ => None).

(** The same library for a rule with the tolerance zero. *)
Definition lib_zero : Validator.Lib :=
  Validator.mkLib parseFloat0
    (fun _ preset => Some preset)
    (fun _ => Some (S754_zero false))
    (fun _ => None)
    String.eqb
    (fun _ _ => None).

(** Scenario 1 of the specification: the rule of [ch_m1]. *)
Definition rule0 : ValidationRule.t :=
  ValidationRule.mk "NumericTolerance" (Some tolerance_params) "39.80".

Definition challenge0 : Challenge.t :=
  Challenge.mk "ch_m1" "math" "{}" "{}" rule0 1700000000.

Definition db0 : ChallengerDB.t :=
  ChallengerDB.mk [challenge0] [] 0 [] 0 [].

Definition env0 : Challenger.Env :=
  Challenger.mkEnv 1700000100 decode0 marshalPlain (fun _ => None) (fun _ => Some "{}")
    lib0 DriverOK DriverOK DriverOK None.

(** The same surroundings with a store that fails on the lookup of the
    problem. *)
Definition env_lookup_fails : Challenger.Env :=
  Challenger.mkEnv 1700000100 decode0 marshalPlain (fun _ => None) (fun _ => Some "{}")
    lib0 DriverFails DriverOK DriverOK None.

Definition env_save_fails : Challenger.Env :=
  Challenger.mkEnv 1700000100 decode0 marshalPlain (fun _ => None) (fun _ => Some "{}")
    lib0 DriverOK DriverFails DriverOK None.

Definition headers0 : Header :=
  Header_Set (Header_Set ∅ "Content-Type" "application/json") "X-Request-ID" "req-1".

(** The request for [ch_m1] as the handler receives it. *)
Definition request0 (h : Header) (body : string) : Request :=
  mkRequest "POST" "/callback/ch_m1" h (Bytes body) "192.0.2.7:51034"
    {[ "challenge_id" := "ch_m1" ]}.

(** A result of the callback for [ch_m1]. *)
Definition result1 : Result.t :=
  Result.mk 0 "ch_m1" "req-1" "solver_job_ch_m1" "success" "39.80" true "0x51e7a3f2" 12 None
    1700000100.

(** The sender's side. *)
Definition solver_cfg : Solver.Config := Solver.mkConfig "chal-key" "abandon ability able".

Definition solver_auth : HMACAuth := NewHMACAuth {[ "chal-key" := "chal-secret" ]} 0.

Definition solver_address : string := "0x51e7a3f2".

(** Surroundings in which every attempt gets the status [status]. *)
Definition sendEnv0 (status : Z) (attempt : nat) : Solver.SendEnv :=
  Solver.mkSendEnv (1700000000 + Z.of_nat attempt)
    ("nonce-" +++ FormatInt (Z.of_nat attempt))
    ("req-" +++ FormatInt (Z.of_nat attempt))
    marshalPlain (fun _ => true) (fun _ => Some solver_address) (fun _ => Some status).

(** [rand.Float64()] gives one half every time. *)
Definition half : spec_float := fdiv (float64_of_int 1) (float64_of_int 2).

Definition retryEnv0 (status : Z) : Solver.RetryEnv :=
  Solver.mkRetryEnv (sendEnv0 status) (fun _ => half)
    (fun attempt => 1700000000 + Z.of_nat attempt) (fun _ => DriverOK).

Definition pending0 : PendingChallenge.t :=
  PendingChallenge.mk "ch_m1" "{}" "{}" "http://localhost:8080/callback/ch_m1"
    1700000000 "pending" 0 1700000000.

Definition solverdb0 : SolverDB.t := {[ "ch_m1" := pending0 ]}.

End Scenario.

(** ** Vocabulary of the statements about the result store *)

Module StoreSpec.
Import ChallengerDB.

(** The rows stored under the key [(challengeID, requestID)]. *)
Definition rows_of (db : ChallengerDB.t) (challengeID requestID : string) : list ResultRow.t :=
  List.filter (has_key challengeID requestID) (results db).

(** For every key there is at most one row. *)
Definition at_most_one_row (db : ChallengerDB.t) : Prop :=
  forall challengeID requestID,
    (List.length (rows_of db challengeID requestID) <= 1)%nat.

(** The calls that change the store. *)
Inductive Call :=
| CallSaveResult (io : DriverOutcome) (result : Result.t)
| CallSaveResultWithDuplicateCheck (io : DriverOutcome) (result : Result.t)
| CallSaveWebhookAudit (io : DriverOutcome) (audit : WebhookAudit.t)
| CallSaveNonce (io : DriverOutcome) (nonce : string) (now : Z).

Definition run_call (db : ChallengerDB.t) (c : Call) : ChallengerDB.t :=
  match c with
  | CallSaveResult io result => fst (SaveResult io db result)
  | CallSaveResultWithDuplicateCheck io result => fst (SaveResultWithDuplicateCheck io db result)
  | CallSaveWebhookAudit io audit => fst (SaveWebhookAudit io db audit)
  | CallSaveNonce io nonce now => fst (SaveNonce io db nonce now)
  end.

Definition run_calls (db : ChallengerDB.t) (calls : list Call) : ChallengerDB.t :=
  List.fold_left run_call calls db.

End StoreSpec.

(** ** Further requests of the exchange *)

Module Scenario2.
Import GoStrings GoNum Http Auth ChallengerDB Scenario.
Local Open Scope Z_scope.

(** A callback that names its sender in [X-Solver-Identity]. *)
Definition headers_identity : Header :=
  Header_Set headers0 "X-Solver-Identity" "solver-A".

(** A callback that names its sender in [X-Solver-Address]. *)
Definition headers_address : Header :=
  Header_Set headers0 "X-Solver-Address" solver_address.

(** The placeholder for a peer address of fifteen bytes. *)
Definition placeholder15 : string := "0x000000000000000000000000000000000000000f".

Definition callback_url : string := "http://localhost:8080/callback/ch_m1".

End Scenario2.

(** ** Bodies at the size limit *)

Module Scenario3.
Import GoStrings GoNum Http Auth ChallengerDB Middleware Scenario.
Local Open Scope Z_scope.

Fixpoint repeat_byte (n : nat) (c : ascii) : string :=
  match n with
  | O => EmptyString
  | S n' => String c (repeat_byte n' c)
  end.

(** A body of exactly 5 MiB, and one of a byte more. *)
Definition body_at_limit : string := repeat_byte (Z.to_nat MaxRequestSize) "a".
Definition body_over_limit : string := repeat_byte (Z.to_nat (MaxRequestSize + 1)) "a".

Definition headers_signed : Header :=
  Header_Set headers0 "Authorization"
    "RCS-HMAC-SHA256 keyId=chal-key,ts=1700000000,nonce=n-1,sig=00ff".

Definition nonce_io : NonceIO := mkNonceIO DriverOK DriverOK.

End Scenario3.

(** ** Values for the statements about the signing primitive *)

Module AuthScenario.
Import GoStrings GoNum Auth AuthSpec.
Local Open Scope Z_scope.

(** A verifier with a tolerance of 300 s, its clock, and a request signed
    with the timestamp [now0 - 2^63]. *)
Definition skew_auth : HMACAuth := NewHMACAuth {[ "key-1" := "secret-1" ]} (300 * Second).
Definition now0 : Z := 1700000000.
Definition ts0 : string := "-9223372035154775808".
Definition auth0 : AuthHeader :=
  mkAuthHeader "key-1" ts0 "n-1"
    (ComputeSignature "POST" "/callback/ch_1" "{}" ts0 "n-1" "secret-1").

(** The header of the parser's test, and the same with a nonce that begins
    with a space. *)
Definition h_test : AuthHeader :=
  mkAuthHeader "test-key" "1640995200" "test-nonce" "abcd1234".

Definition h_spaced : AuthHeader :=
  mkAuthHeader "test-key" "1640995200" " test-nonce" "abcd1234".

Definition auth_test : HMACAuth := NewHMACAuth {[ "test-key" := "test-secret" ]} 0.

(** U+00A0, the no-break space, in UTF-8. *)
Definition nbsp : string := String (of_byte 194) (String (of_byte 160) EmptyString).

(** The fields of [h_test] in reverse order, with whitespace around names
    and values. *)
Definition pairs_test : list Pair :=
  [ mkPair " " "sig" nbsp "  " "abcd1234" " ";
    mkPair "" "nonce" "" " " "test-nonce" "";
    mkPair nbsp "ts" " " "" "1640995200" "";
    mkPair "" "keyId" "" "" "test-key" " " ].

(** A solver whose secrets lack the key id that it is to sign callbacks
    with. *)
Definition nokey_cfg : Solver.Config := Solver.mkConfig "chal-key" "abandon ability able".
Definition nokey_auth : HMACAuth := NewHMACAuth {[ "solver-key" := "solver-secret" ]} 0.

End AuthScenario.

(** * Further parts of the sources *)

(** ** pkg/auth/hmac.go: the secrets of an authenticator

    [AddSecret] assigns into the map that the authenticator holds; the
    authenticator after the call is returned here. *)

Module Secrets.
Import Auth.

Definition AddSecret (h : HMACAuth) (keyID secret : string) : HMACAuth :=
  mkHMACAuth (<[ keyID := secret ]> (secrets h)) (clockSkew h).

(** [GetSecret]: the secret and whether the key exists; the zero value of a
    string is the empty string. *)
Definition GetSecret (h : HMACAuth) (keyID : string) : string * bool :=
  match secrets h !! keyID with
  | Some secret => (secret, true)
  | None => (EmptyString, false)
  end.

End Secrets.

(** ** Vocabulary of the statements about signed requests *)

Module SignSpec.
Import GoStrings Auth AuthSpec.
Local Open Scope Z_scope.

Fixpoint all_bytes (p : ascii -> bool) (s : string) : bool :=
  match s with
  | EmptyString => true
  | String c s' => p c && all_bytes p s'
  end.

(** A visible ASCII byte other than [','] and ['=']. *)
Definition token_byte (c : ascii) : bool :=
  (32 <? byte c) && (byte c <? 127)
  && negb (Ascii.eqb c ",") && negb (Ascii.eqb c "=").

(** A field value that the header carries unchanged: present, free of [',']
    and ['='], and without whitespace at either end. *)
Definition field_ok (v : string) : bool := plain_value v && trimmed v.

End SignSpec.

(** ** A signed callback *)

Module Scenario4.
Import GoStrings GoNum Http Auth ChallengerDB Middleware Scenario Scenario3.
Local Open Scope Z_scope.

(** The request for [ch_m1] with the header that the solver makes for it at
    1700000000 with the nonce [n-1]. *)
Definition request_signed : Request :=
  request0
    (Header_Set headers0 "Authorization"
       (CreateAuthHeader solver_auth 1700000000 "POST" "/callback/ch_m1" body_compact
          "chal-key" "n-1"))
    body_compact.

(** The request that a middleware hands on, and [r] when it answers
    itself. *)
Definition passed (o : Outcome) (r : Request) : Request :=
  match o with
  | Next r' => r'
  | Answered _ => r
  end.



End Scenario4.

(** ** A rule with a tolerance below zero *)

Module Scenario5.
Import GoNum Scenario.

(** The library of [lib0] for parameters that decode to the tolerance -1. *)
Definition lib_negative : Validator.Lib :=
  Validator.mkLib parseFloat0
    (fun _ preset => Some preset)
    (fun _ => Some (S754_finite true 1 0))
    (fun _ => None)
    String.eqb
    (fun _ _ => None).

End Scenario5.

(** ** A worker at work on [ch_m1] *)

Module Scenario6.
Import GoStrings GoNum Http Auth ChallengerDB Scenario.
Local Open Scope Z_scope.

(** A worker whose solver finds the answer 39.80 and whose callback target
    answers every request with [status]. *)
Definition workerEnv0 (status : Z) : Solver.WorkerEnv :=
  Solver.mkWorkerEnv (retryEnv0 status) (fun _ => inl ("39.80", None)) 1700000000
    DriverOK DriverOK.

End Scenario6.

(** ** Vocabulary of the statements about the retry loop *)

Module RetrySpec.
Import Solver.

(** The number of pauses among the events of a delivery. *)
Definition sleeps (events : list Event) : nat :=
  List.length (List.filter (fun e => negb (is_Sent e)) events).

End RetrySpec.

(** ** pkg/config: the secrets and the tolerance of a configuration

    Of [Config] the fields that [validate] and the getters below read. *)

Module Config.
Import GoStrings GoNum.
Local Open Scope Z_scope.

Record t := mk {
  ChallengerHost : string;
  ChallengerPort : string;
  UseNgrok : bool;
  PublicCallbackHost : string;
  ChalHMACKeyID : string;
  ChalHMACSecret : string;
  SolverHost : string;
  SolverPort : string;
  SolverHMACKeyID : string;
  SolverHMACSecret : string;
  SharedSecretKey : string;
  ClockSkewSeconds : Z
}.

Inductive ConfigError :=
| ErrNoSecret            (* "either SHARED_SECRET_KEY or both ... must be set" *)
| ErrNoCallbackHost.     (* "PUBLIC_CALLBACK_HOST must be set when USE_NGROK=true" *)

Definition with_PublicCallbackHost (c : t) (host : string) : t :=
  mk (ChallengerHost c) (ChallengerPort c) (UseNgrok c) host (ChalHMACKeyID c)
     (ChalHMACSecret c) (SolverHost c) (SolverPort c) (SolverHMACKeyID c)
     (SolverHMACSecret c) (SharedSecretKey c) (ClockSkewSeconds c).

(** [validate] assigns the callback host of a local set-up; the
    configuration after the call is returned with the error. *)
Definition validate (c : t) : t * option ConfigError :=
  if String.eqb (SharedSecretKey c) ""
     && (String.eqb (ChalHMACSecret c) "" || String.eqb (SolverHMACSecret c) "")
  then (c, Some ErrNoSecret)
  else if String.eqb (PublicCallbackHost c) "" then
    if UseNgrok c then (c, Some ErrNoCallbackHost)
    else (with_PublicCallbackHost c ("http://localhost:" +++ ChallengerPort c), None)
  else (c, None).

Definition GetChallengerAddr (c : t) : string := ChallengerHost c +++ ":" +++ ChallengerPort c.
Definition GetSolverAddr (c : t) : string := SolverHost c +++ ":" +++ SolverPort c.

(** [time.Duration(c.ClockSkewSeconds) * time.Second], an [int64] product. *)
Definition GetClockSkew (c : t) : Z := wrap64 (ClockSkewSeconds c * Second).

Definition GetChallengerSecrets (c : t) : gmap string string :=
  if negb (String.eqb (SharedSecretKey c) "") then
    <[ SolverHMACKeyID c := SharedSecretKey c ]>
      (<[ ChalHMACKeyID c := SharedSecretKey c ]> ∅)
  else
    let secrets :=
      if negb (String.eqb (ChalHMACSecret c) "")
      then <[ ChalHMACKeyID c := ChalHMACSecret c ]> ∅ else ∅ in
    if negb (String.eqb (SolverHMACSecret c) "")
    then <[ SolverHMACKeyID c := SolverHMACSecret c ]> secrets else secrets.

Definition GetSolverSecrets (c : t) : gmap string string :=
  if negb (String.eqb (SharedSecretKey c) "") then
    <[ SolverHMACKeyID c := SharedSecretKey c ]>
      (<[ ChalHMACKeyID c := SharedSecretKey c ]> ∅)
  else
    let secrets :=
      if negb (String.eqb (ChalHMACSecret c) "")
      then <[ ChalHMACKeyID c := ChalHMACSecret c ]> ∅ else ∅ in
    if negb (String.eqb (SolverHMACSecret c) "")
    then <[ SolverHMACKeyID c := SolverHMACSecret c ]> secrets else secrets.

End Config.

Module Scenario7.
Local Open Scope Z_scope.

(** A local set-up with a secret for each side and no tolerance given. *)
Definition config0 : Config.t :=
  Config.mk "0.0.0.0" "8080" false "" "chal-kid-1" "chal-secret" "0.0.0.0" "8081"
    "solver-kid-1" "solver-secret" "" 0.

End Scenario7.

(** * Properties *)

Module GoStringsExamples.
Import GoStrings.

Example Split_example :
  Split "a,b,,c" "," = ["a"; "b"; ""; "c"] /\ Split "" "," = [""].
Proof. split; reflexivity. Qed.

Example SplitN2_example :
  SplitN2 "sig=ab=cd" "=" = ["sig"; "ab=cd"] /\ SplitN2 "nosep" "=" = ["nosep"].
Proof. split; reflexivity. Qed.

Example TrimSpace_example :
  TrimSpace (String (of_byte 9) (" a b " +++ String (of_byte 194) (String (of_byte 160) "")))
  = "a b".
Proof. reflexivity. Qed.

Example ParseInt_example :
  ParseInt "-9223372036854775808" = Some minInt64 /\
  ParseInt "9223372036854775808" = None /\
  ParseInt "+12" = Some 12%Z /\ ParseInt "1_0" = None /\ ParseInt "-" = None.
Proof. repeat split; reflexivity. Qed.

Example FormatInt_example :
  FormatInt 1640995200 = "1640995200" /\ FormatInt (-45) = "-45" /\ FormatInt 0 = "0".
Proof. repeat split; reflexivity. Qed.
End GoStringsExamples.

Module CryptoExamples.
Import Crypto.

Example Sum256_empty :
  EncodeToString (Sum256 (bytes_of_string "")) =
  "e3b0c44298fc1c149afbf4c8996fb92427ae41e4649b934ca495991b7852b855".
Proof. vm_compute. reflexivity. Qed.

Example Sum256_abc :
  EncodeToString (Sum256 (bytes_of_string "abc")) =
  "ba7816bf8f01cfea414140de5dae2223b00361a396177a9cb410ff61f20015ad".
Proof. vm_compute. reflexivity. Qed.

Example Sum256_two_blocks :
  EncodeToString
    (Sum256 (bytes_of_string "abcdbcdecdefdefgefghfghighijhijkijkljklmklmnlmnomnopnopq")) =
  "248d6a61d20638b8e5c026930c3e6039a33ce45964ff2167f6ecedd419db06c1".
Proof. vm_compute. reflexivity. Qed.

Example hmac_sha256_rfc4231_case2 :
  EncodeToString
    (hmac_sha256 (bytes_of_string "Jefe") (bytes_of_string "what do ya want for nothing?")) =
  "5bdcc146bf60754e6a042426089575c75a003f089d2739839dec58b964ec3843".
Proof. vm_compute. reflexivity. Qed.
End CryptoExamples.

Module AuthExamples.
Import GoStrings GoNum Auth.

Example skewSeconds_default :
  skewSeconds (NewHMACAuth ∅ 0) = 300%Z /\
  skewSeconds (NewHMACAuth ∅ 1500000000) = 1%Z.
Proof. apply conj; vm_compute; reflexivity. Qed.

Example ParseAuthHeader_test :
  ParseAuthHeader "RCS-HMAC-SHA256 keyId=test-key,ts=1640995200,nonce=test-nonce,sig=abcd1234"
  = inr (mkAuthHeader "test-key" "1640995200" "test-nonce" "abcd1234") /\
  ParseAuthHeader "RCS-HMAC-SHA256 keyId=test-key,ts=1640995200" = inl ErrMissingFields /\
  ParseAuthHeader "Bearer keyId=test-key,ts=1640995200,nonce=n,sig=s" = inl ErrInvalidPrefix.
Proof. repeat apply conj; vm_compute; reflexivity. Qed.
End AuthExamples.

(** ** Facts about the string functions *)

Module GoStringsFacts.
Import GoStrings AuthSpec.

Lemma append_assoc (s t u : string) : (s +++ t) +++ u = s +++ (t +++ u).
Proof. induction s as [|c s IH]; simpl; [reflexivity | now rewrite IH]. Qed.

Lemma append_empty_r (s : string) : s +++ "" = s.
Proof. induction s as [|c s IH]; simpl; [reflexivity | now rewrite IH]. Qed.

Lemma length_append (s t : string) :
  String.length (s +++ t) = (String.length s + String.length t)%nat.
Proof. induction s as [|c s IH]; simpl; [reflexivity | now rewrite IH]. Qed.

Lemma free_of_append c s t : free_of c (s +++ t) = free_of c s && free_of c t.
Proof.
  induction s as [|d s IH]; simpl; [reflexivity |].
  rewrite IH. now rewrite andb_assoc.
Qed.

Lemma HasPrefix_append p s : HasPrefix (p +++ s) p = true.
Proof. induction p as [|c p IH]; simpl; [reflexivity |]. now rewrite Ascii.eqb_refl. Qed.

Lemma cut_prefix_append p s : cut_prefix (p +++ s) p = Some s.
Proof. induction p as [|c p IH]; simpl; [reflexivity |]. now rewrite Ascii.eqb_refl. Qed.

Lemma TrimPrefix_append p s : TrimPrefix (p +++ s) p = s.
Proof. unfold TrimPrefix. now rewrite cut_prefix_append. Qed.

(** A text of the length of [p] that is a prefix of what [p] is a prefix of
    is [p]. *)
Lemma HasPrefix_same_length p q rest :
  String.length q = String.length p -> HasPrefix (q +++ rest) p = true -> q = p.
Proof.
  revert q. induction p as [|c p IH]; intros [|d q]; simpl; try discriminate; auto.
  intros Hl H. apply andb_true_iff in H as [Hc Hp].
  apply Ascii.eqb_eq in Hc. subst d. f_equal. apply IH; [lia | exact Hp].
Qed.

Lemma Split_nonempty s sep : Split s sep <> [].
Proof.
  destruct s as [|c s]; simpl; [discriminate |].
  destruct (Ascii.eqb c sep); [discriminate |].
  destruct (Split s sep); discriminate.
Qed.

Lemma Split_free s sep : free_of sep s = true -> Split s sep = [s].
Proof.
  induction s as [|c s IH]; simpl; [reflexivity |].
  intros H. apply andb_true_iff in H as [Hc Hs].
  apply negb_true_iff in Hc. rewrite Hc, (IH Hs). reflexivity.
Qed.

Lemma Split_append s sep rest :
  free_of sep s = true -> Split (s +++ String sep rest) sep = s :: Split rest sep.
Proof.
  induction s as [|c s IH]; simpl.
  - intros _. now rewrite Ascii.eqb_refl.
  - intros H. apply andb_true_iff in H as [Hc Hs].
    apply negb_true_iff in Hc. rewrite Hc, (IH Hs). reflexivity.
Qed.

Lemma Split_Join (pieces : list string) sep :
  pieces <> [] -> Forall (fun p => free_of sep p = true) pieces ->
  Split (Join pieces (String sep "")) sep = pieces.
Proof.
  induction pieces as [|p pieces IH]; [congruence |].
  intros _ Hall. inversion Hall as [|? ? Hp Hps]; subst.
  destruct pieces as [|p' pieces].
  - simpl. now apply Split_free.
  - change (Join (p :: p' :: pieces) (String sep ""))
      with (p +++ String sep "" +++ Join (p' :: pieces) (String sep "")).
    change (String sep "" +++ Join (p' :: pieces) (String sep ""))
      with (String sep (Join (p' :: pieces) (String sep ""))).
    rewrite Split_append by exact Hp. f_equal. apply IH; [discriminate | exact Hps].
Qed.

Lemma SplitN2_append s sep rest :
  free_of sep s = true -> SplitN2 (s +++ String sep rest) sep = [s; rest].
Proof.
  induction s as [|c s IH]; simpl.
  - intros _. now rewrite Ascii.eqb_refl.
  - intros H. apply andb_true_iff in H as [Hc Hs].
    apply negb_true_iff in Hc. rewrite Hc, (IH Hs). reflexivity.
Qed.

End GoStringsFacts.

(** ** Facts about [strings.TrimSpace] *)

Module TrimSpaceFacts.
Import GoStrings AuthSpec GoStringsFacts.
Local Open Scope Z_scope.

Ltac bool_to_prop H :=
  repeat first
    [ rewrite orb_true_iff in H | rewrite andb_true_iff in H
    | rewrite Z.eqb_eq in H | rewrite Z.leb_le in H ].

Lemma byte_inj c d : byte c = byte d -> c = d.
Proof.
  unfold byte. intros H. apply N2Z.inj in H.
  rewrite <- (ascii_N_embedding c), <- (ascii_N_embedding d). now rewrite H.
Qed.

Lemma eqb_byte_neq c d : byte c <> byte d -> Ascii.eqb c d = false.
Proof. intros H. apply Ascii.eqb_neq. intros ->. now apply H. Qed.

Lemma asciiSpace_vals c :
  asciiSpace c = true -> 9 <= byte c <= 13 \/ byte c = 32.
Proof. unfold asciiSpace. cbv zeta. intros H. bool_to_prop H. lia. Qed.

Lemma space2_vals c1 c2 :
  space2 c1 c2 = true -> byte c1 = 194 /\ (byte c2 = 133 \/ byte c2 = 160).
Proof. unfold space2. intros H. bool_to_prop H. lia. Qed.

Lemma space3_vals c1 c2 c3 :
  space3 c1 c2 c3 = true ->
  225 <= byte c1 <= 227 /\ (byte c2 = 154 \/ byte c2 = 128 \/ byte c2 = 129) /\
  128 <= byte c3 <= 175.
Proof. unfold space3. cbv zeta. intros H. bool_to_prop H. lia. Qed.

Lemma space_start_vals c :
  space_start c = true ->
  9 <= byte c <= 13 \/ byte c = 32 \/ byte c = 194 \/ 225 <= byte c <= 227.
Proof.
  unfold space_start. intros H. bool_to_prop H.
  destruct H as [[[[H|H]|H]|H]|H]; try lia.
  apply asciiSpace_vals in H. lia.
Qed.

Lemma not_true_false (b : bool) : (b = true -> False) -> b = false.
Proof. destruct b; [intros H; now destruct H | reflexivity]. Qed.

Lemma asciiSpace_of_space2 c1 c2 : space2 c1 c2 = true -> asciiSpace c1 = false.
Proof.
  intros H. apply space2_vals in H. apply not_true_false. intros A.
  apply asciiSpace_vals in A. lia.
Qed.

Lemma asciiSpace_of_space3 c1 c2 c3 : space3 c1 c2 c3 = true -> asciiSpace c1 = false.
Proof.
  intros H. apply space3_vals in H. apply not_true_false. intros A.
  apply asciiSpace_vals in A. lia.
Qed.

Lemma space2_of_space3 c1 c2 c3 : space3 c1 c2 c3 = true -> space2 c1 c2 = false.
Proof.
  intros H. apply space3_vals in H. apply not_true_false. intros A.
  apply space2_vals in A. lia.
Qed.

(** Read from the end, the last byte of an encoding comes first. *)
Lemma asciiSpace_of_space2_last c1 c2 : space2 c1 c2 = true -> asciiSpace c2 = false.
Proof.
  intros H. apply space2_vals in H. apply not_true_false. intros A.
  apply asciiSpace_vals in A. lia.
Qed.

Lemma asciiSpace_of_space3_last c1 c2 c3 : space3 c1 c2 c3 = true -> asciiSpace c3 = false.
Proof.
  intros H. apply space3_vals in H. apply not_true_false. intros A.
  apply asciiSpace_vals in A. lia.
Qed.

Lemma space2_of_space3_last c1 c2 c3 : space3 c1 c2 c3 = true -> space2 c2 c3 = false.
Proof.
  intros H. apply space3_vals in H. apply not_true_false. intros A.
  apply space2_vals in A. lia.
Qed.

(** No encoding continues with a byte that starts one. *)
Lemma space2_start_r c1 c2 : space_start c2 = true -> space2 c1 c2 = false.
Proof.
  intros H. apply space_start_vals in H. apply not_true_false. intros A.
  apply space2_vals in A. lia.
Qed.

Lemma space3_start_m c1 c2 c3 : space_start c2 = true -> space3 c1 c2 c3 = false.
Proof.
  intros H. apply space_start_vals in H. apply not_true_false. intros A.
  apply space3_vals in A. lia.
Qed.

Lemma space3_start_r c1 c2 c3 : space_start c3 = true -> space3 c1 c2 c3 = false.
Proof.
  intros H. apply space_start_vals in H. apply not_true_false. intros A.
  apply space3_vals in A. lia.
Qed.

Lemma Whitespace_start c w : Whitespace (String c w) -> space_start c = true.
Proof.
  unfold Whitespace. intros H.
  inversion H as [|? ? A|? ? ? A|? ? ? ? A]; subst; unfold space_start.
  - now rewrite A.
  - apply space2_vals in A. destruct A as [A _].
    apply Z.eqb_eq in A. rewrite A. now rewrite !orb_true_r.
  - apply space3_vals in A. destruct A as [A _].
    assert (byte c = 225 \/ byte c = 226 \/ byte c = 227) as [E|[E|E]] by lia;
      apply Z.eqb_eq in E; rewrite E; now rewrite ?orb_true_r.
Qed.

Lemma Whitespace_free c w :
  asciiSpace c = false -> byte c < 128 -> Whitespace w -> free_of c w = true.
Proof.
  unfold Whitespace. intros Hc Hlt Hw. induction Hw as [|d w A _ IH|d1 d2 w A _ IH|d1 d2 d3 w A _ IH]; simpl.
  - reflexivity.
  - rewrite IH, andb_true_r. apply negb_true_iff, eqb_byte_neq.
    intros E. apply byte_inj in E. subst d. congruence.
  - rewrite IH, andb_true_r. apply space2_vals in A.
    rewrite !eqb_byte_neq by lia. reflexivity.
  - rewrite IH, andb_true_r. apply space3_vals in A.
    rewrite !eqb_byte_neq by lia. reflexivity.
Qed.


(** *** The scan from the front *)

Section TrimFrontFacts.
Variable one : ascii -> bool.
Variable two : ascii -> ascii -> bool.
Variable three : ascii -> ascii -> ascii -> bool.
Hypothesis one_of_two : forall c1 c2, two c1 c2 = true -> one c1 = false.
Hypothesis one_of_three : forall c1 c2 c3, three c1 c2 c3 = true -> one c1 = false.
Hypothesis two_of_three : forall c1 c2 c3, three c1 c2 c3 = true -> two c1 c2 = false.

#[local] Abbreviation trim := (trim_front one two three).
#[local] Abbreviation spaces := (Spaces one two three).
#[local] Abbreviation starts := (starts_with_space one two three).

Lemma trim_front_spaces w x : spaces w -> trim (w +++ x) = trim x.
Proof.
  induction 1 as [|c w A _ IH|c1 c2 w A _ IH|c1 c2 c3 w A _ IH]; simpl.
  - reflexivity.
  - now rewrite A.
  - now rewrite (one_of_two _ _ A), A.
  - now rewrite (one_of_three _ _ _ A), (two_of_three _ _ _ A), A.
Qed.

Lemma trim_front_stop s : starts s = false -> trim s = s.
Proof.
  destruct s as [|c1 [|c2 [|c3 s3]]]; simpl; intros H;
    repeat (apply orb_false_iff in H; destruct H as [H ?]);
    repeat match goal with E : _ = false |- _ => rewrite E; clear E end;
    reflexivity.
Qed.

Lemma trim_front_length_le n : forall s,
  (String.length s <= n)%nat -> (String.length (trim s) <= String.length s)%nat.
Proof.
  induction n as [|n IH]; intros s Hn.
  - destruct s; simpl in *; lia.
  - destruct s as [|c1 s1]; simpl in *; [lia |].
    destruct (one c1).
    + specialize (IH s1 ltac:(lia)). lia.
    + destruct s1 as [|c2 s2]; simpl in *; [lia |].
      destruct (two c1 c2).
      * specialize (IH s2 ltac:(lia)). lia.
      * destruct s2 as [|c3 s3]; simpl in *; [lia |].
        destruct (three c1 c2 c3); [| simpl; lia].
        specialize (IH s3 ltac:(lia)). lia.
Qed.

Lemma trim_front_length s : (String.length (trim s) <= String.length s)%nat.
Proof. now apply (trim_front_length_le (String.length s)). Qed.

Lemma trim_front_shorter s :
  starts s = true -> (String.length (trim s) < String.length s)%nat.
Proof.
  destruct s as [|c1 s1]; simpl; [discriminate |].
  destruct (one c1) eqn:E1.
  - intros _. pose proof (trim_front_length s1). lia.
  - destruct s1 as [|c2 s2]; [discriminate |].
    destruct (two c1 c2) eqn:E2.
    + intros _. pose proof (trim_front_length s2). simpl. lia.
    + destruct s2 as [|c3 s3]; [discriminate |].
      destruct (three c1 c2 c3) eqn:E3; [| discriminate].
      intros _. pose proof (trim_front_length s3). simpl. lia.
Qed.

Lemma trim_front_fixed s : trim s = s -> starts s = false.
Proof.
  intros H. apply not_true_false. intros A.
  apply trim_front_shorter in A. rewrite H in A. lia.
Qed.

Lemma spaces_append a b : spaces a -> spaces b -> spaces (a +++ b).
Proof.
  induction 1 as [|c w A _ IH|c1 c2 w A _ IH|c1 c2 c3 w A _ IH]; intros Hb; simpl.
  - exact Hb.
  - apply sp_one; auto.
  - apply sp_two; auto.
  - apply sp_three; auto.
Qed.

End TrimFrontFacts.


(** *** Reversal *)

Lemma rev_onto_append s acc : rev_onto s acc = Reverse s +++ acc.
Proof.
  unfold Reverse. revert acc. induction s as [|c s IH]; intros acc; simpl.
  - reflexivity.
  - rewrite (IH (String c acc)), (IH (String c "")), append_assoc. reflexivity.
Qed.

Lemma Reverse_cons c s : Reverse (String c s) = Reverse s +++ String c "".
Proof. unfold Reverse at 1. simpl. apply rev_onto_append. Qed.

Lemma Reverse_append a b : Reverse (a +++ b) = Reverse b +++ Reverse a.
Proof.
  induction a as [|c a IH]; simpl.
  - now rewrite append_empty_r.
  - now rewrite !Reverse_cons, IH, append_assoc.
Qed.

Lemma Reverse_involutive s : Reverse (Reverse s) = s.
Proof.
  induction s as [|c s IH]; [reflexivity |].
  rewrite Reverse_cons, Reverse_append, IH. reflexivity.
Qed.

Lemma Reverse_length s : String.length (Reverse s) = String.length s.
Proof.
  induction s as [|c s IH]; [reflexivity |].
  rewrite Reverse_cons, length_append, IH. simpl. lia.
Qed.

Lemma Whitespace_Reverse w : Whitespace w -> WhitespaceRev (Reverse w).
Proof.
  unfold Whitespace, WhitespaceRev.
  induction 1 as [|c w A _ IH|c1 c2 w A _ IH|c1 c2 c3 w A _ IH].
  - apply sp_empty.
  - rewrite Reverse_cons. apply spaces_append; [exact IH |].
    apply sp_one; [exact A | apply sp_empty].
  - rewrite !Reverse_cons, append_assoc. apply spaces_append; [exact IH |].
    apply sp_two; [exact A | apply sp_empty].
  - rewrite !Reverse_cons, !append_assoc. apply spaces_append; [exact IH |].
    apply sp_three; [exact A | apply sp_empty].
Qed.

(** *** [TrimSpace] *)

Lemma TrimLeftSpace_Whitespace w x :
  Whitespace w -> TrimLeftSpace (w +++ x) = TrimLeftSpace x.
Proof.
  apply trim_front_spaces.
  - apply asciiSpace_of_space2.
  - apply asciiSpace_of_space3.
  - apply space2_of_space3.
Qed.

Lemma TrimLeftSpaceRev_WhitespaceRev w x :
  WhitespaceRev w -> TrimLeftSpaceRev (w +++ x) = TrimLeftSpaceRev x.
Proof.
  apply trim_front_spaces; unfold space2_rev, space3_rev.
  - intros c1 c2. apply asciiSpace_of_space2_last.
  - intros c1 c2 c3. apply asciiSpace_of_space3_last.
  - intros c1 c2 c3. apply space2_of_space3_last.
Qed.

Lemma TrimRightSpace_Whitespace x w :
  Whitespace w -> TrimRightSpace (x +++ w) = TrimRightSpace x.
Proof.
  intros Hw. unfold TrimRightSpace.
  rewrite Reverse_append, TrimLeftSpaceRev_WhitespaceRev; [reflexivity |].
  now apply Whitespace_Reverse.
Qed.

Lemma TrimRightSpace_length s :
  (String.length (TrimRightSpace s) <= String.length s)%nat.
Proof.
  unfold TrimRightSpace. rewrite Reverse_length.
  etransitivity; [apply trim_front_length |]. now rewrite Reverse_length.
Qed.

(** What follows a text without a leading space does not give it one, as
    long as it is whitespace itself. *)
Lemma starts_with_space_append x w :
  x <> "" -> starts_with_space asciiSpace space2 space3 x = false -> Whitespace w ->
  starts_with_space asciiSpace space2 space3 (x +++ w) = false.
Proof.
  intros Hx Hs Hw.
  destruct x as [|c1 [|c2 [|c3 x3]]]; [congruence | | |]; simpl in *.
  - destruct w as [|d1 [|d2 w2]]; simpl.
    + exact Hs.
    + rewrite Hs. simpl. apply space2_start_r. eapply Whitespace_start, Hw.
    + rewrite Hs. simpl.
      rewrite (space2_start_r c1 d1) by (eapply Whitespace_start, Hw). simpl.
      apply space3_start_m. eapply Whitespace_start, Hw.
  - destruct w as [|d1 w1]; simpl.
    + exact Hs.
    + rewrite Hs. simpl. apply space3_start_r. eapply Whitespace_start, Hw.
  - exact Hs.
Qed.

Lemma trimmed_ends x :
  trimmed x = true ->
  starts_with_space asciiSpace space2 space3 x = false /\ TrimRightSpace x = x.
Proof.
  unfold trimmed, TrimSpace. intros H. apply String.eqb_eq in H.
  assert (Hl : TrimLeftSpace x = x).
  { pose proof (TrimRightSpace_length (TrimLeftSpace x)) as H1.
    rewrite H in H1.
    destruct (starts_with_space asciiSpace space2 space3 x) eqn:E.
    - apply trim_front_shorter in E. unfold TrimLeftSpace in H1. lia.
    - now apply trim_front_stop. }
  split.
  - now apply trim_front_fixed.
  - now rewrite Hl in H.
Qed.

(** [TrimSpace] undoes whitespace around a text that has none at its ends. *)
Lemma TrimSpace_padded w1 x w2 :
  Whitespace w1 -> Whitespace w2 -> x <> "" -> trimmed x = true ->
  TrimSpace (w1 +++ x +++ w2) = x.
Proof.
  intros H1 H2 Hx Ht. apply trimmed_ends in Ht as [Hs Hr].
  unfold TrimSpace. rewrite TrimLeftSpace_Whitespace by exact H1.
  unfold TrimLeftSpace. rewrite trim_front_stop.
  - rewrite TrimRightSpace_Whitespace by exact H2. exact Hr.
  - now apply starts_with_space_append.
Qed.

End TrimSpaceFacts.

(** ** Facts about [ParseAuthHeader] *)

Module ParseFacts.
Import GoStrings Auth AuthSpec GoStringsFacts TrimSpaceFacts.

Lemma Whitespace_free_comma w : Whitespace w -> free_of "," w = true.
Proof. apply Whitespace_free; vm_compute; reflexivity. Qed.

Lemma Whitespace_free_equals w : Whitespace w -> free_of "=" w = true.
Proof. apply Whitespace_free; vm_compute; reflexivity. Qed.

Lemma parsePair_padded auth bn nm an bv v av :
  Whitespace bn -> Whitespace an -> Whitespace bv -> Whitespace av ->
  nm <> "" -> trimmed nm = true -> free_of "=" nm = true ->
  v <> "" -> trimmed v = true ->
  parsePair auth (bn +++ nm +++ an +++ "=" +++ bv +++ v +++ av) = setField nm v auth.
Proof.
  intros Hbn Han Hbv Hav Hnm Htn Hfn Hv Htv.
  assert (E : bn +++ nm +++ an +++ "=" +++ bv +++ v +++ av
              = (bn +++ nm +++ an) +++ String "=" (bv +++ v +++ av)).
  { now rewrite !append_assoc. }
  unfold parsePair. rewrite E, SplitN2_append.
  - rewrite (TrimSpace_padded bv v av), (TrimSpace_padded bn nm an) by assumption.
    reflexivity.
  - rewrite !free_of_append, Hfn.
    rewrite !Whitespace_free_equals by assumption.
    reflexivity.
Qed.

Lemma parsePair_render auth p :
  pair_ok p -> parsePair auth (render p) = setField (name p) (value p) auth.
Proof.
  destruct p as [bn nm an bv v av]. unfold pair_ok, padding_ok, render, names. simpl.
  intros ((Hbn & Han & Hbv & Hav) & Hn & Hv & Ht & _).
  destruct Hn as [<-|[<-|[<-|[<-|[]]]]];
    apply parsePair_padded; auto; try discriminate; reflexivity.
Qed.

Lemma getField_setField nm n v auth :
  In nm names -> In n names ->
  getField nm (setField n v auth) = if String.eqb nm n then v else getField nm auth.
Proof.
  unfold names. simpl.
  intros [<-|[<-|[<-|[<-|[]]]]] [<-|[<-|[<-|[<-|[]]]]]; reflexivity.
Qed.

Lemma getField_parsePair auth p nm :
  pair_ok p -> In nm names ->
  getField nm (parsePair auth (render p)) =
    if String.eqb nm (name p) then value p else getField nm auth.
Proof.
  intros Hp Hnm. rewrite parsePair_render by exact Hp.
  apply getField_setField; [exact Hnm | apply Hp].
Qed.

Lemma fold_parsePair_field nm v : forall ps auth,
  Forall pair_ok ps -> In nm names ->
  (forall p, In p ps -> name p = nm -> value p = v) ->
  (getField nm auth = v \/ exists p, In p ps /\ name p = nm) ->
  getField nm (List.fold_left parsePair (List.map render ps) auth) = v.
Proof.
  induction ps as [|p ps IH]; intros auth Hok Hnm Huniq Hex; simpl.
  - destruct Hex as [H | (p & [] & _)]. exact H.
  - inversion Hok as [|? ? Hp Hps]; subst.
    apply IH; auto.
    + intros q Hq. apply Huniq. now right.
    + rewrite getField_parsePair by assumption.
      destruct (String.eqb_spec nm (name p)) as [E | E].
      * left. apply Huniq; [now left | now symmetry].
      * destruct Hex as [H | (q & [-> | Hq] & Hqn)].
        -- now left.
        -- congruence.
        -- right. now exists q.
Qed.

Lemma render_free_comma p : pair_ok p -> free_of "," (render p) = true.
Proof.
  destruct p as [bn nm an bv v av]. unfold pair_ok, padding_ok, render, names. simpl.
  intros ((Hbn & Han & Hbv & Hav) & Hn & _ & _ & Hv).
  destruct Hn as [<-|[<-|[<-|[<-|[]]]]];
    repeat (rewrite ?free_of_append; simpl);
    rewrite Hv, !Whitespace_free_comma by assumption; reflexivity.
Qed.

Lemma header_eta (a h : AuthHeader) :
  KeyID a = KeyID h -> Timestamp a = Timestamp h ->
  Nonce a = Nonce h -> Signature a = Signature h -> a = h.
Proof. destruct a, h; simpl; intros; subst; reflexivity. Qed.

Lemma plain_value_facts v :
  plain_value v = true -> v <> "" /\ free_of "," v = true /\ String.eqb v "" = false.
Proof.
  unfold plain_value. intros H.
  apply andb_true_iff in H as [H _]. apply andb_true_iff in H as [H1 H2].
  apply negb_true_iff in H1. repeat split; auto.
  now apply String.eqb_neq.
Qed.

Lemma ParseAuthHeader_pairs h ps :
  plain_header h = true -> trimmed_header h = true ->
  Permutation (List.map (fun p => (name p, value p)) ps) (fields_of h) ->
  Forall padding_ok ps ->
  ParseAuthHeader (headerOfPairs ps) = inr h.
Proof.
  intros Hplain Htrim Hperm Hpad.
  unfold plain_header in Hplain. unfold trimmed_header in Htrim.
  do 3 (apply andb_true_iff in Hplain; destruct Hplain as [Hplain ?]).
  do 3 (apply andb_true_iff in Htrim; destruct Htrim as [Htrim ?]).
  repeat match goal with
         | H : plain_value _ = true |- _ => apply plain_value_facts in H; destruct H as (? & ? & ?)
         end.
  (* every pair is one of the four fields of [h] *)
  assert (Hfield : forall p, In p ps -> In (name p, value p) (fields_of h)).
  { intros p Hp. eapply Permutation_in; [exact Hperm |].
    now apply (in_map (fun p => (name p, value p))). }
  assert (Hok : Forall pair_ok ps).
  { apply List.Forall_forall. intros p Hp. unfold pair_ok.
    split; [eapply List.Forall_forall in Hpad; eauto |].
    specialize (Hfield p Hp). unfold fields_of, names in *. simpl in Hfield.
    destruct Hfield as [E|[E|[E|[E|[]]]]]; inversion E; subst; simpl; intuition auto. }
  assert (Hne : ps <> []).
  { intros ->. apply Permutation_nil in Hperm. discriminate. }
  assert (Hget : forall nm v, In (nm, v) (fields_of h) ->
            getField nm (List.fold_left parsePair (List.map render ps)
                           (mkAuthHeader "" "" "" "")) = v).
  { intros nm v Hin. apply fold_parsePair_field; auto.
    - unfold fields_of, names in *. simpl in Hin. simpl.
      destruct Hin as [E|[E|[E|[E|[]]]]]; inversion E; auto.
    - intros p Hp Hnm. specialize (Hfield p Hp). rewrite Hnm in Hfield.
      unfold fields_of in *. simpl in Hin, Hfield.
      destruct Hin as [E|[E|[E|[E|[]]]]]; inversion E; subst;
        destruct Hfield as [F|[F|[F|[F|[]]]]]; inversion F; congruence.
    - right. apply Permutation_sym in Hperm.
      apply (Permutation_in _ Hperm) in Hin. apply in_map_iff in Hin.
      destruct Hin as (p & E & Hp). exists p. split; [exact Hp | congruence]. }
  unfold ParseAuthHeader, headerOfPairs.
  rewrite HasPrefix_append. simpl negb. cbv iota.
  rewrite <- append_assoc, TrimPrefix_append.
  change "," with (String "," "") at 1.
  rewrite Split_Join.
  - set (a := List.fold_left parsePair (List.map render ps) (mkAuthHeader "" "" "" "")) in *.
    assert (Ea : a = h).
    { apply header_eta.
      - apply (Hget "keyId"). simpl. auto.
      - apply (Hget "ts"). simpl. auto.
      - apply (Hget "nonce"). simpl. auto.
      - apply (Hget "sig"). simpl. auto. }
    rewrite Ea.
    repeat match goal with E : String.eqb _ "" = false |- _ => rewrite E; clear E end.
    reflexivity.
  - destruct ps; [congruence | discriminate].
  - apply List.Forall_map. eapply List.Forall_impl; [| exact Hok].
    intros p Hp. now apply render_free_comma.
Qed.

End ParseFacts.

(** ** The signing primitive *)

Module AuthFacts.
Import GoStrings GoNum Auth.
Local Open Scope Z_scope.

(** Without overflow [abs (wrap64 (now - ts))] is the distance of the two
    instants. *)
Lemma abs_wrap64_in_range now ts :
  - 2 ^ 63 < now - ts < 2 ^ 63 -> abs (wrap64 (now - ts)) = Z.abs (now - ts).
Proof.
  intros Hr. unfold abs, wrap64.
  assert (Hw : (now - ts + 2 ^ 63) mod 2 ^ 64 - 2 ^ 63 = now - ts).
  { rewrite Z.mod_small by lia. lia. }
  rewrite Hw.
  destruct (Z.ltb_spec (now - ts) 0) as [Hneg | Hpos].
  - rewrite Z.mod_small by lia. lia.
  - lia.
Qed.

(** The checks of [VerifySignature], in the order in which they fail. *)
Lemma VerifySignature_unknown_key h now m p b a :
  secrets h !! KeyID a = None ->
  VerifySignature h now m p b a = Some (ErrUnknownKey (KeyID a)).
Proof. intros H. unfold VerifySignature. now rewrite H. Qed.

Lemma VerifySignature_bad_timestamp h now m p b a secret :
  secrets h !! KeyID a = Some secret ->
  ParseInt (Timestamp a) = None ->
  VerifySignature h now m p b a = Some (ErrInvalidTimestamp (Timestamp a)).
Proof. intros H1 H2. unfold VerifySignature. now rewrite H1, H2. Qed.

Lemma VerifySignature_skew h now m p b a secret ts :
  secrets h !! KeyID a = Some secret ->
  ParseInt (Timestamp a) = Some ts ->
  abs (wrap64 (now - ts)) > skewSeconds h ->
  VerifySignature h now m p b a = Some (ErrTimestampSkew ts now).
Proof.
  intros H1 H2 H3. unfold VerifySignature. rewrite H1, H2.
  destruct (Z.gtb_spec (abs (wrap64 (now - ts))) (skewSeconds h)); [reflexivity | lia].
Qed.

Lemma VerifySignature_mismatch h now m p b a secret ts :
  secrets h !! KeyID a = Some secret ->
  ParseInt (Timestamp a) = Some ts ->
  abs (wrap64 (now - ts)) <= skewSeconds h ->
  ComputeSignature m p b (Timestamp a) (Nonce a) secret <> Signature a ->
  VerifySignature h now m p b a = Some ErrSignatureMismatch.
Proof.
  intros H1 H2 H3 H4. unfold VerifySignature. rewrite H1, H2.
  destruct (Z.gtb_spec (abs (wrap64 (now - ts))) (skewSeconds h)); [lia |].
  unfold hmac_Equal.
  destruct (String.eqb_spec (ComputeSignature m p b (Timestamp a) (Nonce a) secret)
              (Signature a)); [contradiction | reflexivity].
Qed.

Lemma VerifySignature_accepts_iff h now m p b a :
  VerifySignature h now m p b a = None <->
  exists secret ts,
    secrets h !! KeyID a = Some secret /\
    ParseInt (Timestamp a) = Some ts /\
    abs (wrap64 (now - ts)) <= skewSeconds h /\
    ComputeSignature m p b (Timestamp a) (Nonce a) secret = Signature a.
Proof.
  unfold VerifySignature, hmac_Equal. split.
  - destruct (secrets h !! KeyID a) as [secret|]; [|discriminate].
    destruct (ParseInt (Timestamp a)) as [ts|]; [|discriminate].
    destruct (Z.gtb_spec (abs (wrap64 (now - ts))) (skewSeconds h)); [discriminate|].
    destruct (String.eqb_spec (ComputeSignature m p b (Timestamp a) (Nonce a) secret)
                (Signature a)); [|discriminate].
    intros _. exists secret, ts. repeat split; auto.
  - intros (secret & ts & H1 & H2 & H3 & H4). rewrite H1, H2.
    destruct (Z.gtb_spec (abs (wrap64 (now - ts))) (skewSeconds h)); [lia|].
    rewrite H4, String.eqb_refl. reflexivity.
Qed.

(** The boundary of the skew check: a distance equal to the tolerance
    passes, one second more fails. *)
Lemma VerifySignature_boundary h now m p b secret keyID nonce skew :
  0 <= skew < 2 ^ 62 -> 0 <= now < 2 ^ 62 ->
  skewSeconds h = skew ->
  secrets h !! keyID = Some secret ->
  let signed ts :=
    mkAuthHeader keyID (FormatInt ts) nonce
      (ComputeSignature m p b (FormatInt ts) nonce secret) in
  forall ts,
    ParseInt (FormatInt ts) = Some ts ->
    (Z.abs (now - ts) = skew -> VerifySignature h now m p b (signed ts) = None) /\
    (Z.abs (now - ts) = skew + 1 ->
     VerifySignature h now m p b (signed ts) = Some (ErrTimestampSkew ts now)).
Proof.
  intros Hskew Hnow Hs Hk signed ts Hp. split; intros Hd.
  - apply VerifySignature_accepts_iff. exists secret, ts. cbn.
    repeat split; auto.
    rewrite abs_wrap64_in_range by lia. lia.
  - eapply VerifySignature_skew; cbn; eauto.
    rewrite abs_wrap64_in_range by lia. lia.
Qed.

End AuthFacts.

Module C2.
Import GoStrings GoNum Auth AuthScenario.
Local Open Scope Z_scope.

(** C2 (code defect): [VerifySignature] is meant to reject a timestamp
    whose distance to the clock exceeds the tolerance.  With the clock at
    1700000000 and the timestamp [now - 2^63], the difference [now - ts]
    overflows to the smallest [int64], whose negation in [abs] overflows
    again and stays negative; the skew check passes and a correctly signed
    request is accepted although the distance is [2^63] seconds and the
    tolerance 300. *)
Theorem VerifySignature_accepts_overflowing_skew :
  ParseInt ts0 = Some (now0 - 2 ^ 63) /\
  skewSeconds skew_auth = 300 /\
  Z.abs (now0 - (now0 - 2 ^ 63)) > skewSeconds skew_auth /\
  abs (wrap64 (now0 - (now0 - 2 ^ 63))) = minInt64 /\
  VerifySignature skew_auth now0 "POST" "/callback/ch_1" "{}" auth0 = None.
Proof. repeat apply conj; vm_compute; reflexivity. Qed.

End C2.

(** ** C6: parsing a formatted header *)

Module C6.
Import GoStrings GoNum Auth AuthSpec GoStringsFacts ParseFacts AuthScenario.

(** C6, as stated, fails: a nonce that begins with a space is a value free
    of [','] and ['='], yet the parser trims it, so that parsing the
    formatted header does not give the header back.  The same happens for
    the header that [CreateAuthHeader] makes with such a nonce. *)
Lemma roundtrip_fails_for_untrimmed_value :
  plain_header h_spaced = true /\
  ParseAuthHeader (formatHeader h_spaced)
    = inr (mkAuthHeader "test-key" "1640995200" "test-nonce" "abcd1234") /\
  ParseAuthHeader (formatHeader h_spaced) <> inr h_spaced /\
  (exists a,
      ParseAuthHeader
        (CreateAuthHeader auth_test 1640995200 "POST" "/solve" "{}" "test-key" " test-nonce")
      = inr a /\ Nonce a = "test-nonce").
Proof.
  split; [reflexivity |]. split; [vm_compute; reflexivity |].
  split; [vm_compute; discriminate |].
  eexists. split; [vm_compute; reflexivity | reflexivity].
Qed.

(** C6, amended: for every header whose four values are present, free of
    [','] and ['='] and without whitespace at either end, parsing the
    formatted header gives exactly the header back; the parser reads the
    four pairs in any order and with any whitespace around names and
    values; and a text that begins with fifteen bytes other than the literal
    prefix, such as the prefix in another case, is rejected for its
    prefix. *)
Theorem ParseAuthHeader_roundtrip (h : AuthHeader) :
  plain_header h = true -> trimmed_header h = true ->
  ParseAuthHeader (formatHeader h) = inr h /\
  (forall ps : list Pair,
      Permutation (List.map (fun p => (name p, value p)) ps) (fields_of h) ->
      Forall padding_ok ps ->
      ParseAuthHeader (headerOfPairs ps) = inr h) /\
  (forall prefix rest : string,
      String.length prefix = String.length AuthHeaderPrefix ->
      prefix <> AuthHeaderPrefix ->
      ParseAuthHeader (prefix +++ rest) = inl ErrInvalidPrefix).
Proof.
  intros Hplain Htrim. split; [| split].
  - assert (E : formatHeader h =
                headerOfPairs
                  [ mkPair "" "keyId" "" "" (KeyID h) "";
                    mkPair "" "ts" "" "" (Timestamp h) "";
                    mkPair "" "nonce" "" "" (Nonce h) "";
                    mkPair "" "sig" "" "" (Signature h) "" ]).
    { unfold formatHeader, formatAuthHeader, headerOfPairs, render. simpl.
      rewrite !append_empty_r. repeat (rewrite ?append_assoc; simpl). reflexivity. }
    rewrite E. apply ParseAuthHeader_pairs; auto.
    repeat constructor.
  - intros ps Hperm Hpad. now apply ParseAuthHeader_pairs.
  - intros prefix rest Hlen Hne. unfold ParseAuthHeader.
    destruct (HasPrefix (prefix +++ rest) AuthHeaderPrefix) eqn:E; [| reflexivity].
    apply HasPrefix_same_length in E; [contradiction | exact Hlen].
Qed.

Lemma ParseAuthHeader_roundtrip_witness :
  ParseAuthHeader (formatHeader h_test) = inr h_test /\
  ParseAuthHeader (headerOfPairs pairs_test) = inr h_test /\
  ParseAuthHeader ("rcs-hmac-sha256" +++ " keyId=test-key,ts=1640995200,nonce=test-nonce,sig=abcd1234")
    = inl ErrInvalidPrefix.
Proof.
  destruct (ParseAuthHeader_roundtrip h_test eq_refl eq_refl) as (H1 & H2 & H3).
  split; [exact H1 |]. split.
  - apply H2.
    + apply Permutation_sym. exact (Permutation_rev (fields_of h_test)).
    + unfold pairs_test, padding_ok, Whitespace, nbsp.
      repeat (apply Forall_cons || apply Forall_nil || split);
        repeat first [ apply sp_empty | apply sp_one; [reflexivity |]
                     | apply sp_two; [reflexivity |] ].
  - apply H3; [reflexivity | discriminate].
Defined.

End C6.

Module HttpExamples.
Import Http.

Example CanonicalMIMEHeaderKey_examples :
  CanonicalMIMEHeaderKey "X-Request-ID" = "X-Request-Id" /\
  CanonicalMIMEHeaderKey "x-solver-address" = "X-Solver-Address" /\
  CanonicalMIMEHeaderKey "Authorization" = "Authorization".
Proof. repeat apply conj; reflexivity. Qed.

Example ReadAll_examples :
  ReadAll (MaxBytes (Bytes "abcd") 4) = ("abcd", None) /\
  ReadAll (MaxBytes (Bytes "abcde") 4) = ("abcd", Some ErrBodyTooLarge).
Proof. repeat apply conj; reflexivity. Qed.
End HttpExamples.

(** ** The callback sender *)

Module SolverFacts.
Import GoStrings GoNum Http Auth ChallengerDB Solver.
Local Open Scope Z_scope.

Lemma CreateAuthHeader_unknown_key h now m p b keyID nonce :
  secrets h !! keyID = None -> CreateAuthHeader h now m p b keyID nonce = "".
Proof. intros H. unfold CreateAuthHeader. now rewrite H. Qed.

Lemma CreateAuthHeader_known_key h now m p b keyID nonce secret :
  secrets h !! keyID = Some secret ->
  CreateAuthHeader h now m p b keyID nonce =
    formatAuthHeader keyID (FormatInt now) nonce
      (ComputeSignature m p b (FormatInt now) nonce secret).
Proof. intros H. unfold CreateAuthHeader. now rewrite H. Qed.

(** Without the key, [SendCallback] hands nothing to the HTTP client. *)
Lemma SendCallback_unknown_key cfg h env url req :
  secrets h !! ChalHMACKeyID cfg = None ->
  SendCallback cfg h env url req = ([], Returns (0, Some ErrMarshal)) \/
  SendCallback cfg h env url req = ([], Returns (0, Some ErrAuthHeader)).
Proof.
  intros H. unfold SendCallback.
  destruct (MarshalCallbackRequest env req) as [body|]; [right | now left].
  now rewrite CreateAuthHeader_unknown_key.
Qed.

Lemma retryLoop_unknown_key cfg h env challenge req :
  secrets h !! ChalHMACKeyID cfg = None ->
  forall remaining attempt db,
    List.existsb is_Sent (snd (fst (retryLoop cfg h env challenge req remaining attempt db)))
    = false.
Proof.
  intros H. induction remaining as [|remaining IH]; intros attempt db; [reflexivity |].
  cbn [retryLoop].
  destruct (SendCallback_unknown_key cfg h (sendEnv env attempt)
              (PendingChallenge.CallbackURL challenge) req H) as [E | E];
    rewrite E; cbn [List.map negb andb shouldRetry].
  all: destruct (Z.of_nat attempt =? MaxRetryAttempts - 1); [reflexivity |].
  all: match goal with
       | |- context [retryLoop ?c ?a ?e ?ch ?r ?rm ?at' ?d] =>
           specialize (IH at' d); destruct (retryLoop c a e ch r rm at' d) as [[db' later] ret]
       end; cbn [fst snd] in *; cbn [app List.existsb is_Sent orb]; exact IH.
Qed.

Lemma processChallenge_unknown_key cfg h env challenge db :
  secrets h !! ChalHMACKeyID cfg = None ->
  List.existsb is_Sent (snd (fst (processChallenge cfg h env challenge db))) = false.
Proof.
  intros H. unfold processChallenge.
  destruct (SolverDB.UpdateChallengeStatus _ db _ _ _ _) as [db1 [e|]]; [reflexivity |].
  unfold sendCallbackWithRetry.
  pose proof (retryLoop_unknown_key cfg h (retryEnv env) challenge
                (callbackRequestOf env challenge) H (Z.to_nat MaxRetryAttempts) 0%nat db1) as E.
  destruct (retryLoop _ _ _ _ _ _ _ _) as [[db2 events] [|[e|]]]; exact E.
Qed.

End SolverFacts.


(** ** C10: no callback without the signing key *)

Module C10.
Import GoStrings GoNum Http Auth ChallengerDB Solver SolverFacts AuthScenario.
Local Open Scope Z_scope.

(** C10: when the key id that the solver uses towards the challenger is
    not in the secrets map, [CreateAuthHeader] returns the empty string and
    [SendCallback] returns an error without handing a request to the HTTP
    client, before [http.NewRequest]; the retry loop and [processChallenge],
    the only callers, then transmit nothing either. *)
Theorem no_callback_without_key (cfg : Config) (h : HMACAuth) :
  secrets h !! ChalHMACKeyID cfg = None ->
  (forall now m p b nonce, CreateAuthHeader h now m p b (ChalHMACKeyID cfg) nonce = "") /\
  (forall env url req,
      SendCallback cfg h env url req = ([], Returns (0, Some ErrMarshal)) \/
      SendCallback cfg h env url req = ([], Returns (0, Some ErrAuthHeader))) /\
  (forall env challenge req db,
      List.existsb is_Sent (snd (fst (sendCallbackWithRetry cfg h env challenge req db)))
      = false) /\
  (forall env challenge db,
      List.existsb is_Sent (snd (fst (processChallenge cfg h env challenge db))) = false).
Proof.
  intros H. repeat apply conj.
  - intros. now apply CreateAuthHeader_unknown_key.
  - intros. now apply SendCallback_unknown_key.
  - intros. unfold sendCallbackWithRetry. now apply retryLoop_unknown_key.
  - intros. now apply processChallenge_unknown_key.
Qed.

Lemma no_callback_without_key_witness :
  secrets nokey_auth !! ChalHMACKeyID nokey_cfg = None /\
  CreateAuthHeader nokey_auth 1700000000 "POST" "/callback/ch_1" "{}"
    (ChalHMACKeyID nokey_cfg) "n-1" = "".
Proof.
  split; [vm_compute; reflexivity |].
  apply (no_callback_without_key nokey_cfg nokey_auth). vm_compute. reflexivity.
Defined.

End C10.

Module ScenarioExamples.
Import GoStrings GoNum Http Auth ChallengerDB Scenario.

Example body_compact_length :
  String.length body_compact = 116%nat /\ String.length body_spaced = 125%nat.
Proof. apply conj; vm_compute; reflexivity. Qed.

Example HandleCallback_happy_path :
  let '(db, effects, resp) :=
    Challenger.HandleCallback env0 db0 (request0 headers0 body_compact) in
  resp = Challenger.writeCallbackResponse "ch_m1" false /\
  List.map ResultRow.is_correct (results db) = [true] /\
  List.length (webhooks db) = 1%nat.
Proof. vm_compute. repeat apply conj; reflexivity. Qed.
End ScenarioExamples.

(** ** The result store *)

Module StoreFacts.
Import ChallengerDB StoreSpec.

Lemma has_key_row_of c r id result :
  has_key c r (row_of id result) =
  String.eqb (Result.ChallengeID result) c && String.eqb (Result.RequestID result) r.
Proof. reflexivity. Qed.

Lemma key_taken_false db result :
  key_taken db result = false ->
  rows_of db (Result.ChallengeID result) (Result.RequestID result) = [].
Proof.
  unfold key_taken, rows_of. induction (results db) as [|row rows IH]; simpl; [reflexivity |].
  intros H. apply orb_false_iff in H as [H1 H2]. rewrite H1. now apply IH.
Qed.

Lemma key_taken_true db result :
  key_taken db result = true ->
  rows_of db (Result.ChallengeID result) (Result.RequestID result) <> [].
Proof.
  unfold key_taken, rows_of. induction (results db) as [|row rows IH]; simpl; [discriminate |].
  intros H. destruct (has_key _ _ row); [discriminate |]. now apply IH.
Qed.

Lemma rows_of_insert db result c r :
  rows_of (insert_result db result) c r =
  (rows_of db c r ++
   if String.eqb (Result.ChallengeID result) c && String.eqb (Result.RequestID result) r
   then [row_of (results_seq db + 1) result] else [])%list.
Proof.
  unfold rows_of, insert_result. simpl. rewrite List.filter_app. simpl.
  rewrite has_key_row_of. now destruct (_ && _).
Qed.

Lemma insert_keeps_at_most_one db result :
  at_most_one_row db -> key_taken db result = false ->
  at_most_one_row (insert_result db result).
Proof.
  intros Hdb Hfree c r. rewrite rows_of_insert.
  destruct (String.eqb_spec (Result.ChallengeID result) c) as [<- |];
    destruct (String.eqb_spec (Result.RequestID result) r) as [<- |]; simpl;
    rewrite ?List.app_nil_r; try apply Hdb.
  rewrite (key_taken_false _ _ Hfree). simpl. lia.
Qed.

Lemma run_call_at_most_one db c : at_most_one_row db -> at_most_one_row (run_call db c).
Proof.
  intros Hdb. destruct c as [io result | io result | io audit | io nonce now]; simpl.
  - unfold SaveResult. destruct io; [| exact Hdb].
    destruct (key_taken db result) eqn:E; simpl; [exact Hdb |].
    now apply insert_keeps_at_most_one.
  - unfold SaveResultWithDuplicateCheck. destruct io; [| exact Hdb].
    destruct (key_taken db result) eqn:E; simpl; [exact Hdb |].
    now apply insert_keeps_at_most_one.
  - unfold SaveWebhookAudit. destruct io; exact Hdb.
  - unfold SaveNonce. destruct io; [| exact Hdb].
    destruct (List.existsb _ _); exact Hdb.
Qed.

Lemma run_calls_at_most_one calls : forall db,
  at_most_one_row db -> at_most_one_row (run_calls db calls).
Proof.
  unfold run_calls. induction calls as [|c calls IH]; intros db Hdb; simpl; [exact Hdb |].
  apply IH. now apply run_call_at_most_one.
Qed.

(** No call removes or changes a row: the rows of a key only grow at the
    end. *)
Lemma run_call_rows db c ch r :
  exists more, rows_of (run_call db c) ch r = (rows_of db ch r ++ more)%list.
Proof.
  destruct c as [io result | io result | io audit | io nonce now]; simpl.
  - unfold SaveResult. destruct io; [| exists []; now rewrite List.app_nil_r].
    destruct (key_taken db result); simpl; [exists []; now rewrite List.app_nil_r |].
    rewrite rows_of_insert. eauto.
  - unfold SaveResultWithDuplicateCheck. destruct io; [| exists []; now rewrite List.app_nil_r].
    destruct (key_taken db result); simpl; [exists []; now rewrite List.app_nil_r |].
    rewrite rows_of_insert. eauto.
  - unfold SaveWebhookAudit. destruct io; exists []; now rewrite List.app_nil_r.
  - unfold SaveNonce. destruct io; [| exists []; now rewrite List.app_nil_r].
    destruct (List.existsb _ _); exists []; now rewrite List.app_nil_r.
Qed.

Lemma run_calls_rows calls : forall db ch r,
  exists more, rows_of (run_calls db calls) ch r = (rows_of db ch r ++ more)%list.
Proof.
  unfold run_calls. induction calls as [|c calls IH]; intros db ch r; simpl.
  - exists []. now rewrite List.app_nil_r.
  - destruct (IH (run_call db c) ch r) as [more2 E2].
    destruct (run_call_rows db c ch r) as [more1 E1].
    exists (more1 ++ more2)%list. now rewrite E2, E1, List.app_assoc.
Qed.

(** A key with a row is taken. *)
Lemma key_taken_of_rows db result :
  rows_of db (Result.ChallengeID result) (Result.RequestID result) <> [] ->
  key_taken db result = true.
Proof.
  intros H. destruct (key_taken db result) eqn:E; [reflexivity |].
  now apply key_taken_false in E.
Qed.

Lemma SaveResultWithDuplicateCheck_taken io db result :
  key_taken db result = true ->
  SaveResultWithDuplicateCheck io db result =
    (db, match io with DriverOK => inr false | DriverFails => inl ErrDriver end).
Proof.
  intros H. unfold SaveResultWithDuplicateCheck. destruct io; [| reflexivity].
  rewrite H. f_equal. f_equal.
  destruct (Z.gtb_spec (Z.of_nat (List.length (results db)) - Z.of_nat (List.length (results db))) 0);
    [lia | reflexivity].
Qed.

Lemma SaveResultWithDuplicateCheck_free db result :
  key_taken db result = false ->
  SaveResultWithDuplicateCheck DriverOK db result = (insert_result db result, inr true).
Proof.
  intros H. unfold SaveResultWithDuplicateCheck. rewrite H. f_equal. f_equal.
  unfold insert_result. simpl. rewrite List.length_app. simpl.
  destruct (Z.gtb_spec (Z.of_nat (List.length (results db) + 1) - Z.of_nat (List.length (results db))) 0);
    [reflexivity | lia].
Qed.

End StoreFacts.


(** ** The callback receiver *)

Module ChallengerFacts.
Import GoStrings Crypto Http ChallengerDB Challenger ChallengerSpec StoreSpec StoreFacts.
Local Open Scope Z_scope.

Lemma HandleCallback_way env db r : Way env db r (HandleCallback env db r).
Proof.
  unfold HandleCallback.
  destruct (decodeBody env r) as [req|] eqn:Edec; [| now apply way_invalid_json].
  destruct (String.eqb_spec (CallbackRequest.ChallengeID req)
              (default "" (Vars r !! "challenge_id"))) as [Eid | Eid]; simpl;
    [| now apply (way_mismatch env db r req)].
  destruct (GetChallenge _ db _) as [e | challenge] eqn:Eget;
    [now apply (way_not_found env db r req e) |].
  destruct (io_SaveResult env) eqn:Eio.
  - destruct (key_taken db (resultOf env r challenge req)) eqn:Ekey.
    + rewrite SaveResultWithDuplicateCheck_taken by exact Ekey. simpl.
      destruct (afterSave env r req (resultOf env r challenge req) true) as [effects resp] eqn:Ea.
      pose proof (way_duplicate env db r req challenge Edec Eid Eget Eio Ekey) as W.
      now rewrite Ea in W.
    + rewrite SaveResultWithDuplicateCheck_free by exact Ekey. simpl.
      destruct (afterSave env r req (resultOf env r challenge req) false) as [effects resp] eqn:Ea.
      pose proof (way_inserted env db r req challenge Edec Eid Eget Eio Ekey) as W.
      now rewrite Ea in W.
  - simpl. now apply (way_save_fails env db r req challenge).
Qed.

(** The response after the save is the acknowledgement with the duplicate
    flag, or the error of the marshalling of the result. *)
Lemma afterSave_response env r req result isDuplicate :
  snd (afterSave env r req result isDuplicate) =
    writeCallbackResponse (default "" (Vars r !! "challenge_id")) isDuplicate \/
  snd (afterSave env r req result isDuplicate) =
    writeError StatusInternalServerError "DB_ERROR" "Failed to marshal result"
      (Header_Get (Hdr r) "X-Request-ID").
Proof.
  unfold afterSave.
  destruct (suiTxBuilder env) as [upload|];
    [destruct (negb isDuplicate && _) |];
    destruct (MarshalResult env result); simpl; auto.
Qed.

End ChallengerFacts.


(** ** C1: one row for a key *)

Module C1.
Import GoStrings Http ChallengerDB Challenger ChallengerSpec StoreSpec StoreFacts ChallengerFacts.
Import Scenario.
Local Open Scope Z_scope.

(** The acknowledgement, when the result can be marshalled for the log. *)
Lemma afterSave_acknowledges env r req result isDuplicate :
  MarshalResult env result <> None ->
  snd (afterSave env r req result isDuplicate) =
    writeCallbackResponse (default "" (Vars r !! "challenge_id")) isDuplicate.
Proof.
  intros Hm. unfold afterSave.
  destruct (suiTxBuilder env) as [upload|];
    [destruct (negb isDuplicate && _) |];
    destruct (MarshalResult env result); simpl; congruence.
Qed.

Lemma SaveWebhookAudit_results io db audit :
  results (fst (SaveWebhookAudit io db audit)) = results db /\
  challenges (fst (SaveWebhookAudit io db audit)) = challenges db.
Proof. unfold SaveWebhookAudit. destruct io; simpl; auto. Qed.

(** A callback that gets as far as the save: what the receiver stores and
    what it answers. *)
Lemma HandleCallback_saves env d r req challenge :
  decodeBody env r = Some req ->
  CallbackRequest.ChallengeID req = default "" (Vars r !! "challenge_id") ->
  GetChallenge (io_GetChallenge env) d (default "" (Vars r !! "challenge_id")) = inr challenge ->
  io_SaveResult env = DriverOK ->
  MarshalResult env (resultOf env r challenge req) <> None ->
  let res := resultOf env r challenge req in
  let wasInserted := negb (key_taken d res) in
  SaveResultWithDuplicateCheck DriverOK d res
  = ((if key_taken d res then d else insert_result d res), inr wasInserted) /\
  results (fst (fst (HandleCallback env d r)))
  = results (if key_taken d res then d else insert_result d res) /\
  challenges (fst (fst (HandleCallback env d r))) = challenges d /\
  snd (HandleCallback env d r)
  = writeCallbackResponse (default "" (Vars r !! "challenge_id")) (negb wasInserted).
Proof.
  intros Hdec Hid Hget Hio Hm res wasInserted. unfold wasInserted.
  unfold HandleCallback. rewrite Hdec, Hid, String.eqb_refl. cbn [negb].
  rewrite Hget, Hio. fold res.
  destruct (key_taken d res) eqn:Ekey.
  - rewrite SaveResultWithDuplicateCheck_taken by exact Ekey. cbn [negb].
    pose proof (afterSave_acknowledges env r req res true Hm) as Ha.
    destruct (afterSave env r req res true) as [effects resp]. cbn [fst snd] in *.
    auto.
  - rewrite SaveResultWithDuplicateCheck_free by exact Ekey. cbn [negb].
    pose proof (afterSave_acknowledges env r req res false Hm) as Ha.
    destruct (afterSave env r req res false) as [effects resp]. cbn [fst snd] in *.
    destruct (SaveWebhookAudit_results (io_SaveWebhookAudit env) (insert_result d res)
                (auditOf env r req)) as [Hr Hc].
    rewrite Hr, Hc. auto.
Qed.

(** C1: the result store holds at most one row for a key, and this stays so
    under every call that changes the store.  The first
    [SaveResultWithDuplicateCheck] for a key inserts the row and returns
    true; after any further calls the row is still the only one of its key,
    and a call with the same key inserts nothing and returns false.

    The receiver saves under the key made of the problem id of the path and
    the [X-Request-ID] header, and, for a callback that gets as far as the
    save, answers 200 with the duplicate flag set to the negation of the
    value that the save returns, leaving in the store what the save left.
    So the first delivery of a request is acknowledged with the flag unset
    and stores one row, and a second delivery of the same request is
    acknowledged with the flag set and stores nothing. *)
Theorem result_store_idempotent (db : ChallengerDB.t) (result : Result.t) :
  at_most_one_row db -> key_taken db result = false ->
  let row := row_of (results_seq db + 1) result in
  let db1 := insert_result db result in
  SaveResultWithDuplicateCheck DriverOK db result = (db1, inr true) /\
  results db1 = (results db ++ [row])%list /\
  (forall calls : list Call,
      let db2 := run_calls db1 calls in
      at_most_one_row db2 /\
      rows_of db2 (Result.ChallengeID result) (Result.RequestID result) = [row] /\
      forall result',
        Result.ChallengeID result' = Result.ChallengeID result ->
        Result.RequestID result' = Result.RequestID result ->
        SaveResultWithDuplicateCheck DriverOK db2 result' = (db2, inr false)) /\
  (forall (env : Env) (d : ChallengerDB.t) (r : Request) (req : CallbackRequest.t)
          (challenge : Challenge.t),
      let id := default "" (Vars r !! "challenge_id") in
      let res := resultOf env r challenge req in
      decodeBody env r = Some req ->
      CallbackRequest.ChallengeID req = id ->
      GetChallenge (io_GetChallenge env) d id = inr challenge ->
      io_SaveResult env = DriverOK ->
      MarshalResult env res <> None ->
      Result.ChallengeID res = id /\
      Result.RequestID res = Header_Get (Hdr r) "X-Request-ID" /\
      exists wasInserted : bool,
        snd (SaveResultWithDuplicateCheck (io_SaveResult env) d res) = inr wasInserted /\
        results (fst (fst (HandleCallback env d r)))
        = results (fst (SaveResultWithDuplicateCheck (io_SaveResult env) d res)) /\
        snd (HandleCallback env d r)
        = mkResponse 200 (CallbackBody (CallbackResponse.mk true id (negb wasInserted)))) /\
  (forall (env env2 : Env) (r : Request) (req req2 : CallbackRequest.t)
          (challenge : Challenge.t),
      let id := default "" (Vars r !! "challenge_id") in
      decodeBody env r = Some req ->
      CallbackRequest.ChallengeID req = id ->
      GetChallenge (io_GetChallenge env) db id = inr challenge ->
      io_SaveResult env = DriverOK ->
      MarshalResult env (resultOf env r challenge req) <> None ->
      result = resultOf env r challenge req ->
      decodeBody env2 r = Some req2 ->
      CallbackRequest.ChallengeID req2 = id ->
      io_GetChallenge env2 = DriverOK ->
      io_SaveResult env2 = DriverOK ->
      MarshalResult env2 (resultOf env2 r challenge req2) <> None ->
      let first := HandleCallback env db r in
      let second := HandleCallback env2 (fst (fst first)) r in
      snd first = mkResponse 200 (CallbackBody (CallbackResponse.mk true id false)) /\
      results (fst (fst first)) = (results db ++ [row])%list /\
      snd second = mkResponse 200 (CallbackBody (CallbackResponse.mk true id true)) /\
      results (fst (fst second)) = results (fst (fst first)) /\
      webhooks (fst (fst second)) = webhooks (fst (fst first))).
Proof.
  intros Hdb Hfree row db1. split; [| split; [| split; [| split]]].
  - now apply SaveResultWithDuplicateCheck_free.
  - reflexivity.
  - intros calls db2.
    assert (H1 : at_most_one_row db1) by now apply insert_keeps_at_most_one.
    assert (H2 : at_most_one_row db2) by now apply run_calls_at_most_one.
    assert (Hrows : rows_of db2 (Result.ChallengeID result) (Result.RequestID result) = [row]).
    { destruct (run_calls_rows calls db1 (Result.ChallengeID result) (Result.RequestID result))
        as [more E].
      fold db2 in E. unfold db1 in E. rewrite rows_of_insert in E.
      rewrite (key_taken_false db result Hfree) in E.
      rewrite !String.eqb_refl in E. simpl in E.
      specialize (H2 (Result.ChallengeID result) (Result.RequestID result)).
      rewrite E in H2. destruct more; [exact E | simpl in H2; lia]. }
    split; [exact H2 |]. split; [exact Hrows |].
    intros result' Ec Er. apply SaveResultWithDuplicateCheck_taken.
    apply key_taken_of_rows. rewrite Ec, Er, Hrows. discriminate.
  - intros env d r req challenge id res Hdec Hid Hget Hio Hm.
    split; [reflexivity |]. split; [reflexivity |].
    destruct (HandleCallback_saves env d r req challenge Hdec Hid Hget Hio Hm)
      as (Hs & Hr & _ & Hresp).
    exists (negb (key_taken d res)). rewrite Hio. fold res in Hs, Hr, Hresp. rewrite Hs.
    split; [reflexivity |]. split; [exact Hr | exact Hresp].
  - intros env env2 r req req2 challenge id Hdec Hid Hget Hio Hm Hres
           Hdec2 Hid2 Hget2 Hio2 Hm2 first second.
    destruct (HandleCallback_saves env db r req challenge Hdec Hid Hget Hio Hm)
      as (_ & Hr & Hc & Hresp).
    rewrite <- Hres in Hr, Hresp. rewrite Hfree in Hr, Hresp. cbn [negb] in Hresp.
    fold first in Hr, Hc, Hresp.
    assert (Hget' : GetChallenge (io_GetChallenge env2) (fst (fst first)) id = inr challenge).
    { unfold GetChallenge in *. rewrite Hget2, Hc.
      destruct (io_GetChallenge env); [exact Hget | discriminate]. }
    destruct (HandleCallback_saves env2 (fst (fst first)) r req2 challenge
                Hdec2 Hid2 Hget' Hio2 Hm2) as (_ & Hr2 & _ & Hresp2).
    assert (Htaken : key_taken (fst (fst first)) (resultOf env2 r challenge req2) = true).
    { unfold key_taken. rewrite Hr. unfold insert_result. cbn [results].
      rewrite List.existsb_app. apply orb_true_iff. right.
      cbn [List.existsb]. rewrite orb_false_r. rewrite Hres.
      unfold has_key, row_of, resultOf.
      cbn [ResultRow.challenge_id ResultRow.request_id Result.ChallengeID Result.RequestID].
      now rewrite !String.eqb_refl. }
    rewrite Htaken in Hr2, Hresp2. cbn [negb] in Hresp2. fold second in Hr2, Hresp2.
    split; [exact Hresp |]. split; [exact Hr |]. split; [exact Hresp2 |].
    split; [exact Hr2 |].
    unfold second, HandleCallback. rewrite Hdec2, Hid2, String.eqb_refl. cbn [negb].
    fold id. rewrite Hget', Hio2.
    rewrite SaveResultWithDuplicateCheck_taken by exact Htaken. cbn [negb].
    destruct (afterSave env2 r req2 (resultOf env2 r challenge req2) true). reflexivity.
Qed.

Lemma result_store_idempotent_witness :
  let r := request0 headers0 body_compact in
  let first := HandleCallback env0 db0 r in
  let second := HandleCallback env0 (fst (fst first)) r in
  at_most_one_row db0 /\
  snd first = mkResponse 200 (CallbackBody (CallbackResponse.mk true "ch_m1" false)) /\
  List.length (results (fst (fst first))) = 1%nat /\
  snd second = mkResponse 200 (CallbackBody (CallbackResponse.mk true "ch_m1" true)) /\
  results (fst (fst second)) = results (fst (fst first)) /\
  SaveResultWithDuplicateCheck DriverOK db0 (resultOf env0 r challenge0 callback0)
  = (insert_result db0 (resultOf env0 r challenge0 callback0), inr true).
Proof.
  intros r first second.
  assert (H : at_most_one_row db0).
  { intros c q. simpl. lia. }
  destruct (result_store_idempotent db0 (resultOf env0 r challenge0 callback0) H eq_refl)
    as (H1 & _ & _ & _ & H5).
  destruct (H5 env0 env0 r callback0 callback0 challenge0
              eq_refl eq_refl eq_refl eq_refl ltac:(discriminate) eq_refl
              eq_refl eq_refl eq_refl eq_refl ltac:(discriminate))
    as (F1 & F2 & F3 & F4 & _).
  split; [exact H |]. split; [exact F1 |].
  split; [fold first in F2; rewrite F2; reflexivity |].
  split; [exact F3 |]. split; [exact F4 | exact H1].
Defined.

End C1.


(** ** C7: the header that names the solver *)

Module C7.
Import GoStrings GoNum Http Auth ChallengerDB Challenger ChallengerSpec StoreSpec.
Import StoreFacts ChallengerFacts Solver Scenario Scenario2.
Local Open Scope Z_scope.

(** What [SendCallback] hands to the HTTP client. *)
Lemma SendCallback_sent cfg h env url req o :
  In o (fst (SendCallback cfg h env url req)) ->
  exists body address,
    MarshalCallbackRequest env req = Some body /\
    signerAddress env (SolverMnemonic cfg) = Some address /\
    o = mkOutRequest "POST" url
          (Header_Set
             (Header_Set
                (Header_Set (Header_Set ∅ "Content-Type" "application/json")
                   "Authorization"
                   (CreateAuthHeader h (clock env) "POST"
                      ("/callback/" +++ CallbackRequest.ChallengeID req) body
                      (ChalHMACKeyID cfg) (nonceUUID env)))
                "X-Request-ID" (requestUUID env))
             "X-Solver-Address" address)
          body.
Proof.
  unfold SendCallback.
  destruct (MarshalCallbackRequest env req) as [body|]; [| intros []].
  destruct (String.eqb _ ""); [intros [] |].
  destruct (negb (NewRequestOK env url)); [intros [] |].
  destruct (signerAddress env (SolverMnemonic cfg)) as [address|]; [| intros []].
  destruct (clientDo env _); simpl; intros [<- | []]; exists body, address; auto.
Qed.

Lemma SendCallback_sent_address cfg h env url req o :
  In o (fst (SendCallback cfg h env url req)) ->
  exists address,
    signerAddress env (SolverMnemonic cfg) = Some address /\
    Header_Get (out_Header o) "X-Solver-Address" = address.
Proof.
  intros H. apply SendCallback_sent in H as (body & address & _ & Ha & ->).
  exists address. split; [exact Ha |].
  unfold Header_Get, Header_Set. simpl out_Header.
  change (CanonicalMIMEHeaderKey "X-Solver-Address") with "X-Solver-Address".
  now rewrite lookup_insert_eq.
Qed.

(** The solver address of the row that a call of the receiver stores. *)
Lemma HandleCallback_solver_address env db r :
  let db' := fst (fst (HandleCallback env db r)) in
  results db' = results db \/
  exists row,
    results db' = (results db ++ [row])%list /\
    ResultRow.solver_address row = solverAddressOf r.
Proof.
  destruct (HandleCallback_way env db r) as [| | | | |req challenge]; simpl; auto.
  right. exists (row_of (results_seq db + 1) (resultOf env r challenge req)).
  split; [| reflexivity].
  unfold SaveWebhookAudit. destruct (io_SaveWebhookAudit env); reflexivity.
Qed.

(** C7, as stated, fails: the request that the sender transmits has no
    header [X-Solver-Identity], and the receiver does not read one: for a
    callback that carries [X-Solver-Identity: solver-A] the stored solver
    identity is the placeholder. *)
Lemma X_Solver_Identity_is_not_used :
  (exists o,
      fst (SendCallback solver_cfg solver_auth (sendEnv0 200 0) callback_url callback0) = [o] /\
      out_Header o !! "X-Solver-Identity" = None /\
      Header_Get (out_Header o) "X-Solver-Address" = solver_address) /\
  Header_Get headers_identity "X-Solver-Identity" = "solver-A" /\
  List.map ResultRow.solver_address
    (results (fst (fst (HandleCallback env0 db0 (request0 headers_identity body_compact)))))
  = [placeholder15].
Proof.
  split; [eexists; repeat apply conj; vm_compute; reflexivity |].
  apply conj; vm_compute; reflexivity.
Qed.

(** C7, amended: every request that the sender transmits carries the header
    [X-Solver-Address] with the address of the signer made from the solver's
    mnemonic; the receiver stores, as the solver identity of a result, the
    value of [X-Solver-Address], and when that header is absent or empty the
    placeholder ["0x"] followed by the length of the peer's address as forty
    hexadecimal digits. *)
Theorem solver_address_header :
  (forall cfg h env url req o,
      In o (fst (SendCallback cfg h env url req)) ->
      exists address,
        signerAddress env (SolverMnemonic cfg) = Some address /\
        Header_Get (out_Header o) "X-Solver-Address" = address) /\
  (forall env db r,
      let db' := fst (fst (HandleCallback env db r)) in
      results db' = results db \/
      exists row,
        results db' = (results db ++ [row])%list /\
        ResultRow.solver_address row =
          if String.eqb (Header_Get (Hdr r) "X-Solver-Address") ""
          then "0x" +++ String.substring 0 40
                          (Sprintf_040x (Z.of_nat (String.length (RemoteAddr r))))
          else Header_Get (Hdr r) "X-Solver-Address").
Proof.
  split.
  - exact SendCallback_sent_address.
  - exact HandleCallback_solver_address.
Qed.

Lemma solver_address_header_witness :
  (exists address,
      Some solver_address = Some address /\
      Header_Get
        (out_Header
           (hd (mkOutRequest "" "" ∅ "")
              (fst (SendCallback solver_cfg solver_auth (sendEnv0 200 0) callback_url callback0))))
        "X-Solver-Address" = address) /\
  List.map ResultRow.solver_address
    (results (fst (fst (HandleCallback env0 db0 (request0 headers_address body_compact)))))
  = [solver_address].
Proof.
  destruct solver_address_header as [Hsend Hrecv]. split.
  - apply (Hsend solver_cfg solver_auth (sendEnv0 200 0) callback_url callback0).
    vm_compute. left. reflexivity.
  - destruct (Hrecv env0 db0 (request0 headers_address body_compact)) as [E | (row & E & Ha)].
    + vm_compute in E. discriminate E.
    + rewrite E. vm_compute in Ha. vm_compute. now rewrite Ha.
Defined.

End C7.


(** ** C8 and C9: the audit record and the errors of the store *)

Module C8.
Import GoStrings GoNum Crypto Http Auth ChallengerDB Challenger ChallengerSpec StoreSpec.
Import StoreFacts ChallengerFacts Scenario Scenario2.
Local Open Scope Z_scope.

Lemma app_one_neq {A} (l : list A) (x : A) : (l ++ [x])%list <> l.
Proof.
  intros H. apply (f_equal (@List.length A)) in H.
  rewrite List.length_app in H. simpl in H. lia.
Qed.

(** C8 (code defect): the body hash of the audit record is meant to be
    the SHA-256 of the request body (the field [BodyHash] of
    [models.WebhookAudit] is described as the hash of the request body, and
    the handler calls the hashed bytes [bodyBytes]), but the handler hashes
    [json.Marshal(callbackReq)], the decoded request marshalled again.  For
    a callback whose body has a space after every colon and comma, which
    decodes to the same request, the record holds the hash of the document
    without the spaces and not that of the bytes received. *)
Theorem audit_hash_is_not_of_the_raw_body :
  ReadAll (Body (request0 headers0 body_spaced)) = (body_spaced, None) /\
  List.map WebhookAudit.BodyHash
    (webhooks (fst (fst (HandleCallback env0 db0 (request0 headers0 body_spaced)))))
  = [BodySHA256Hex body_compact] /\
  BodySHA256Hex body_compact <> BodySHA256Hex body_spaced.
Proof.
  split; [reflexivity |].
  split; [vm_compute; reflexivity | vm_compute; discriminate].
Qed.

(** When the receiver writes an audit record: only when it has stored a
    new result (a callback that is not a duplicate), and then one record,
    provided that the store takes it, with the hash of the decoded callback
    request marshalled again and the serialized request headers.  A duplicate
    callback, acknowledged with the duplicate flag set, writes none. *)
Lemma audit_record_of_new_result (env : Env) (db : ChallengerDB.t) (r : Request) :
  let db' := fst (fst (HandleCallback env db r)) in
  let resp := snd (HandleCallback env db r) in
  (forall cr, Content resp = CallbackBody cr -> CallbackResponse.Duplicate cr = true ->
              webhooks db' = webhooks db) /\
  (results db' = results db -> webhooks db' = webhooks db) /\
  (results db' <> results db ->
   exists req,
     decodeBody env r = Some req /\
     webhooks db' =
       match io_SaveWebhookAudit env with
       | DriverOK => (webhooks db ++ [audit_row env db r req])%list
       | DriverFails => webhooks db
       end).
Proof.
  destruct (HandleCallback_way env db r)
    as [| | | | req challenge ? ? ? ? Ekey | req challenge Edec ? ? ? Ekey];
    simpl; repeat apply conj; auto; try congruence.
  - (* inserted: the flag is not set *)
    intros cr Hresp Hdup.
    destruct (afterSave_response env r req (resultOf env r challenge req) false) as [E | E];
      rewrite E in Hresp; simpl in Hresp; [| discriminate].
    inversion Hresp; subst cr. discriminate Hdup.
  - intros Hsame. exfalso. revert Hsame.
    unfold SaveWebhookAudit. destruct (io_SaveWebhookAudit env); simpl; apply app_one_neq.
  - intros _. exists req. split; [exact Edec |].
    unfold SaveWebhookAudit. destruct (io_SaveWebhookAudit env); reflexivity.
Qed.

Lemma audit_record_of_new_result_witness :
  List.map WebhookAudit.BodyHash
    (webhooks (fst (fst (HandleCallback env0 db0 (request0 headers0 body_compact)))))
  = [BodySHA256Hex body_compact].
Proof.
  destruct (audit_record_of_new_result env0 db0 (request0 headers0 body_compact))
    as (_ & _ & H).
  destruct H as (req & Edec & Ew).
  - vm_compute. discriminate.
  - rewrite Ew. vm_compute in Edec. inversion Edec; subst req.
    vm_compute. reflexivity.
Defined.

End C8.

Module C9.
Import GoStrings GoNum Crypto Http Auth ChallengerDB Challenger ChallengerSpec StoreSpec.
Import StoreFacts ChallengerFacts Scenario Scenario2.
Local Open Scope Z_scope.

(** C9 (code defect): a failure of the store is meant to surface as 500
    DB_ERROR, as it does when the save of the result fails in the same
    handler, and 404 to mean that the problem is not in the store.
    [GetChallenge] reports a problem that does not exist as an error, and the
    receiver answers every error of the lookup with 404: when the driver
    fails on the lookup of the stored problem [ch_m1], the response is 404
    CHALLENGE_NOT_FOUND and not 500 DB_ERROR. *)
Theorem lookup_failure_is_answered_404 :
  GetChallenge DriverOK db0 "ch_none" = inl ErrNoRows /\
  GetChallenge DriverOK db0 "ch_m1" = inr challenge0 /\
  GetChallenge (io_GetChallenge env_lookup_fails) db0 "ch_m1" = inl ErrDriver /\
  snd (HandleCallback env_lookup_fails db0 (request0 headers0 body_compact))
  = writeError 404 "CHALLENGE_NOT_FOUND" "Challenge not found" "req-1" /\
  snd (HandleCallback env_save_fails db0 (request0 headers0 body_compact))
  = writeError 500 "DB_ERROR" "Failed to save result" "req-1".
Proof. repeat apply conj; vm_compute; reflexivity. Qed.

(** How the receiver answers the errors of the store, for a callback whose
    body decodes and names the problem of the path: every failure of the
    lookup with 404 CHALLENGE_NOT_FOUND, a failure of the save with 500
    DB_ERROR; neither changes the store. *)
Lemma callback_store_errors (env : Env) (db : ChallengerDB.t) (r : Request)
    (req : CallbackRequest.t) :
  decodeBody env r = Some req ->
  CallbackRequest.ChallengeID req = default "" (Vars r !! "challenge_id") ->
  let id := default "" (Vars r !! "challenge_id") in
  let requestID := Header_Get (Hdr r) "X-Request-ID" in
  (List.find (fun c => String.eqb (Challenge.ID c) id) (challenges db) = None ->
   GetChallenge DriverOK db id = inl ErrNoRows) /\
  (forall e, GetChallenge (io_GetChallenge env) db id = inl e ->
     HandleCallback env db r =
       (db, [], writeError 404 "CHALLENGE_NOT_FOUND" "Challenge not found" requestID)) /\
  (forall challenge, GetChallenge (io_GetChallenge env) db id = inr challenge ->
     io_SaveResult env = DriverFails ->
     HandleCallback env db r =
       (db, [], writeError 500 "DB_ERROR" "Failed to save result" requestID)).
Proof.
  intros Hdec Hid id requestID. repeat apply conj.
  - intros Hnone. unfold GetChallenge. now rewrite Hnone.
  - intros e He. unfold HandleCallback. rewrite Hdec, Hid, String.eqb_refl. simpl.
    fold id. now rewrite He.
  - intros challenge Hc Hio. unfold HandleCallback.
    rewrite Hdec, Hid, String.eqb_refl. simpl. fold id. rewrite Hc, Hio. reflexivity.
Qed.

Lemma callback_store_errors_witness :
  HandleCallback env_lookup_fails db0 (request0 headers0 body_compact) =
    (db0, [], writeError 404 "CHALLENGE_NOT_FOUND" "Challenge not found" "req-1") /\
  HandleCallback env_save_fails db0 (request0 headers0 body_compact) =
    (db0, [], writeError 500 "DB_ERROR" "Failed to save result" "req-1").
Proof.
  split.
  - destruct (callback_store_errors env_lookup_fails db0 (request0 headers0 body_compact)
                callback0 eq_refl eq_refl) as (_ & H & _).
    exact (H ErrDriver eq_refl).
  - destruct (callback_store_errors env_save_fails db0 (request0 headers0 body_compact)
                callback0 eq_refl eq_refl) as (_ & _ & H).
    exact (H challenge0 eq_refl eq_refl).
Defined.

End C9.


(** ** C4: the size limit *)

Module MiddlewareFacts.
Import GoStrings GoNum Http Auth ChallengerDB Middleware Scenario Scenario3.
Local Open Scope Z_scope.

Lemma repeat_byte_length n c : String.length (repeat_byte n c) = n.
Proof. induction n as [|n IH]; simpl; [reflexivity | now rewrite IH]. Qed.

Lemma ReadAll_SizeLimit_fits r body :
  Body r = Bytes body -> Z.of_nat (String.length body) <= MaxRequestSize ->
  ReadAll (Body (SizeLimit r)) = (body, None).
Proof.
  intros Hb Hl. unfold SizeLimit. simpl. rewrite Hb. simpl.
  destruct (Z.leb_spec (Z.of_nat (String.length body)) MaxRequestSize); [reflexivity | lia].
Qed.

Lemma ReadAll_SizeLimit_over r body :
  Body r = Bytes body -> MaxRequestSize < Z.of_nat (String.length body) ->
  ReadAll (Body (SizeLimit r)) =
    (String.substring 0 (Z.to_nat MaxRequestSize) body, Some ErrBodyTooLarge).
Proof.
  intros Hb Hl. unfold SizeLimit. simpl. rewrite Hb. simpl.
  destruct (Z.leb_spec (Z.of_nat (String.length body)) MaxRequestSize); [lia | reflexivity].
Qed.

(** The authentication looks at the body through [ReadAll] only. *)
Lemma HMACAuth_reads h now io db r1 r2 :
  Method r1 = Method r2 -> EscapedPath r1 = EscapedPath r2 -> Hdr r1 = Hdr r2 ->
  RemoteAddr r1 = RemoteAddr r2 -> Vars r1 = Vars r2 ->
  ReadAll (Body r1) = ReadAll (Body r2) ->
  HMACAuth h now io db r1 = HMACAuth h now io db r2.
Proof.
  intros Hm Hp Hh Ha Hv Hr. unfold HMACAuth, with_Body, with_Header.
  rewrite Hm, Hp, Hh, Ha, Hv, Hr. reflexivity.
Qed.

Lemma protectedStages_fits h now io db r body :
  Body r = Bytes body -> Z.of_nat (String.length body) <= MaxRequestSize ->
  protectedStages h now io db r = HMACAuth h now io db r.
Proof.
  intros Hb Hl. unfold protectedStages. apply HMACAuth_reads; try reflexivity.
  rewrite (ReadAll_SizeLimit_fits r body Hb Hl), Hb. reflexivity.
Qed.

Lemma protectedStages_over h now io db r body authInfo :
  Body r = Bytes body -> MaxRequestSize < Z.of_nat (String.length body) ->
  Header_Get (Hdr r) "Authorization" <> "" ->
  ParseAuthHeader (Header_Get (Hdr r) "Authorization") = inr authInfo ->
  protectedStages h now io db r =
    (db, Answered (writeError 400 "READ_ERROR" "Failed to read request body"
                     (Header_Get (Hdr r) "X-Request-ID"))).
Proof.
  intros Hb Hl Hne Hparse. unfold protectedStages, HMACAuth.
  rewrite (ReadAll_SizeLimit_over r body Hb Hl).
  change (Hdr (SizeLimit r)) with (Hdr r).
  apply String.eqb_neq in Hne. rewrite Hne, Hparse. reflexivity.
Qed.

(** The statuses with which the authentication answers. *)
Lemma HMACAuth_status h now io db r db' resp :
  HMACAuth h now io db r = (db', Answered resp) ->
  StatusCode resp = 401 \/ StatusCode resp = 400.
Proof.
  unfold HMACAuth.
  destruct (String.eqb _ ""); [intros E; inversion E; now left |].
  destruct (ParseAuthHeader _) as [e | authInfo]; [intros E; inversion E; now left |].
  destruct (ReadAll (Body r)) as [body [e|]]; [intros E; inversion E; now right |].
  destruct (negb (checkNonce _ db _)); [intros E; inversion E; now left |].
  destruct (VerifySignature _ _ _ _ _ _); intros E; inversion E; now left.
Qed.

End MiddlewareFacts.

Module C4.
Import GoStrings GoNum Http Auth ChallengerDB Middleware Scenario Scenario3 MiddlewareFacts.
Local Open Scope Z_scope.

(** C4, as stated, fails: a signed request with a body of 5 MiB + 1 byte
    is answered with status 400 and code READ_ERROR, not with 413. *)
Lemma oversized_body_is_answered_400 :
  Z.of_nat (String.length body_over_limit) = 5 * 1024 * 1024 + 1 /\
  protectedStages solver_auth 1700000000 nonce_io db0 (request0 headers_signed body_over_limit)
  = (db0, Answered (writeError 400 "READ_ERROR" "Failed to read request body" "req-1")) /\
  400 <> StatusRequestEntityTooLarge.
Proof.
  assert (Hl : Z.of_nat (String.length body_over_limit) = 5 * 1024 * 1024 + 1).
  { unfold body_over_limit. rewrite repeat_byte_length. now rewrite Z2Nat.id. }
  split; [exact Hl |]. split; [| discriminate].
  eapply (protectedStages_over _ _ _ _ (request0 headers_signed body_over_limit)
            body_over_limit).
  - reflexivity.
  - rewrite Hl. reflexivity.
  - vm_compute. discriminate.
  - vm_compute. reflexivity.
Qed.

(** C4, amended: on a protected endpoint a request body of exactly 5 MiB
    passes the size limit: the authentication reads all of it, and the size
    limit makes no difference to what follows.  A body of 5 MiB + 1 byte
    makes the read of the authentication fail, and a request whose
    [Authorization] header parses is then answered with status 400 and code
    READ_ERROR.  The two stages never answer with status 413. *)
Theorem body_size_limit (h : Auth.HMACAuth) (now : Z) (io : NonceIO) (db : ChallengerDB.t)
    (r : Request) (body : string) :
  Body r = Bytes body ->
  (Z.of_nat (String.length body) = 5 * 1024 * 1024 ->
   ReadAll (Body (SizeLimit r)) = (body, None) /\
   protectedStages h now io db r = HMACAuth h now io db r) /\
  (Z.of_nat (String.length body) = 5 * 1024 * 1024 + 1 ->
   snd (ReadAll (Body (SizeLimit r))) = Some ErrBodyTooLarge /\
   forall authInfo,
     Header_Get (Hdr r) "Authorization" <> "" ->
     ParseAuthHeader (Header_Get (Hdr r) "Authorization") = inr authInfo ->
     protectedStages h now io db r =
       (db, Answered (writeError 400 "READ_ERROR" "Failed to read request body"
                        (Header_Get (Hdr r) "X-Request-ID")))) /\
  (forall db' resp,
      protectedStages h now io db r = (db', Answered resp) -> StatusCode resp <> 413).
Proof.
  intros Hb.
  assert (Hmax : MaxRequestSize = 5 * 1024 * 1024) by reflexivity.
  split; [| split].
  - intros Hl. split.
    + apply ReadAll_SizeLimit_fits; [exact Hb | lia].
    + apply (protectedStages_fits h now io db r body Hb). lia.
  - intros Hl. split.
    + rewrite (ReadAll_SizeLimit_over r body Hb); [reflexivity | lia].
    + intros authInfo. apply (protectedStages_over h now io db r body authInfo Hb). lia.
  - intros db' resp E. apply HMACAuth_status in E.
    destruct E as [E | E]; rewrite E; discriminate.
Qed.

Lemma body_size_limit_witness :
  ReadAll (Body (SizeLimit (request0 headers_signed body_at_limit))) = (body_at_limit, None).
Proof.
  assert (Hl : Z.of_nat (String.length body_at_limit) = 5 * 1024 * 1024).
  { unfold body_at_limit. rewrite repeat_byte_length. now rewrite Z2Nat.id. }
  destruct (body_size_limit solver_auth 1700000000 nonce_io db0
              (request0 headers_signed body_at_limit) body_at_limit eq_refl)
    as (H & _).
  exact (proj1 (H Hl)).
Defined.

End C4.


(** ** C3: the retry loop *)

Module RetryFacts.
Import GoStrings GoNum Http Auth ChallengerDB Solver SolverFacts Scenario Scenario2.
Local Open Scope Z_scope.

(** [SendCallback] hands at most one request to the HTTP client. *)
Lemma SendCallback_at_most_one cfg h env url req :
  (List.length (fst (SendCallback cfg h env url req)) <= 1)%nat.
Proof.
  unfold SendCallback.
  destruct (MarshalCallbackRequest env req); [| simpl; lia].
  destruct (String.eqb _ ""); [simpl; lia |].
  destruct (negb _); [simpl; lia |].
  destruct (signerAddress env _); [| simpl; lia].
  destruct (clientDo env _); simpl; lia.
Qed.

Lemma attempts_app a b : attempts (a ++ b) = (attempts a + attempts b)%nat.
Proof. unfold attempts. now rewrite List.filter_app, List.length_app. Qed.

Lemma attempts_Sent sent : attempts (List.map Sent sent) = List.length sent.
Proof.
  unfold attempts. induction sent as [|o sent IH]; simpl; [reflexivity | now rewrite IH].
Qed.

(** The loop makes at most as many attempts as it has iterations. *)
Lemma retryLoop_attempts cfg h env challenge req :
  forall remaining attempt db,
    (attempts (snd (fst (retryLoop cfg h env challenge req remaining attempt db)))
     <= remaining)%nat.
Proof.
  induction remaining as [|remaining IH]; intros attempt db;
    [unfold attempts; simpl; lia |].
  cbn [retryLoop].
  pose proof (SendCallback_at_most_one cfg h (sendEnv env attempt)
                (PendingChallenge.CallbackURL challenge) req) as Hone.
  destruct (SendCallback _ _ _ _ _) as [sent [|[statusCode err]]]; cbn [fst snd] in *.
  - rewrite attempts_Sent. lia.
  - destruct (_ && _ && _); cbn [fst snd]; [rewrite attempts_Sent; lia |].
    destruct (negb (shouldRetry _ _)); cbn [fst snd]; [rewrite attempts_Sent; lia |].
    destruct (Z.of_nat attempt =? MaxRetryAttempts - 1); cbn [fst snd];
      [rewrite attempts_Sent; lia |].
    match goal with
    | |- context [retryLoop ?c ?a ?e ?ch ?r ?rm ?at' ?d] =>
        specialize (IH at' d); destruct (retryLoop c a e ch r rm at' d) as [[db' later] ret]
    end.
    cbn [fst snd] in *. rewrite !attempts_app, attempts_Sent.
    match goal with
    | |- context [attempts [Slept ?d]] => change (attempts [Slept d]) with 0%nat
    end.
    lia.
Qed.

Lemma sendCallbackWithRetry_at_most_six cfg h env challenge req db :
  (attempts (snd (fst (sendCallbackWithRetry cfg h env challenge req db))) <= 6)%nat.
Proof. unfold sendCallbackWithRetry. apply retryLoop_attempts. Qed.

End RetryFacts.

Module C3.
Import GoStrings GoNum Http Auth ChallengerDB Solver SolverFacts Scenario Scenario2 RetryFacts.
Local Open Scope Z_scope.

(** C3 (code defect): a response status that is neither 429 nor in 500 to
    599 is to end the delivery.  [shouldRetry] tests [statusCode >= 500]
    without an upper bound, although its comments speak of 5xx and say that
    other status codes are not retried: a callback target that answers 600
    is tried six times, with the five pauses in between, where one attempt is
    due, as for the status 404. *)
Theorem status_600_is_retried :
  shouldRetry 600 false = true /\
  (let '(db, events, ret) :=
     sendCallbackWithRetry solver_cfg solver_auth (retryEnv0 600) pending0 callback0 solverdb0 in
   attempts events = 6%nat /\
   List.length (List.filter (fun e => negb (is_Sent e)) events) = 5%nat /\
   ret = Returns (Some ErrAfterAttempts)) /\
  (let '(db, events, ret) :=
     sendCallbackWithRetry solver_cfg solver_auth (retryEnv0 404) pending0 callback0 solverdb0 in
   attempts events = 1%nat /\ ret = Returns (Some (ErrNonRetryable 404 None))).
Proof. repeat apply conj; vm_compute; reflexivity. Qed.

End C3.


(** ** C5: the numeric tolerance *)

Module FloatFacts.
Import GoNum.
Local Open Scope Z_scope.

(** *** Digits and shifts *)

Lemma digits2_pos_bounds (m : positive) :
  2 ^ (Zpos (digits2_pos m) - 1) <= Zpos m < 2 ^ Zpos (digits2_pos m).
Proof.
  induction m as [m IH | m IH |]; simpl digits2_pos.
  - rewrite Pos2Z.inj_succ.
    replace (Z.succ (Zpos (digits2_pos m)) - 1) with (Z.succ (Zpos (digits2_pos m) - 1)) by lia.
    rewrite !Z.pow_succ_r by lia. lia.
  - rewrite Pos2Z.inj_succ.
    replace (Z.succ (Zpos (digits2_pos m)) - 1) with (Z.succ (Zpos (digits2_pos m) - 1)) by lia.
    rewrite !Z.pow_succ_r by lia. lia.
  - simpl. lia.
Qed.

(** The number of digits is determined by the bounds. *)
Lemma digits_unique (n a b : Z) :
  0 < a -> 0 < b -> 2 ^ (a - 1) <= n < 2 ^ a -> 2 ^ (b - 1) <= n < 2 ^ b -> a = b.
Proof.
  intros Ha Hb [Ha1 Ha2] [Hb1 Hb2].
  destruct (Z.lt_trichotomy a b) as [H | [H | H]]; [| exact H |].
  - assert (2 ^ a <= 2 ^ (b - 1)) by (apply Z.pow_le_mono_r; lia). lia.
  - assert (2 ^ b <= 2 ^ (a - 1)) by (apply Z.pow_le_mono_r; lia). lia.
Qed.

Lemma iter_xO m d : Zpos (Pos.iter xO m d) = Zpos m * 2 ^ Zpos d.
Proof.
  induction d as [|d IH] using Pos.peano_ind.
  - simpl. lia.
  - rewrite Pos.iter_succ, Pos2Z.inj_xO, IH, Pos2Z.inj_succ, Z.pow_succ_r by lia. lia.
Qed.

Lemma shl_align_value mx ex ez :
  ez <= ex -> Zpos (fst (shl_align mx ex ez)) = Zpos mx * 2 ^ (ex - ez).
Proof.
  intros H. unfold shl_align.
  destruct (ez - ex) as [|p|d] eqn:E; simpl.
  - replace (ex - ez) with 0 by lia. simpl. lia.
  - lia.
  - rewrite iter_xO. f_equal. f_equal. lia.
Qed.

Lemma shr_1_m mrs : 0 <= shr_m mrs -> shr_m (shr_1 mrs) = shr_m mrs / 2.
Proof.
  destruct mrs as [m r s]. cbn [shr_m]. intros Hm.
  destruct m as [|[p|p|]|p]; cbn [shr_1 shr_m]; try lia; try reflexivity.
  - rewrite Pos2Z.inj_xI. apply (Z.div_unique _ 2 _ 1); lia.
  - rewrite Pos2Z.inj_xO. apply (Z.div_unique _ 2 _ 0); lia.
Qed.

Lemma iter_pos_shr_1 p : forall mrs,
  0 <= shr_m mrs -> shr_m (SpecFloat.iter_pos shr_1 p mrs) = shr_m mrs / 2 ^ Zpos p.
Proof.
  assert (Hpow : forall q, 0 < 2 ^ Zpos q) by (intros q; apply Z.pow_pos_nonneg; lia).
  induction p as [p IH | p IH |]; intros mrs Hm; simpl SpecFloat.iter_pos.
  - assert (H1 : 0 <= shr_m (shr_1 mrs)).
    { rewrite shr_1_m by exact Hm. apply Z.div_pos; lia. }
    assert (H2 : 0 <= shr_m (SpecFloat.iter_pos shr_1 p (shr_1 mrs))).
    { rewrite IH by exact H1. apply Z.div_pos; [exact H1 | apply Hpow]. }
    rewrite IH by exact H2. rewrite IH by exact H1. rewrite shr_1_m by exact Hm.
    pose proof (Hpow p).
    rewrite !Z.div_div by lia.
    f_equal. rewrite Pos2Z.inj_xI, Z.pow_add_r, Z.pow_mul_r by lia.
    change (2 ^ 2) with 4. change (2 ^ 1) with 2.
    replace (4 ^ Zpos p) with (2 ^ Zpos p * 2 ^ Zpos p); [lia |].
    rewrite <- Z.pow_add_r by lia. replace (Zpos p + Zpos p) with (2 * Zpos p) by lia.
    now rewrite Z.pow_mul_r by lia.
  - assert (H2 : 0 <= shr_m (SpecFloat.iter_pos shr_1 p mrs)).
    { rewrite IH by exact Hm. apply Z.div_pos; [exact Hm | apply Hpow]. }
    rewrite IH by exact H2. rewrite IH by exact Hm.
    pose proof (Hpow p).
    rewrite Z.div_div by lia.
    f_equal. rewrite <- Z.pow_add_r by lia. f_equal. lia.
  - rewrite shr_1_m by exact Hm. reflexivity.
Qed.


(** *** Rounding does not lose a number that is not zero *)

Section Rounding.
Variables prec emax : Z.
Hypothesis prec_pos : 0 < prec.

Lemma fexp_ge_emin e : SpecFloat.emin prec emax <= fexp prec emax e.
Proof. unfold fexp. apply Z.le_max_r. Qed.

Lemma shr_record_of_loc_m m l : shr_m (shr_record_of_loc m l) = m.
Proof. destruct l as [|[]]; reflexivity. Qed.

Lemma shr_fexp_pos m e l :
  0 < m -> SpecFloat.emin prec emax <= e ->
  0 < shr_m (fst (shr_fexp prec emax m e l)) /\
  SpecFloat.emin prec emax <= snd (shr_fexp prec emax m e l).
Proof.
  intros Hm He. destruct m as [|p|p]; try lia.
  unfold shr_fexp, shr. cbn [Zdigits2].
  pose proof (digits2_pos_bounds p) as [Hlow _].
  set (d := Zpos (digits2_pos p)) in *.
  destruct (fexp prec emax (d + e) - e) as [|q|q] eqn:En; cbn [fst snd];
    rewrite ?shr_record_of_loc_m; try lia.
  assert (Hq : Zpos q <= d - 1).
  { unfold fexp in En. lia. }
  split; [| lia].
  rewrite iter_pos_shr_1 by (rewrite shr_record_of_loc_m; lia).
  rewrite shr_record_of_loc_m.
  apply Z.div_str_pos. split; [apply Z.pow_pos_nonneg; lia |].
  etransitivity; [| exact Hlow]. apply Z.pow_le_mono_r; lia.
Qed.

Lemma round_nearest_even_pos m l : 0 < m -> 0 < round_nearest_even m l.
Proof.
  intros Hm. unfold round_nearest_even.
  destruct l as [|[]]; try lia. destruct (Z.even m); lia.
Qed.

Lemma binary_round_aux_not_zero sx m e l :
  0 < m -> SpecFloat.emin prec emax <= e ->
  is_zero (binary_round_aux prec emax sx m e l) = false.
Proof.
  intros Hm He. unfold binary_round_aux.
  pose proof (shr_fexp_pos m e l Hm He) as [H1 H2].
  destruct (shr_fexp prec emax m e l) as [mrs' e']. cbn [fst snd] in *.
  pose proof (round_nearest_even_pos (shr_m mrs') (loc_of_shr_record mrs') H1) as H3.
  pose proof (shr_fexp_pos _ e' loc_Exact H3 H2) as [H4 _].
  destruct (shr_fexp prec emax _ e' loc_Exact) as [mrs'' e'']. cbn [fst snd] in *.
  destruct (shr_m mrs'') as [|p|p]; try lia.
  destruct (e'' <=? emax - prec); reflexivity.
Qed.

Lemma binary_round_not_zero sx mx ex :
  SpecFloat.emin prec emax <= ex ->
  is_zero (binary_round prec emax sx mx ex) = false.
Proof.
  intros He. unfold binary_round.
  destruct (shl_align mx ex (fexp prec emax (Zpos (digits2_pos mx) + ex))) as [mz ez] eqn:E.
  apply binary_round_aux_not_zero; [lia |].
  unfold shl_align in E.
  destruct (fexp prec emax (Zpos (digits2_pos mx) + ex) - ex); inversion E; subst;
    try exact He. apply fexp_ge_emin.
Qed.

Lemma binary_normalize_not_zero m e szero :
  m <> 0 -> SpecFloat.emin prec emax <= e ->
  is_zero (binary_normalize prec emax m e szero) = false.
Proof.
  intros Hm He. destruct m as [|p|p]; [congruence | |]; simpl;
    now apply binary_round_not_zero.
Qed.

(** A canonical mantissa has an exponent above the least one, and its
    digits determine the exponent. *)
Lemma bounded_emin m e :
  bounded prec emax m e = true -> SpecFloat.emin prec emax <= e.
Proof.
  unfold bounded, canonical_mantissa. intros H.
  apply andb_true_iff in H as [H _]. apply Z.eqb_eq in H.
  rewrite <- H. apply fexp_ge_emin.
Qed.

Lemma bounded_canonical m e :
  bounded prec emax m e = true -> fexp prec emax (Zpos (digits2_pos m) + e) = e.
Proof.
  unfold bounded, canonical_mantissa. intros H.
  apply andb_true_iff in H as [H _]. now apply Z.eqb_eq in H.
Qed.

(** Two canonical mantissas of the same value are the same. *)
Lemma canonical_same_value mx ex my ey :
  bounded prec emax mx ex = true -> bounded prec emax my ey = true ->
  ex <= ey -> Zpos mx = Zpos my * 2 ^ (ey - ex) -> ex = ey /\ mx = my.
Proof.
  intros Hx Hy Hle Hv.
  pose proof (bounded_canonical _ _ Hx) as Cx. pose proof (bounded_canonical _ _ Hy) as Cy.
  pose proof (digits2_pos_bounds mx) as Bx. pose proof (digits2_pos_bounds my) as By.
  assert (Hd : Zpos (digits2_pos mx) = Zpos (digits2_pos my) + (ey - ex)).
  { apply (digits_unique (Zpos mx)); try lia. rewrite Hv.
    replace (Zpos (digits2_pos my) + (ey - ex) - 1)
      with ((Zpos (digits2_pos my) - 1) + (ey - ex)) by lia.
    rewrite !Z.pow_add_r by lia.
    assert (0 < 2 ^ (ey - ex)) by (apply Z.pow_pos_nonneg; lia).
    split; [apply Z.mul_le_mono_nonneg_r; lia | apply Z.mul_lt_mono_pos_r; lia]. }
  assert (E : ex = ey).
  { rewrite <- Cx, <- Cy. f_equal. lia. }
  split; [exact E |]. subst ey. rewrite Z.sub_diag in Hv. simpl in Hv. lia.
Qed.

End Rounding.


(** *** A difference that is zero *)

Lemma cond_Zopp_sub_zero sx sy a b :
  0 < a -> 0 < b -> cond_Zopp sx a - cond_Zopp sy b = 0 -> sx = sy /\ a = b.
Proof. destruct sx, sy; simpl; intros; split; try reflexivity; lia. Qed.

Lemma SFeqb_refl_finite s m e : SFeqb (S754_finite s m e) (S754_finite s m e) = true.
Proof.
  unfold SFeqb, SFcompare.
  destruct s; rewrite Z.compare_refl, Pos.compare_cont_refl; reflexivity.
Qed.

(** IEEE 754 subtraction gives zero for equal numbers only. *)
Lemma SFsub_zero_eq prec emax x y :
  0 < prec ->
  valid_binary prec emax x = true -> valid_binary prec emax y = true ->
  is_zero (SFsub prec emax x y) = true -> SFeqb x y = true.
Proof.
  intros Hprec Hx Hy.
  destruct x as [sx | sx | | sx mx ex]; destruct y as [sy | sy | | sy my ey];
    try (destruct sx; discriminate); try (destruct sy; discriminate);
    try (destruct sx, sy; simpl; (discriminate || reflexivity));
    try discriminate.
  simpl in Hx, Hy. cbn [SFsub].
  set (ez := Z.min ex ey).
  set (m := cond_Zopp sx (Zpos (fst (shl_align mx ex ez)))
            - cond_Zopp sy (Zpos (fst (shl_align my ey ez)))).
  pose proof (bounded_emin prec emax mx ex Hx) as Hex.
  pose proof (bounded_emin prec emax my ey Hy) as Hey.
  destruct (Z.eq_dec m 0) as [Hm | Hm].
  - intros _. unfold m in Hm.
    apply cond_Zopp_sub_zero in Hm as [Hs Hv]; try lia. subst sy.
    rewrite !shl_align_value in Hv by (unfold ez; lia).
    destruct (Z.le_gt_cases ex ey) as [Hle | Hgt].
    + assert (Ez : ez = ex) by (unfold ez; lia). rewrite Ez, Z.sub_diag in Hv.
      simpl in Hv. rewrite Z.mul_1_r in Hv.
      destruct (canonical_same_value prec emax mx ex my ey Hx Hy Hle Hv) as [-> ->].
      apply SFeqb_refl_finite.
    + assert (Ez : ez = ey) by (unfold ez; lia). rewrite Ez, Z.sub_diag in Hv.
      simpl in Hv. rewrite Z.mul_1_r in Hv.
      destruct (canonical_same_value prec emax my ey mx ex Hy Hx ltac:(lia)
                  (eq_sym Hv)) as [-> ->].
      apply SFeqb_refl_finite.
  - intros Hz. rewrite binary_normalize_not_zero in Hz; [discriminate | exact Hprec | exact Hm |].
    unfold ez. lia.
Qed.

(** A magnitude that is at most zero is zero. *)
Lemma SFleb_abs_zero z tol :
  is_zero tol = true -> SFleb (SFabs z) tol = true -> is_zero z = true.
Proof.
  destruct tol as [s | | |]; try discriminate. intros _.
  destruct z as [sz | sz | | sz mz ez]; simpl; try discriminate; auto.
Qed.

Lemma tolerance_zero_eq x y tol :
  float64_valid x = true -> float64_valid y = true -> is_zero tol = true ->
  fleb (fabs (fsub x y)) tol = true -> feqb x y = true.
Proof.
  intros Hx Hy Hz Hle. apply (SFsub_zero_eq prec emax); try assumption; [reflexivity |].
  eapply SFleb_abs_zero; eauto.
Qed.

End FloatFacts.

Module C5.
Import GoNum Validator FloatFacts Scenario.
Local Open Scope Z_scope.

(** C5: for a NumericTolerance rule whose parameters decode, [ValidateAnswer]
    parses the stored answer and the candidate as 64-bit floats and returns,
    without error, whether the magnitude of their difference is at most the
    tolerance, all in IEEE 754 double arithmetic; when one of the two texts
    does not parse, it returns an error (with the value false); and with a
    tolerance of zero it validates equal floats only. *)
Theorem numeric_tolerance (lib : Lib) (rule : ValidationRule.t) (receivedAnswer params : string)
    (tolerance : spec_float) :
  ValidationRule.Type_ rule = "NumericTolerance" ->
  ValidationRule.Params rule = Some params ->
  UnmarshalNumericToleranceParams lib params = Some tolerance ->
  (forall expected got,
      ParseFloat lib (ValidationRule.Answer rule) = Some expected ->
      ParseFloat lib receivedAnswer = Some got ->
      ValidateAnswer lib rule receivedAnswer = (fleb (fabs (fsub expected got)) tolerance, None) /\
      (float64_valid expected = true -> float64_valid got = true ->
       is_zero tolerance = true ->
       fst (ValidateAnswer lib rule receivedAnswer) = true -> feqb expected got = true)) /\
  (ParseFloat lib (ValidationRule.Answer rule) = None \/ ParseFloat lib receivedAnswer = None ->
   exists err, ValidateAnswer lib rule receivedAnswer = (false, Some err)).
Proof.
  intros Htype Hparams Htol.
  assert (E : ValidateAnswer lib rule receivedAnswer
              = validateNumericTolerance lib rule receivedAnswer).
  { unfold ValidateAnswer. now rewrite Htype. }
  rewrite E. unfold validateNumericTolerance. rewrite Hparams, Htol. split.
  - intros expected got He Hg. rewrite He, Hg. split; [reflexivity |].
    intros Hve Hvg Hz Hvalid. simpl in Hvalid.
    now apply (tolerance_zero_eq expected got tolerance).
  - intros [He | Hg].
    + rewrite He. now exists ErrParseExpected.
    + rewrite Hg. destruct (ParseFloat lib (ValidationRule.Answer rule));
        [now exists ErrParseReceived | now exists ErrParseExpected].
Qed.

Lemma numeric_tolerance_witness :
  ValidateAnswer lib0 rule0 "39.80" = (true, None) /\
  ValidateAnswer lib0 rule0 "39.82" = (false, None) /\
  (exists err, ValidateAnswer lib0 rule0 "forty" = (false, Some err)) /\
  feqb (hundredths 3980) (hundredths 3980) = true.
Proof.
  split; [| split; [| split]].
  - destruct (numeric_tolerance lib0 rule0 "39.80" tolerance_params (hundredths 1)
                eq_refl eq_refl eq_refl) as [H _].
    destruct (H (hundredths 3980) (hundredths 3980) eq_refl eq_refl) as [E _].
    rewrite E. vm_compute. reflexivity.
  - destruct (numeric_tolerance lib0 rule0 "39.82" tolerance_params (hundredths 1)
                eq_refl eq_refl eq_refl) as [H _].
    destruct (H (hundredths 3980) (hundredths 3982) eq_refl eq_refl) as [E _].
    rewrite E. vm_compute. reflexivity.
  - destruct (numeric_tolerance lib0 rule0 "forty" tolerance_params (hundredths 1)
                eq_refl eq_refl eq_refl) as [_ H].
    apply H. right. reflexivity.
  - destruct (numeric_tolerance lib_zero rule0 "39.80" tolerance_params (S754_zero false)
                eq_refl eq_refl eq_refl) as [H _].
    destruct (H (hundredths 3980) (hundredths 3980) eq_refl eq_refl) as [_ Heq].
    apply Heq; vm_compute; reflexivity.
Defined.

End C5.


(** * Further properties *)

(** ** Decimal numbers *)

Module NumFacts.
Import GoStrings.
Local Open Scope Z_scope.

Lemma byte_of_byte z : 0 <= z < 256 -> byte (of_byte z) = z.
Proof.
  intros H. unfold byte, of_byte.
  rewrite N_ascii_embedding by lia. lia.
Qed.

Lemma is_digit_digit_char d : 0 <= d < 10 -> is_digit (digit_char d) = true.
Proof.
  intros H. unfold is_digit, digit_char. rewrite byte_of_byte by lia.
  apply andb_true_iff. split; apply Z.leb_le; lia.
Qed.

Lemma digits_value_app ds : forall rest a v,
  digits_value ds a = Some v -> digits_value (ds +++ rest) a = digits_value rest v.
Proof.
  induction ds as [|c ds IH]; intros rest a v H; simpl in *.
  - now inversion H.
  - destruct (is_digit c); [now apply IH | discriminate].
Qed.

(** The digits that [format_pos] puts in front of [acc]. *)
Lemma format_pos_digits fuel : forall n acc,
  0 <= n < 10 ^ Z.of_nat (S fuel) ->
  exists c ds,
    format_pos (S fuel) n acc = String c ds +++ acc /\
    is_digit c = true /\
    forall a, exists k, 0 < k /\ digits_value (String c ds) a = Some (a * 10 ^ k + n).
Proof.
  induction fuel as [|fuel IH]; intros n acc Hn.
  all: assert (Hd : 0 <= n mod 10 < 10) by (apply Z.mod_pos_bound; lia).
  all: change (format_pos (S ?f) n acc)
         with (let acc' := String (digit_char (n mod 10)) acc in
               if n <? 10 then acc' else format_pos f (n / 10) acc');
       cbv zeta.
  all: destruct (Z.ltb_spec n 10) as [Hs | Hl];
    [ exists (digit_char (n mod 10)), ""; split; [reflexivity |];
      split; [now apply is_digit_digit_char |];
      intros a; exists 1; split; [lia |]; cbn [digits_value];
      rewrite is_digit_digit_char by exact Hd;
      unfold digit_char; rewrite byte_of_byte by lia;
      rewrite Z.mod_small by lia; f_equal; rewrite Z.pow_1_r; lia | ].
  - change (10 ^ Z.of_nat 1) with 10 in Hn. lia.
  - destruct (IH (n / 10) (String (digit_char (n mod 10)) acc)) as (c & ds & E & Hc & Hv).
    { split; [apply Z.div_pos; lia |].
      apply Z.div_lt_upper_bound; [lia |].
      rewrite (Nat2Z.inj_succ (S fuel)), Z.pow_succ_r in Hn by lia. lia. }
    exists c, (ds +++ String (digit_char (n mod 10)) ""). split.
    + rewrite E. cbn [String.append]. f_equal.
      clear. induction ds as [|d ds IHd]; simpl; [reflexivity | now rewrite IHd].
    + split; [exact Hc |]. intros a. destruct (Hv a) as (k & Hk & Ek).
      exists (k + 1). split; [lia |].
      change (String c (ds +++ String (digit_char (n mod 10)) ""))
        with (String c ds +++ String (digit_char (n mod 10)) "").
      rewrite (digits_value_app _ _ _ _ Ek). cbn [digits_value].
      rewrite is_digit_digit_char by exact Hd.
      unfold digit_char. rewrite byte_of_byte by lia.
      f_equal. rewrite Z.pow_add_r by lia.
      pose proof (Z.div_mod n 10). lia.
Qed.

Lemma digit_not_sign c : is_digit c = true -> Ascii.eqb c "-" = false /\ Ascii.eqb c "+" = false.
Proof.
  unfold is_digit. intros H. apply andb_true_iff in H as [H1 H2].
  apply Z.leb_le in H1, H2.
  split; apply Ascii.eqb_neq; intros ->; vm_compute in H1; vm_compute in H2; 
    try (apply H1; reflexivity); try (apply H2; reflexivity).
Qed.

(** [strconv.ParseInt] reads back what [strconv.FormatInt] writes. *)
Lemma ParseInt_FormatInt n :
  minInt64 <= n <= maxInt64 -> ParseInt (FormatInt n) = Some n.
Proof.
  unfold minInt64, maxInt64. intros Hn. unfold FormatInt.
  destruct (Z.ltb_spec n 0) as [Hneg | Hpos].
  - destruct (format_pos_digits 19 (- n) "") as (c & ds & E & Hc & Hv).
    { simpl. lia. }
    rewrite E. destruct (Hv 0) as (k & _ & Ek). rewrite Z.mul_0_l, Z.add_0_l in Ek.
    unfold ParseInt. change (Ascii.eqb "-" "-") with true.
    cbn [orb negb andb]. rewrite orb_true_r.
    replace (String c ds +++ "") with (String c ds)
      by (clear; cbn [String.append]; f_equal; induction ds; simpl; congruence).
    unfold ParseUintDigits. rewrite Ek.
    destruct (Z.ltb_spec (2 ^ 63) (- n)); [lia |]. f_equal. lia.
  - destruct (format_pos_digits 19 n "") as (c & ds & E & Hc & Hv).
    { simpl. lia. }
    rewrite E. destruct (Hv 0) as (k & _ & Ek). rewrite Z.mul_0_l, Z.add_0_l in Ek.
    replace (String c ds +++ "") with (String c ds)
      by (clear; cbn [String.append]; f_equal; induction ds; simpl; congruence).
    unfold ParseInt. destruct (digit_not_sign c Hc) as [E1 E2]. rewrite E1, E2.
    cbn [orb negb andb]. unfold ParseUintDigits. rewrite Ek.
    destruct (Z.leb_spec (2 ^ 63) n); [lia | reflexivity].
Qed.

End NumFacts.

(** ** Texts that a header carries unchanged *)

Module TokenFacts.
Import GoStrings Crypto Auth AuthSpec SignSpec GoStringsFacts TrimSpaceFacts NumFacts.
Local Open Scope Z_scope.

Lemma token_byte_vals c :
  token_byte c = true -> 32 < byte c < 127 /\ c <> ","%char /\ c <> "="%char.
Proof.
  unfold token_byte. intros H.
  apply andb_true_iff in H as [H H4]. apply andb_true_iff in H as [H H3].
  apply andb_true_iff in H as [H1 H2].
  apply Z.ltb_lt in H1, H2. apply negb_true_iff in H3, H4.
  apply Ascii.eqb_neq in H3, H4. auto.
Qed.

Lemma token_not_space c : token_byte c = true -> asciiSpace c = false.
Proof.
  intros H. apply token_byte_vals in H as (H & _). unfold asciiSpace. cbv zeta.
  destruct (Z.leb_spec (byte c) 13); [lia |]. rewrite andb_false_r.
  destruct (Z.eqb_spec (byte c) 32); [lia | reflexivity].
Qed.

Lemma token_not_space2_l c d : token_byte c = true -> space2 c d = false.
Proof.
  intros H. apply token_byte_vals in H as (H & _). unfold space2.
  destruct (Z.eqb_spec (byte c) 194); [lia | reflexivity].
Qed.

Lemma token_not_space3_l c d e : token_byte c = true -> space3 c d e = false.
Proof.
  intros H. apply token_byte_vals in H as (H & _). unfold space3. cbv zeta.
  destruct (Z.eqb_spec (byte c) 225); [lia |].
  destruct (Z.eqb_spec (byte c) 226); [lia |].
  destruct (Z.eqb_spec (byte c) 227); [lia | reflexivity].
Qed.

Lemma all_bytes_append p s t : all_bytes p (s +++ t) = all_bytes p s && all_bytes p t.
Proof. induction s as [|c s IH]; simpl; [reflexivity |]. now rewrite IH, andb_assoc. Qed.

Lemma all_bytes_Reverse p s : all_bytes p (Reverse s) = all_bytes p s.
Proof.
  induction s as [|c s IH]; [reflexivity |].
  rewrite Reverse_cons, all_bytes_append, IH. simpl.
  rewrite andb_true_r. apply andb_comm.
Qed.

Lemma all_bytes_impl (p q : ascii -> bool) s :
  (forall c, p c = true -> q c = true) -> all_bytes p s = true -> all_bytes q s = true.
Proof.
  intros Hpq. induction s as [|c s IH]; simpl; [reflexivity |].
  intros H. apply andb_true_iff in H as [H1 H2]. rewrite (Hpq c H1). now apply IH.
Qed.

Lemma token_free c s :
  (c = "," \/ c = "=")%char -> all_bytes token_byte s = true -> free_of c s = true.
Proof.
  intros Hc. induction s as [|d s IH]; simpl; [reflexivity |].
  intros H. apply andb_true_iff in H as [H1 H2]. rewrite (IH H2), andb_true_r.
  apply negb_true_iff, Ascii.eqb_neq.
  apply token_byte_vals in H1 as (_ & A & B). destruct Hc; congruence.
Qed.

Lemma token_no_space_front s :
  all_bytes token_byte s = true -> starts_with_space asciiSpace space2 space3 s = false.
Proof.
  destruct s as [|c1 [|c2 [|c3 s3]]]; simpl; [reflexivity | | |];
    intros H; apply andb_true_iff in H as [H _];
    now rewrite (token_not_space c1 H), ?(token_not_space2_l c1 _ H),
      ?(token_not_space3_l c1 _ _ H).
Qed.

Lemma token_no_space_back s :
  all_bytes token_byte s = true ->
  starts_with_space asciiSpace space2_rev space3_rev s = false.
Proof.
  unfold space2_rev, space3_rev.
  destruct s as [|c1 [|c2 [|c3 s3]]]; simpl; [reflexivity | | |]; intros H.
  - apply andb_true_iff in H as [H _]. now rewrite (token_not_space c1 H).
  - apply andb_true_iff in H as [H1 H]. apply andb_true_iff in H as [H2 _].
    now rewrite (token_not_space c1 H1), (token_not_space2_l c2 c1 H2).
  - apply andb_true_iff in H as [H1 H]. apply andb_true_iff in H as [H2 H].
    apply andb_true_iff in H as [H3 _].
    now rewrite (token_not_space c1 H1), (token_not_space2_l c2 c1 H2),
      (token_not_space3_l c3 c2 c1 H3).
Qed.

Lemma token_TrimSpace s : all_bytes token_byte s = true -> TrimSpace s = s.
Proof.
  intros H. unfold TrimSpace, TrimLeftSpace, TrimRightSpace, TrimLeftSpaceRev.
  rewrite (trim_front_stop _ _ _ s) by now apply token_no_space_front.
  rewrite (trim_front_stop _ _ _ (Reverse s)).
  - apply Reverse_involutive.
  - apply token_no_space_back. now rewrite all_bytes_Reverse.
Qed.

(** A non-empty text of visible ASCII bytes without [','] and ['='] is a
    field value that the header carries unchanged. *)
Lemma token_field_ok s :
  s <> "" -> all_bytes token_byte s = true -> field_ok s = true.
Proof.
  intros Hs H. unfold field_ok, plain_value, trimmed.
  rewrite (token_TrimSpace s H), String.eqb_refl.
  rewrite !(token_free _ s) by auto.
  apply String.eqb_neq in Hs. now rewrite Hs.
Qed.

Lemma field_ok_facts v :
  field_ok v = true -> plain_value v = true /\ trimmed v = true.
Proof. unfold field_ok. intros H. now apply andb_true_iff in H. Qed.

(** The decimal digits and the sign. *)
Lemma digit_token d : 0 <= d < 10 -> token_byte (digit_char d) = true.
Proof.
  intros H. assert (E : d = 0 \/ d = 1 \/ d = 2 \/ d = 3 \/ d = 4 \/ d = 5 \/ d = 6
                        \/ d = 7 \/ d = 8 \/ d = 9) by lia.
  repeat (destruct E as [-> | E]; [reflexivity |]). subst. reflexivity.
Qed.

Lemma format_pos_token fuel : forall n acc,
  0 <= n -> all_bytes token_byte acc = true ->
  all_bytes token_byte (format_pos fuel n acc) = true.
Proof.
  induction fuel as [|fuel IH]; intros n acc Hn Hacc; [exact Hacc |].
  cbn [format_pos].
  assert (Hd : 0 <= n mod 10 < 10) by (apply Z.mod_pos_bound; lia).
  assert (Hacc' : all_bytes token_byte (String (digit_char (n mod 10)) acc) = true).
  { simpl. now rewrite digit_token. }
  destruct (n <? 10); [exact Hacc' |].
  apply IH; [apply Z.div_pos; lia | exact Hacc'].
Qed.

Lemma format_pos_nonempty fuel n acc : format_pos (S fuel) n acc <> "".
Proof.
  destruct (Z.le_gt_cases 0 n) as [Hn | Hn].
  - destruct (Z.lt_ge_cases n (10 ^ Z.of_nat (S fuel))) as [Hlt | Hge].
    + destruct (format_pos_digits fuel n acc) as (c & ds & E & _); [lia |].
      rewrite E. discriminate.
    + revert n acc Hn Hge. induction fuel as [|fuel IH]; intros n acc Hn Hge.
      * cbn. destruct (n <? 10); discriminate.
      * change (format_pos (S (S fuel)) n acc)
          with (if n <? 10 then String (digit_char (n mod 10)) acc
                else format_pos (S fuel) (n / 10) (String (digit_char (n mod 10)) acc)).
        destruct (n <? 10); [discriminate |].
        destruct (Z.lt_ge_cases (n / 10) (10 ^ Z.of_nat (S fuel))) as [Hlt | Hge'].
        -- destruct (format_pos_digits fuel (n / 10) (String (digit_char (n mod 10)) acc))
             as (c & ds & E & _); [split; [apply Z.div_pos; lia | exact Hlt] |].
           rewrite E. discriminate.
        -- apply IH; [apply Z.div_pos; lia | lia].
  - change (format_pos (S fuel) n acc)
      with (if n <? 10 then String (digit_char (n mod 10)) acc
            else format_pos fuel (n / 10) (String (digit_char (n mod 10)) acc)).
    destruct (Z.ltb_spec n 10); [discriminate | lia].
Qed.

Lemma FormatInt_field_ok n : field_ok (FormatInt n) = true.
Proof.
  unfold FormatInt. destruct (Z.ltb_spec n 0).
  - apply token_field_ok; [discriminate |].
    change (all_bytes token_byte (String "-" ?s)) with (all_bytes token_byte s).
    apply format_pos_token; [lia | reflexivity].
  - apply token_field_ok; [apply format_pos_nonempty |].
    apply format_pos_token; [lia | reflexivity].
Qed.

(** The hexadecimal digits. *)
Lemma hex_digit_token d : 0 <= d < 16 -> token_byte (hex_digit d) = true.
Proof.
  intros H. assert (E : d = 0 \/ d = 1 \/ d = 2 \/ d = 3 \/ d = 4 \/ d = 5 \/ d = 6
                        \/ d = 7 \/ d = 8 \/ d = 9 \/ d = 10 \/ d = 11 \/ d = 12
                        \/ d = 13 \/ d = 14 \/ d = 15) by lia.
  repeat (destruct E as [-> | E]; [reflexivity |]). subst. reflexivity.
Qed.

Lemma EncodeToString_token bs :
  Forall (fun b => 0 <= b < 256) bs -> all_bytes token_byte (EncodeToString bs) = true.
Proof.
  induction 1 as [|b bs Hb _ IH]; [reflexivity |].
  cbn [EncodeToString all_bytes].
  rewrite !hex_digit_token, IH; [reflexivity | |].
  - apply Z.mod_pos_bound. lia.
  - split; [apply Z.div_pos; lia | apply Z.div_lt_upper_bound; lia].
Qed.

Lemma round256_length st kw : List.length st = 8%nat -> List.length (round256 st kw) = 8%nat.
Proof.
  intros H. do 8 (destruct st as [|? st]; [discriminate |]).
  destruct st; [reflexivity | discriminate].
Qed.

Lemma rounds_length kws : forall st,
  List.length st = 8%nat -> List.length (List.fold_left round256 kws st) = 8%nat.
Proof.
  induction kws as [|kw kws IH]; intros st H; [exact H |].
  simpl. apply IH. now apply round256_length.
Qed.

Lemma compress256_length h block :
  List.length h = 8%nat -> List.length (compress256 h block) = 8%nat.
Proof.
  intros H. unfold compress256.
  rewrite List.length_map, List.length_combine, rounds_length by exact H.
  rewrite H. reflexivity.
Qed.

Lemma blocks256_length n : forall h bs,
  List.length h = 8%nat -> List.length (blocks256 n h bs) = 8%nat.
Proof.
  induction n as [|n IH]; intros h bs H; [exact H |].
  simpl. apply IH. now apply compress256_length.
Qed.

Lemma be_bytes_range width v : Forall (fun b => 0 <= b < 256) (be_bytes width v).
Proof.
  unfold be_bytes. apply List.Forall_map, List.Forall_forall.
  intros i _. apply Z.mod_pos_bound. lia.
Qed.

Lemma Sum256_range msg : Forall (fun b => 0 <= b < 256) (Sum256 msg).
Proof.
  unfold Sum256. apply List.Forall_concat, List.Forall_map, List.Forall_forall.
  intros w _. apply be_bytes_range.
Qed.

Lemma Sum256_nonempty msg : Sum256 msg <> [].
Proof.
  unfold Sum256.
  pose proof (blocks256_length (Nat.div (List.length (pad256 msg)) 64) init256 (pad256 msg)
                eq_refl) as H.
  destruct (blocks256 _ init256 (pad256 msg)) as [|w ws]; [discriminate |].
  discriminate.
Qed.

(** A signature is a non-empty text of hexadecimal digits. *)
Lemma ComputeSignature_field_ok m p b ts nonce secret :
  field_ok (ComputeSignature m p b ts nonce secret) = true.
Proof.
  unfold ComputeSignature, hmac_sha256.
  match goal with |- context [EncodeToString (Sum256 ?x)] => set (msg := x) end.
  apply token_field_ok.
  - pose proof (Sum256_nonempty msg) as H.
    destruct (Sum256 msg); [congruence | discriminate].
  - apply EncodeToString_token, Sum256_range.
Qed.

End TokenFacts.

(** ** Signing and verifying *)

Module SignFacts.
Import GoStrings GoNum Auth AuthSpec SignSpec Secrets.
Import GoStringsFacts TrimSpaceFacts ParseFacts AuthFacts SolverFacts NumFacts TokenFacts.
Local Open Scope Z_scope.

Lemma ParseAuthHeader_formatAuthHeader keyID ts nonce sig :
  field_ok keyID = true -> field_ok ts = true ->
  field_ok nonce = true -> field_ok sig = true ->
  ParseAuthHeader (formatAuthHeader keyID ts nonce sig)
  = inr (mkAuthHeader keyID ts nonce sig).
Proof.
  intros Hk Ht Hn Hs.
  apply field_ok_facts in Hk as [Hk1 Hk2]. apply field_ok_facts in Ht as [Ht1 Ht2].
  apply field_ok_facts in Hn as [Hn1 Hn2]. apply field_ok_facts in Hs as [Hs1 Hs2].
  set (h := mkAuthHeader keyID ts nonce sig).
  assert (E : formatAuthHeader keyID ts nonce sig =
              headerOfPairs
                [ mkPair "" "keyId" "" "" keyID "";
                  mkPair "" "ts" "" "" ts "";
                  mkPair "" "nonce" "" "" nonce "";
                  mkPair "" "sig" "" "" sig "" ]).
  { unfold formatAuthHeader, headerOfPairs, render. simpl.
    rewrite !append_empty_r. repeat (rewrite ?append_assoc; simpl). reflexivity. }
  rewrite E. apply ParseAuthHeader_pairs.
  - unfold plain_header, h. simpl. now rewrite Hk1, Ht1, Hn1, Hs1.
  - unfold trimmed_header, h. simpl. now rewrite Hk2, Ht2, Hn2, Hs2.
  - reflexivity.
  - repeat constructor.
Qed.

Lemma skewSeconds_int64 h : minInt64 <= skewSeconds h <= maxInt64.
Proof.
  unfold skewSeconds, int64_of_float.
  assert (R : minInt64 <= minInt64 <= maxInt64) by (vm_compute; split; discriminate).
  destruct (Duration_Seconds (clockSkew h)) as [s| s | |s m e]; try exact R.
  - vm_compute. split; discriminate.
  - cbv zeta.
    match goal with |- context [if ?b then _ else minInt64] => destruct b eqn:E end;
      [| exact R].
    apply andb_true_iff in E as [E1 E2]. apply Z.leb_le in E1, E2. lia.
Qed.

(** Parsing and verifying what was signed, for a verifier that holds the
    secret of the signer. *)
Lemma signed_header_verifies (signer verifier : HMACAuth) (now now' : Z)
    (m m' path body keyID nonce secret : string) :
  secrets signer !! keyID = Some secret ->
  secrets verifier !! keyID = Some secret ->
  field_ok keyID = true -> field_ok nonce = true ->
  minInt64 <= now <= maxInt64 ->
  Z.abs (now' - now) <= skewSeconds verifier ->
  ToUpper m' = ToUpper m ->
  ParseAuthHeader (CreateAuthHeader signer now m path body keyID nonce)
  = inr (mkAuthHeader keyID (FormatInt now) nonce
           (ComputeSignature m path body (FormatInt now) nonce secret)) /\
  VerifySignature verifier now' m' path body
    (mkAuthHeader keyID (FormatInt now) nonce
       (ComputeSignature m path body (FormatInt now) nonce secret)) = None.
Proof.
  intros Hk Hk' Hkey Hnonce Hnow Hskew Hm. split.
  - rewrite (CreateAuthHeader_known_key _ _ _ _ _ _ _ _ Hk).
    apply ParseAuthHeader_formatAuthHeader; auto.
    + apply FormatInt_field_ok.
    + apply ComputeSignature_field_ok.
  - apply VerifySignature_accepts_iff. exists secret, now.
    cbn [KeyID Timestamp Nonce Signature].
    split; [exact Hk' |]. split; [now apply ParseInt_FormatInt |]. split.
    + pose proof (skewSeconds_int64 verifier) as Hs.
      unfold GoNum.minInt64, GoNum.maxInt64, GoStrings.minInt64, GoStrings.maxInt64 in Hs.
      rewrite abs_wrap64_in_range by lia. exact Hskew.
    + unfold ComputeSignature, CanonicalString. now rewrite Hm.
Qed.

End SignFacts.

Module X1.
Import GoStrings GoNum Auth AuthSpec SignSpec Secrets.
Import AuthFacts SolverFacts NumFacts TokenFacts SignFacts AuthScenario.
Local Open Scope Z_scope.

(** X1: a header made by [CreateAuthHeader] is read back by
    [ParseAuthHeader] field for field, and [VerifySignature] accepts it for
    the same request on every clock within the tolerance, also when the
    method is written in another case.  The key id and the nonce have to be
    values that the header carries unchanged. *)
Theorem sign_then_verify (h : HMACAuth) (now now' : Z)
    (m m' path body keyID nonce secret : string) :
  secrets h !! keyID = Some secret ->
  field_ok keyID = true -> field_ok nonce = true ->
  minInt64 <= now <= maxInt64 ->
  Z.abs (now' - now) <= skewSeconds h ->
  ToUpper m' = ToUpper m ->
  let a := mkAuthHeader keyID (FormatInt now) nonce
             (ComputeSignature m path body (FormatInt now) nonce secret) in
  ParseAuthHeader (CreateAuthHeader h now m path body keyID nonce) = inr a /\
  VerifySignature h now' m' path body a = None.
Proof.
  intros Hk Hkey Hnonce Hnow Hskew Hm a. subst a.
  exact (signed_header_verifies h h now now' m m' path body keyID nonce secret
           Hk Hk Hkey Hnonce Hnow Hskew Hm).
Qed.

Lemma sign_then_verify_witness :
  exists a,
    ParseAuthHeader
      (CreateAuthHeader auth_test 1700000000 "post" "/solve" "{}" "test-key" "n-1") = inr a /\
    VerifySignature auth_test 1700000300 "POST" "/solve" "{}" a = None.
Proof.
  eexists.
  apply (sign_then_verify auth_test 1700000000 1700000300 "post" "POST" "/solve" "{}"
           "test-key" "n-1" "test-secret").
  - reflexivity.
  - reflexivity.
  - reflexivity.
  - vm_compute. split; discriminate.
  - vm_compute. discriminate.
  - reflexivity.
Defined.

End X1.

Module X2.
Import GoStrings GoNum Auth AuthSpec SignSpec Secrets SolverFacts.

(** X2: [CreateAuthHeader] returns the empty string exactly when the key id
    has no secret, so that the empty string is an unambiguous failure value;
    and after [AddSecret keyID secret] the key signs, [GetSecret] gives the
    secret back, and the other keys and the tolerance are as before. *)
Theorem CreateAuthHeader_empty_iff (h : HMACAuth) (now : Z)
    (m path body keyID nonce : string) :
  (CreateAuthHeader h now m path body keyID nonce = "" <-> secrets h !! keyID = None) /\
  (forall secret,
      GetSecret (AddSecret h keyID secret) keyID = (secret, true) /\
      CreateAuthHeader (AddSecret h keyID secret) now m path body keyID nonce <> "" /\
      clockSkew (AddSecret h keyID secret) = clockSkew h /\
      forall other, other <> keyID ->
        GetSecret (AddSecret h keyID secret) other = GetSecret h other).
Proof.
  split.
  - split.
    + destruct (secrets h !! keyID) as [secret|] eqn:E; [| reflexivity].
      rewrite (CreateAuthHeader_known_key _ _ _ _ _ _ _ _ E). discriminate.
    + apply CreateAuthHeader_unknown_key.
  - intros secret. unfold GetSecret, AddSecret. cbn [secrets clockSkew].
    rewrite lookup_insert_eq. repeat split.
    + erewrite CreateAuthHeader_known_key; [discriminate |].
      cbn [secrets]. apply lookup_insert_eq.
    + intros other Hne. now rewrite lookup_insert_ne by congruence.
Qed.

End X2.

(** ** What the parser gives *)

Module ParseMore.
Import GoStrings Auth AuthSpec SignSpec GoStringsFacts TrimSpaceFacts ParseFacts.

Section TrimFrontMore.
Variable one : ascii -> bool.
Variable two : ascii -> ascii -> bool.
Variable three : ascii -> ascii -> ascii -> bool.

#[local] Abbreviation trim := (trim_front one two three).
#[local] Abbreviation starts := (starts_with_space one two three).

(** What [trim_front] returns is what remains behind some prefix. *)
Lemma trim_front_suffix_le n : forall s,
  (String.length s <= n)%nat -> exists w, s = w +++ trim s.
Proof.
  induction n as [|n IH]; intros s Hn.
  - destruct s; [now exists "" | simpl in Hn; lia].
  - destruct s as [|c1 s1]; [now exists "" |]. simpl in Hn. simpl.
    destruct (one c1).
    + destruct (IH s1 ltac:(lia)) as [w E]. exists (String c1 w). simpl. now rewrite <- E.
    + destruct s1 as [|c2 s2]; [now exists "" |]. simpl in Hn.
      destruct (two c1 c2).
      * destruct (IH s2 ltac:(lia)) as [w E]. exists (String c1 (String c2 w)).
        simpl. now rewrite <- E.
      * destruct s2 as [|c3 s3]; [now exists "" |]. simpl in Hn.
        destruct (three c1 c2 c3); [| now exists ""].
        destruct (IH s3 ltac:(lia)) as [w E].
        exists (String c1 (String c2 (String c3 w))). simpl. now rewrite <- E.
Qed.

Lemma trim_front_suffix s : exists w, s = w +++ trim s.
Proof. now apply (trim_front_suffix_le (String.length s)). Qed.

(** What [trim_front] returns does not begin with a space. *)
Lemma trim_front_starts_le n : forall s,
  (String.length s <= n)%nat -> starts (trim s) = false.
Proof.
  induction n as [|n IH]; intros s Hn.
  - destruct s; [reflexivity | simpl in Hn; lia].
  - destruct s as [|c1 s1]; [reflexivity |]. simpl in Hn. simpl.
    destruct (one c1) eqn:E1; [apply IH; lia |].
    destruct s1 as [|c2 s2]; [simpl; exact E1 |]. simpl in Hn.
    destruct (two c1 c2) eqn:E2; [apply IH; lia |].
    destruct s2 as [|c3 s3]; [simpl; now rewrite E1, E2 |]. simpl in Hn.
    destruct (three c1 c2 c3) eqn:E3; [apply IH; lia |].
    simpl. now rewrite E1, E2, E3.
Qed.

Lemma trim_front_starts s : starts (trim s) = false.
Proof. now apply (trim_front_starts_le (String.length s)). Qed.

Lemma trim_front_idempotent s : trim (trim s) = trim s.
Proof. apply trim_front_stop, trim_front_starts. Qed.

(** A text that begins with a space still does so when it is continued. *)
Lemma starts_with_space_continued y w : starts y = true -> starts (y +++ w) = true.
Proof.
  destruct y as [|c1 [|c2 [|c3 y3]]]; simpl; [discriminate | | |]; intros H.
  - destruct w as [|d1 [|d2 w2]]; simpl; now rewrite H.
  - destruct w as [|d1 w1]; simpl; [exact H |].
    apply orb_true_iff in H as [H | H]; rewrite H; [reflexivity |].
    now rewrite orb_true_r.
  - exact H.
Qed.
End TrimFrontMore.

Lemma free_of_Reverse c s : free_of c (Reverse s) = free_of c s.
Proof.
  induction s as [|d s IH]; [reflexivity |].
  rewrite Reverse_cons, free_of_append, IH. simpl.
  rewrite andb_true_r. apply andb_comm.
Qed.

Lemma free_of_trim_front one two three c s :
  free_of c s = true -> free_of c (trim_front one two three s) = true.
Proof.
  intros H. destruct (trim_front_suffix one two three s) as [w E].
  rewrite E, free_of_append in H. now apply andb_true_iff in H.
Qed.

Lemma free_of_TrimSpace c s : free_of c s = true -> free_of c (TrimSpace s) = true.
Proof.
  intros H. unfold TrimSpace, TrimRightSpace, TrimLeftSpaceRev, TrimLeftSpace.
  rewrite free_of_Reverse. apply free_of_trim_front.
  rewrite free_of_Reverse. now apply free_of_trim_front.
Qed.

(** [strings.TrimSpace] leaves nothing to trim. *)
Lemma TrimSpace_trimmed s : trimmed (TrimSpace s) = true.
Proof.
  unfold trimmed. apply String.eqb_eq.
  set (x := TrimLeftSpace s).
  assert (Hx : starts_with_space asciiSpace space2 space3 x = false)
    by apply trim_front_starts.
  set (t := TrimLeftSpaceRev (Reverse x)).
  assert (Ey : TrimSpace s = Reverse t) by reflexivity.
  destruct (trim_front_suffix asciiSpace space2_rev space3_rev (Reverse x)) as [w E].
  fold TrimLeftSpaceRev in E. fold t in E.
  assert (Ex : x = Reverse t +++ Reverse w).
  { rewrite <- (Reverse_involutive x), E, Reverse_append. reflexivity. }
  assert (Hy : starts_with_space asciiSpace space2 space3 (Reverse t) = false).
  { apply not_true_false. intros A.
    apply (starts_with_space_continued _ _ _ _ (Reverse w)) in A.
    rewrite <- Ex in A. congruence. }
  rewrite Ey. unfold TrimSpace, TrimLeftSpace.
  rewrite (trim_front_stop _ _ _ _ Hy).
  unfold TrimRightSpace. rewrite Reverse_involutive. f_equal.
  apply trim_front_idempotent.
Qed.

Lemma Split_pieces_free s sep : Forall (fun p => free_of sep p = true) (Split s sep).
Proof.
  induction s as [|c s IH]; simpl; [repeat constructor |].
  destruct (Ascii.eqb c sep) eqn:E.
  - constructor; [reflexivity | exact IH].
  - destruct (Split s sep) as [|piece pieces].
    + constructor; [simpl; now rewrite E | constructor].
    + inversion IH; subst. constructor; [simpl; rewrite E; simpl; assumption | assumption].
Qed.

Lemma SplitN2_free s sep c k v :
  free_of c s = true -> SplitN2 s sep = [k; v] -> free_of c v = true.
Proof.
  revert k. induction s as [|d s IH]; intros k H E; simpl in *; [discriminate |].
  apply andb_true_iff in H as [_ Hs].
  destruct (Ascii.eqb d sep).
  - inversion E; subst. exact Hs.
  - destruct (SplitN2 s sep) as [|b [|a [|? ?]]] eqn:E2; try discriminate.
    inversion E; subst. now apply (IH b).
Qed.

Lemma parsePair_fields auth pair :
  free_of "," pair = true ->
  forall nm, In nm names ->
    getField nm (parsePair auth pair) = getField nm auth \/
    (trimmed (getField nm (parsePair auth pair)) = true /\
     free_of "," (getField nm (parsePair auth pair)) = true).
Proof.
  intros Hp nm Hnm. unfold parsePair.
  destruct (SplitN2 pair "=") as [|k [|v [|? ?]]] eqn:E; auto.
  assert (Hv : trimmed (TrimSpace v) = true /\ free_of "," (TrimSpace v) = true).
  { split; [apply TrimSpace_trimmed |].
    apply free_of_TrimSpace. eapply SplitN2_free; eauto. }
  unfold names in Hnm. simpl in Hnm.
  destruct (String.eqb (TrimSpace k) "keyId");
    [| destruct (String.eqb (TrimSpace k) "ts");
       [| destruct (String.eqb (TrimSpace k) "nonce");
          [| destruct (String.eqb (TrimSpace k) "sig")]]];
    destruct Hnm as [<-|[<-|[<-|[<-|[]]]]]; cbn; auto.
Qed.

Lemma fold_parsePair_fields pairs : forall auth,
  Forall (fun p => free_of "," p = true) pairs ->
  forall nm, In nm names ->
    getField nm (List.fold_left parsePair pairs auth) = getField nm auth \/
    (trimmed (getField nm (List.fold_left parsePair pairs auth)) = true /\
     free_of "," (getField nm (List.fold_left parsePair pairs auth)) = true).
Proof.
  induction pairs as [|p pairs IH]; intros auth Hall nm Hnm; [now left |].
  inversion Hall as [|? ? Hp Hps]; subst. simpl.
  destruct (IH (parsePair auth p) Hps nm Hnm) as [E | H]; [| now right].
  rewrite E. now apply parsePair_fields.
Qed.

End ParseMore.

Module X3.
Import GoStrings Auth AuthSpec SignSpec GoStringsFacts TrimSpaceFacts ParseFacts ParseMore.
Import AuthScenario.

(** X3: whatever text [ParseAuthHeader] accepts, the text begins with the
    literal prefix, and each of the four fields that it returns is present,
    has no whitespace at either end and holds no [',']. *)
Theorem ParseAuthHeader_fields (authHeader : string) (a : AuthHeader) :
  ParseAuthHeader authHeader = inr a ->
  HasPrefix authHeader AuthHeaderPrefix = true /\
  Forall (fun v => v <> "" /\ trimmed v = true /\ free_of "," v = true)
    [KeyID a; Timestamp a; Nonce a; Signature a].
Proof.
  unfold ParseAuthHeader.
  destruct (HasPrefix authHeader AuthHeaderPrefix); [| discriminate]. cbn [negb].
  set (pairs := Split (TrimPrefix authHeader (AuthHeaderPrefix +++ " ")) ",").
  pose proof (Split_pieces_free (TrimPrefix authHeader (AuthHeaderPrefix +++ " ")) ",") as Hfree.
  fold pairs in Hfree.
  pose proof (fold_parsePair_fields pairs (mkAuthHeader "" "" "" "") Hfree) as Hf.
  set (auth := List.fold_left parsePair pairs (mkAuthHeader "" "" "" "")) in *.
  destruct (String.eqb_spec (KeyID auth) ""); [discriminate |].
  destruct (String.eqb_spec (Timestamp auth) ""); [discriminate |].
  destruct (String.eqb_spec (Nonce auth) ""); [discriminate |].
  destruct (String.eqb_spec (Signature auth) ""); [discriminate |].
  cbn [orb]. intros E. inversion E; subst a. split; [reflexivity |].
  assert (H : forall nm, In nm names -> getField nm auth <> "" ->
              getField nm auth <> "" /\ trimmed (getField nm auth) = true /\
              free_of "," (getField nm auth) = true).
  { intros nm Hnm Hne. split; [exact Hne |].
    destruct (Hf nm Hnm) as [E1 | H1]; [| exact H1].
    exfalso. apply Hne. rewrite E1. unfold names in Hnm. simpl in Hnm.
    destruct Hnm as [<-|[<-|[<-|[<-|[]]]]]; reflexivity. }
  repeat constructor.
  - apply (H "keyId"); [simpl; auto | assumption].
  - apply (H "keyId"); [simpl; auto | assumption].
  - apply (H "keyId"); [simpl; auto | assumption].
  - apply (H "ts"); [simpl; auto | assumption].
  - apply (H "ts"); [simpl; auto | assumption].
  - apply (H "ts"); [simpl; auto | assumption].
  - apply (H "nonce"); [simpl; auto | assumption].
  - apply (H "nonce"); [simpl; auto | assumption].
  - apply (H "nonce"); [simpl; auto | assumption].
  - apply (H "sig"); [simpl; auto | assumption].
  - apply (H "sig"); [simpl; auto | assumption].
  - apply (H "sig"); [simpl; auto | assumption].
Qed.

Lemma ParseAuthHeader_fields_witness :
  Forall (fun v => v <> "" /\ trimmed v = true /\ free_of "," v = true)
    ["test-key"; "1640995200"; "test-nonce"; "abcd1234"].
Proof.
  exact (proj2 (ParseAuthHeader_fields (formatHeader h_spaced)
                  (mkAuthHeader "test-key" "1640995200" "test-nonce" "abcd1234") eq_refl)).
Defined.

End X3.

Module X4.
Import GoStrings Auth AuthSpec SignSpec GoStringsFacts TrimSpaceFacts ParseFacts ParseMore.
Import AuthScenario.



End X4.

(** ** The authentication middleware *)

Module AuthStageFacts.
Import GoStrings GoNum Http Auth AuthSpec SignSpec ChallengerDB Middleware Solver.
Import AuthFacts SolverFacts MiddlewareFacts NumFacts TokenFacts SignFacts.
Local Open Scope Z_scope.

Lemma Header_Get_Set h key value : Header_Get (Header_Set h key value) key = value.
Proof. unfold Header_Get, Header_Set. now rewrite lookup_insert_eq. Qed.

Lemma Header_Get_Set_other h key value other :
  CanonicalMIMEHeaderKey key <> CanonicalMIMEHeaderKey other ->
  Header_Get (Header_Set h key value) other = Header_Get h other.
Proof. intros H. unfold Header_Get, Header_Set. now rewrite lookup_insert_ne. Qed.


(** The only way through [HMACAuth] to the next handler. *)
Lemma HMACAuth_next h now io db r db' r' :
  HMACAuth h now io db r = (db', Next r') ->
  exists authInfo body,
    ParseAuthHeader (Header_Get (Hdr r) "Authorization") = inr authInfo /\
    ReadAll (Body r) = (body, None) /\
    HasSeenNonce (io_HasSeenNonce io) db (Nonce authInfo) = inr false /\
    VerifySignature h now (Method r) (EscapedPath r) body authInfo = None /\
    db' = fst (SaveNonce (io_SaveNonce io) db (Nonce authInfo) now) /\
    r' = with_Header (with_Body r (Bytes body))
           (Header_Set
              (Header_Set (Header_Set (Hdr r) "X-Auth-KeyID" (KeyID authInfo))
                 "X-Auth-Timestamp" (Timestamp authInfo))
              "X-Auth-Nonce" (Nonce authInfo)).
Proof.
  unfold HMACAuth.
  destruct (String.eqb _ ""); [discriminate |].
  destruct (ParseAuthHeader _) as [e | authInfo]; [discriminate |].
  destruct (ReadAll (Body r)) as [body [e|]]; [discriminate |].
  unfold checkNonce.
  destruct (HasSeenNonce _ db _) as [e | [|]] eqn:Hseen; cbn [negb]; try discriminate.
  destruct (VerifySignature _ _ _ _ _ _) eqn:Hv; [discriminate |].
  intros E. inversion E. exists authInfo, body. repeat split; auto.
Qed.

Lemma SaveNonce_tables io db nonce now :
  let db' := fst (SaveNonce io db nonce now) in
  challenges db' = challenges db /\ results db' = results db /\
  results_seq db' = results_seq db /\ webhooks db' = webhooks db /\
  webhooks_seq db' = webhooks_seq db.
Proof.
  unfold SaveNonce. destruct io; [| simpl; auto].
  destruct (List.existsb _ _); simpl; auto.
Qed.


End AuthStageFacts.

Module X5.
Import GoStrings GoNum Http Auth AuthSpec SignSpec ChallengerDB Middleware.
Import AuthFacts MiddlewareFacts AuthStageFacts Scenario Scenario3 Scenario4.
Local Open Scope Z_scope.

(** X5: [HMACAuth] calls the next handler only for a request whose
    [Authorization] header parses, whose body could be read, whose nonce the
    store reports as not seen, and whose signature [VerifySignature] accepts
    for the method, the escaped path and the bytes read.  The next handler
    then gets these same bytes as its body and the verified key id, timestamp
    and nonce in the [X-Auth-*] headers, whatever the client sent under these
    names; of the store only the nonce table may have changed. *)
Theorem HMACAuth_passes_only_verified (h : Auth.HMACAuth) (now : Z) (io : NonceIO)
    (db db' : ChallengerDB.t) (r r' : Request) :
  HMACAuth h now io db r = (db', Next r') ->
  exists authInfo body,
    ParseAuthHeader (Header_Get (Hdr r) "Authorization") = inr authInfo /\
    ReadAll (Body r) = (body, None) /\
    HasSeenNonce (io_HasSeenNonce io) db (Nonce authInfo) = inr false /\
    VerifySignature h now (Method r) (EscapedPath r) body authInfo = None /\
    Body r' = Bytes body /\
    Method r' = Method r /\ EscapedPath r' = EscapedPath r /\ Vars r' = Vars r /\
    Header_Get (Hdr r') "X-Auth-KeyID" = KeyID authInfo /\
    Header_Get (Hdr r') "X-Auth-Timestamp" = Timestamp authInfo /\
    Header_Get (Hdr r') "X-Auth-Nonce" = Nonce authInfo /\
    Header_Get (Hdr r') "X-Request-ID" = Header_Get (Hdr r) "X-Request-ID" /\
    challenges db' = challenges db /\ results db' = results db /\
    webhooks db' = webhooks db.
Proof.
  intros E. apply HMACAuth_next in E as (authInfo & body & Hp & Hr & Hs & Hv & -> & ->).
  exists authInfo, body.
  destruct (SaveNonce_tables (io_SaveNonce io) db (Nonce authInfo) now)
    as (Hc & Hres & _ & Hw & _).
  repeat split; auto.
  - cbn [Hdr with_Header]. rewrite !Header_Get_Set_other by (vm_compute; discriminate).
    apply Header_Get_Set.
  - cbn [Hdr with_Header]. rewrite !Header_Get_Set_other by (vm_compute; discriminate).
    apply Header_Get_Set.
  - cbn [Hdr with_Header]. apply Header_Get_Set.
  - cbn [Hdr with_Header with_Body].
    now rewrite !Header_Get_Set_other by (vm_compute; discriminate).
Qed.

Lemma HMACAuth_passes_only_verified_witness :
  exists db' r' authInfo,
    HMACAuth solver_auth 1700000001 nonce_io db0 request_signed = (db', Next r') /\
    ParseAuthHeader (Header_Get (Hdr request_signed) "Authorization") = inr authInfo /\
    VerifySignature solver_auth 1700000001 "POST" "/callback/ch_m1" body_compact authInfo
    = None /\
    Body r' = Bytes body_compact.
Proof.
  set (out := HMACAuth solver_auth 1700000001 nonce_io db0 request_signed).
  assert (E : out = (fst out, Next (passed (snd out) request_signed)))
    by (vm_compute; reflexivity).
  destruct (HMACAuth_passes_only_verified solver_auth 1700000001 nonce_io db0 (fst out)
              request_signed (passed (snd out) request_signed) E)
    as (authInfo & body & Hp & Hr & _ & Hv & Hb & _).
  exists (fst out), (passed (snd out) request_signed), authInfo.
  assert (Eb : body = body_compact) by (inversion Hr; reflexivity).
  rewrite Eb in Hv, Hb. auto.
Defined.

End X5.

Module X6.
Import GoStrings GoNum Http Auth AuthSpec SignSpec ChallengerDB Middleware.
Import AuthFacts MiddlewareFacts AuthStageFacts Scenario Scenario3 Scenario4.
Local Open Scope Z_scope.



End X6.

Module X7.
Import GoStrings GoNum Http Auth AuthSpec SignSpec ChallengerDB Middleware Solver.
Import AuthFacts SolverFacts MiddlewareFacts NumFacts TokenFacts SignFacts AuthStageFacts.
Import Scenario Scenario2 Scenario3 Scenario4.
Local Open Scope Z_scope.




End X7.

(** ** Reading results back *)

Module X8.
Import GoStrings Http ChallengerDB Challenger StoreSpec StoreFacts Scenario.
Local Open Scope Z_scope.

Lemma find_app_none {A} (p : A -> bool) (l1 l2 : list A) :
  List.existsb p l1 = false -> List.find p (l1 ++ l2) = List.find p l2.
Proof.
  induction l1 as [|x l1 IH]; simpl; [reflexivity |].
  intros H. apply orb_false_iff in H as [Hx Hl]. rewrite Hx. now apply IH.
Qed.

Lemma find_existsb_none {A} (p : A -> bool) (l : list A) :
  List.existsb p l = false -> List.find p l = None.
Proof.
  induction l as [|x l IH]; simpl; [reflexivity |].
  intros H. apply orb_false_iff in H as [Hx Hl]. rewrite Hx. now apply IH.
Qed.

Lemma find_app_some {A} (p : A -> bool) (l1 l2 : list A) x :
  List.find p l1 = Some x -> List.find p (l1 ++ l2) = Some x.
Proof.
  induction l1 as [|y l1 IH]; simpl; [discriminate |].
  destruct (p y); [auto | exact IH].
Qed.

(** X8: a result that [SaveResultWithDuplicateCheck] inserts is what
    [GetResult] returns for its key: with the id that the table assigned,
    with an empty metadata document read back as no metadata, and otherwise
    field for field.  A later save under the same key, whatever it carries,
    does not change what is read.  For a key without a row [GetResult]
    returns no result and no error. *)
Theorem GetResult_after_save (db : ChallengerDB.t) (result : Result.t) :
  key_taken db result = false ->
  let db1 := fst (SaveResultWithDuplicateCheck DriverOK db result) in
  let stored :=
    Result.mk (results_seq db + 1) (Result.ChallengeID result) (Result.RequestID result)
      (Result.SolverJobID result) (Result.Status result) (Result.ReceivedAnswer result)
      (Result.IsCorrect result) (Result.SolverAddress result) (Result.ComputeTimeMs result)
      (match Result.SolverMetadata result with
       | Some m => if String.eqb m "" then None else Some m
       | None => None
       end)
      (Result.CreatedAt result) in
  GetResult DriverOK db (Result.ChallengeID result) (Result.RequestID result) = inr None /\
  GetResult DriverOK db1 (Result.ChallengeID result) (Result.RequestID result)
  = inr (Some stored) /\
  forall (io : DriverOutcome) (result' : Result.t),
    Result.ChallengeID result' = Result.ChallengeID result ->
    Result.RequestID result' = Result.RequestID result ->
    GetResult DriverOK (fst (SaveResultWithDuplicateCheck io db1 result'))
      (Result.ChallengeID result) (Result.RequestID result)
    = inr (Some stored).
Proof.
  intros Hfree db1 stored.
  assert (E1 : db1 = insert_result db result).
  { unfold db1. now rewrite SaveResultWithDuplicateCheck_free. }
  assert (Hget : GetResult DriverOK db1 (Result.ChallengeID result) (Result.RequestID result)
                 = inr (Some stored)).
  { rewrite E1. unfold GetResult, insert_result. cbn [results].
    rewrite find_app_none by exact Hfree.
    cbn [List.find]. rewrite has_key_row_of, !String.eqb_refl. cbn [andb option_map].
    unfold stored, result_of, row_of, metadataJSON.
    cbn [ResultRow.id ResultRow.challenge_id ResultRow.request_id ResultRow.solver_job_id
         ResultRow.status ResultRow.received_answer ResultRow.is_correct
         ResultRow.solver_address ResultRow.compute_time_ms ResultRow.solver_metadata
         ResultRow.created_at].
    destruct (Result.SolverMetadata result) as [m|]; reflexivity. }
  split; [| split; [exact Hget |]].
  - unfold GetResult. now rewrite find_existsb_none.
  - intros io result' Ec Er.
    assert (Htaken : key_taken db1 result' = true).
    { unfold key_taken. rewrite Ec, Er, E1. unfold insert_result. cbn [results].
      rewrite List.existsb_app. cbn [List.existsb].
      rewrite has_key_row_of, !String.eqb_refl. cbn. apply orb_true_r. }
    rewrite SaveResultWithDuplicateCheck_taken by exact Htaken. exact Hget.
Qed.

Lemma GetResult_after_save_witness :
  exists stored,
    GetResult DriverOK (fst (SaveResultWithDuplicateCheck DriverOK db0 result1)) "ch_m1" "req-1"
    = inr (Some stored) /\ Result.ID stored = 1 /\ Result.ReceivedAnswer stored = "39.80".
Proof.
  destruct (GetResult_after_save db0 result1 eq_refl) as (_ & H & _).
  eexists. split; [exact H |]. split; reflexivity.
Defined.

End X8.

(** ** What a callback leaves behind *)

Module X9.
Import GoStrings Crypto Http ChallengerDB Challenger ChallengerSpec StoreSpec.
Import StoreFacts ChallengerFacts.
Local Open Scope Z_scope.

Lemma SaveWebhookAudit_tables io db audit :
  let db' := fst (SaveWebhookAudit io db audit) in
  challenges db' = challenges db /\ results db' = results db /\
  seen_nonces db' = seen_nonces db /\
  exists added, webhooks db' = (webhooks db ++ added)%list /\ (List.length added <= 1)%nat.
Proof.
  unfold SaveWebhookAudit. destruct io; cbn [fst challenges results seen_nonces webhooks].
  - repeat split. eexists. split; [reflexivity | simpl; lia].
  - repeat split. exists []. split; [now rewrite List.app_nil_r | simpl; lia].
Qed.

(** X9: what a call of the callback receiver leaves in the store.  A
    callback that is answered with 400 or 404 leaves the store as it was and
    starts nothing.  In every case the tables of the problems and of the
    nonces are untouched, the rows that the result table and the audit table
    held are still there in their order, and at most one row has been
    appended to each.  A callback that is acknowledged with 200 has a row
    under the key made of the problem id of the path and the [X-Request-ID]
    header. *)
Theorem HandleCallback_store_effects (env : Env) (db : ChallengerDB.t) (r : Request) :
  let db' := fst (fst (HandleCallback env db r)) in
  let effects := snd (fst (HandleCallback env db r)) in
  let resp := snd (HandleCallback env db r) in
  (StatusCode resp = 400 \/ StatusCode resp = 404 -> db' = db /\ effects = []) /\
  challenges db' = challenges db /\
  seen_nonces db' = seen_nonces db /\
  (exists added, results db' = (results db ++ added)%list /\ (List.length added <= 1)%nat) /\
  (exists added, webhooks db' = (webhooks db ++ added)%list /\ (List.length added <= 1)%nat) /\
  (StatusCode resp = 200 ->
   rows_of db' (default "" (Vars r !! "challenge_id")) (Header_Get (Hdr r) "X-Request-ID")
   <> []).
Proof.
  assert (Hnil : forall {A} (l : list A),
             exists added, l = (l ++ added)%list /\ (List.length added <= 1)%nat).
  { intros A l. exists []. split; [now rewrite List.app_nil_r | simpl; lia]. }
  assert (Hafter : forall req result dup,
             StatusCode (snd (afterSave env r req result dup)) = 200 \/
             StatusCode (snd (afterSave env r req result dup)) = 500).
  { intros req result dup.
    destruct (afterSave_response env r req result dup) as [E | E]; rewrite E; auto. }
  destruct (HandleCallback_way env db r)
    as [Hd | req Hd Hid | req e Hd Hid Hg | req challenge Hd Hid Hg Hio
        | req challenge Hd Hid Hg Hio Ekey | req challenge Hd Hid Hg Hio Ekey];
    cbn [fst snd].
  1-4: (split; [auto |]); (split; [reflexivity |]); (split; [reflexivity |]);
       (split; [apply Hnil |]); (split; [apply Hnil |]); discriminate.
  - split.
    { intros Hs. destruct (Hafter req (resultOf env r challenge req) true) as [E | E];
        rewrite E in Hs; destruct Hs; discriminate. }
    split; [reflexivity |]. split; [reflexivity |].
    split; [apply Hnil |]. split; [apply Hnil |].
    intros _. apply key_taken_true in Ekey. exact Ekey.
  - destruct (SaveWebhookAudit_tables (io_SaveWebhookAudit env)
                (insert_result db (resultOf env r challenge req)) (auditOf env r req))
      as (Hc & Hr & Hn & Hw).
    split.
    { intros Hs. destruct (Hafter req (resultOf env r challenge req) false) as [E | E];
        rewrite E in Hs; destruct Hs; discriminate. }
    split; [exact Hc |]. split; [exact Hn |].
    split; [rewrite Hr; eexists; split; [reflexivity | simpl; lia] |].
    split; [exact Hw |].
    intros _. unfold rows_of. rewrite Hr.
    fold (rows_of (insert_result db (resultOf env r challenge req))
            (default "" (Vars r !! "challenge_id")) (Header_Get (Hdr r) "X-Request-ID")).
    rewrite rows_of_insert.
    change (Result.ChallengeID (resultOf env r challenge req))
      with (default "" (Vars r !! "challenge_id")).
    change (Result.RequestID (resultOf env r challenge req))
      with (Header_Get (Hdr r) "X-Request-ID").
    rewrite !String.eqb_refl. cbn [andb].
    intros E. apply List.app_eq_nil in E as [_ E]. discriminate E.
Qed.

End X9.

(** ** The validation engine *)

Module X10.
Import GoNum Validator Scenario.

(** X10: [ValidateAnswer] never reports an answer as valid together with an
    error; it rejects a rule for its type exactly when the type is none of
    the three names, which are matched to the letter; and an ExactMatch rule
    without parameters compares byte for byte and cannot fail. *)
Theorem ValidateAnswer_errors (lib : Lib) (rule : ValidationRule.t) (receivedAnswer : string) :
  let verdict := ValidateAnswer lib rule receivedAnswer in
  let ruleType := ValidationRule.Type_ rule in
  (snd verdict <> None -> fst verdict = false) /\
  ((exists t, snd verdict = Some (ErrUnknownRuleType t)) <->
   ruleType <> "ExactMatch" /\ ruleType <> "NumericTolerance" /\ ruleType <> "Regex") /\
  (ruleType = "ExactMatch" -> ValidationRule.Params rule = None ->
   verdict = (String.eqb (ValidationRule.Answer rule) receivedAnswer, None)).
Proof.
  cbv zeta. unfold ValidateAnswer, validateExactMatch, validateNumericTolerance,
    validateRegex, failed.
  destruct (String.eqb_spec (ValidationRule.Type_ rule) "ExactMatch") as [E1 | E1].
  { unfold validateExactMatch. split; [| split].
    - destruct (ValidationRule.Params rule) as [params|];
        [destruct (UnmarshalExactMatchParams lib params true) as [[|]|] |];
        cbn [fst snd]; intros H; congruence.
    - split; [| tauto]. intros [t H]. exfalso.
      destruct (ValidationRule.Params rule) as [params|];
        [destruct (UnmarshalExactMatchParams lib params true) as [[|]|] |];
        discriminate H.
    - intros _ Hp. now rewrite Hp. }
  destruct (String.eqb_spec (ValidationRule.Type_ rule) "NumericTolerance") as [E2 | E2].
  { unfold validateNumericTolerance. split; [| split; [| congruence]].
    - destruct (ValidationRule.Params rule) as [params|]; [| reflexivity].
      destruct (UnmarshalNumericToleranceParams lib params); [| reflexivity].
      destruct (ParseFloat lib (ValidationRule.Answer rule)); [| reflexivity].
      destruct (ParseFloat lib receivedAnswer); [| reflexivity].
      cbn [fst snd]. intros H. congruence.
    - split; [| tauto]. intros [t H]. exfalso.
      destruct (ValidationRule.Params rule) as [params|]; [| discriminate H].
      destruct (UnmarshalNumericToleranceParams lib params); [| discriminate H].
      destruct (ParseFloat lib (ValidationRule.Answer rule)); [| discriminate H].
      destruct (ParseFloat lib receivedAnswer); discriminate H. }
  destruct (String.eqb_spec (ValidationRule.Type_ rule) "Regex") as [E3 | E3].
  { unfold validateRegex. split; [| split; [| congruence]].
    - destruct (ValidationRule.Params rule) as [params|]; [| reflexivity].
      destruct (UnmarshalRegexParams lib params) as [pattern|]; [| reflexivity].
      destruct (RegexpMatchString lib pattern receivedAnswer); [| reflexivity].
      cbn [fst snd]. intros H. congruence.
    - split; [| tauto]. intros [t H]. exfalso.
      destruct (ValidationRule.Params rule) as [params|]; [| discriminate H].
      destruct (UnmarshalRegexParams lib params) as [pattern|]; [| discriminate H].
      destruct (RegexpMatchString lib pattern receivedAnswer); discriminate H. }
  split; [reflexivity |]. split; [| congruence].
  split; [auto |]. intros _. eexists. reflexivity.
Qed.

Lemma ValidateAnswer_errors_witness :
  ValidateAnswer lib0 (ValidationRule.mk "ExactMatch" None "Paris") "Paris" = (true, None) /\
  ValidateAnswer lib0 (ValidationRule.mk "ExactMatch" None "Paris") "paris" = (false, None).
Proof.
  split.
  - exact (proj2 (proj2 (ValidateAnswer_errors lib0 (ValidationRule.mk "ExactMatch" None "Paris")
                           "Paris")) eq_refl eq_refl).
  - exact (proj2 (proj2 (ValidateAnswer_errors lib0 (ValidationRule.mk "ExactMatch" None "Paris")
                           "paris")) eq_refl eq_refl).
Defined.

End X10.

Module X11.
Import GoNum Validator FloatFacts Scenario Scenario5.
Local Open Scope Z_scope.

(** X11: a candidate that parses to the very float of the stored answer.  A
    NumericTolerance rule validates it exactly when that float is finite
    and the tolerance is at least zero; when both are the same infinity, or
    not a number, the difference is not a number and the candidate is not
    valid, whatever the tolerance.  No error is returned. *)
Theorem same_float_is_valid_iff_finite (lib : Lib) (rule : ValidationRule.t)
    (receivedAnswer params : string) (tolerance x : spec_float) :
  ValidationRule.Type_ rule = "NumericTolerance" ->
  ValidationRule.Params rule = Some params ->
  UnmarshalNumericToleranceParams lib params = Some tolerance ->
  ParseFloat lib (ValidationRule.Answer rule) = Some x ->
  ParseFloat lib receivedAnswer = Some x ->
  ValidateAnswer lib rule receivedAnswer =
    (match x with
     | S754_zero _ | S754_finite _ _ _ => fleb (S754_zero false) tolerance
     | S754_infinity _ | S754_nan => false
     end, None).
Proof.
  intros Htype Hparams Htol He Hg.
  unfold ValidateAnswer. rewrite Htype. cbn [String.eqb Ascii.eqb Bool.eqb].
  unfold validateNumericTolerance. rewrite Hparams, Htol, He, Hg. f_equal.
  unfold fabs, fsub, fleb. destruct x as [s | s | | s m e].
  - destruct s; reflexivity.
  - destruct s; reflexivity.
  - reflexivity.
  - unfold SFsub. cbv zeta. rewrite Z.sub_diag. reflexivity.
Qed.

Lemma same_float_is_valid_iff_finite_witness :
  ValidateAnswer lib0 rule0 "39.80" = (true, None).
Proof.
  rewrite (same_float_is_valid_iff_finite lib0 rule0 "39.80" tolerance_params
             (hundredths 1) (hundredths 3980) eq_refl eq_refl eq_refl eq_refl eq_refl).
  vm_compute. reflexivity.
Defined.

End X11.

Module X12.
Import GoNum Validator FloatFacts Scenario Scenario5.
Local Open Scope Z_scope.

(** X12: a tolerance below zero, or one that is not a number, validates
    nothing: for every pair of texts that parse, a NumericTolerance rule
    returns false without an error. *)
Theorem negative_tolerance_validates_nothing (lib : Lib) (rule : ValidationRule.t)
    (receivedAnswer params : string) (tolerance expected got : spec_float) :
  ValidationRule.Type_ rule = "NumericTolerance" ->
  ValidationRule.Params rule = Some params ->
  UnmarshalNumericToleranceParams lib params = Some tolerance ->
  ParseFloat lib (ValidationRule.Answer rule) = Some expected ->
  ParseFloat lib receivedAnswer = Some got ->
  (tolerance = S754_nan \/ tolerance = S754_infinity true \/
   exists m e, tolerance = S754_finite true m e) ->
  ValidateAnswer lib rule receivedAnswer = (false, None).
Proof.
  intros Htype Hparams Htol He Hg Hneg.
  unfold ValidateAnswer. rewrite Htype. cbn [String.eqb Ascii.eqb Bool.eqb].
  unfold validateNumericTolerance. rewrite Hparams, Htol, He, Hg. f_equal.
  unfold fabs, fleb. destruct (fsub expected got) as [s | s | | s m e];
    destruct Hneg as [-> | [-> | (m' & e' & ->)]]; reflexivity.
Qed.

Lemma negative_tolerance_validates_nothing_witness :
  ValidateAnswer lib_negative rule0 "39.80" = (false, None).
Proof.
  apply (negative_tolerance_validates_nothing lib_negative rule0 "39.80" tolerance_params
           (S754_finite true 1 0) (hundredths 3980) (hundredths 3980));
    try reflexivity.
  right. right. eexists. eexists. reflexivity.
Defined.

End X12.

(** ** The delivery of a callback *)

Module DeliveryFacts.
Import GoStrings GoNum Http Auth ChallengerDB Solver RetrySpec SolverFacts RetryFacts.
Local Open Scope Z_scope.

Lemma sleeps_app a b : sleeps (a ++ b) = (sleeps a + sleeps b)%nat.
Proof. unfold sleeps. now rewrite List.filter_app, List.length_app. Qed.

Lemma sleeps_Sent sent : sleeps (List.map Sent sent) = 0%nat.
Proof. unfold sleeps. induction sent as [|o sent IH]; simpl; auto. Qed.

Lemma UpdateChallengeStatus_other io db id status attemptCount nextRetryTime other :
  other <> id ->
  fst (SolverDB.UpdateChallengeStatus io db id status attemptCount nextRetryTime) !! other
  = db !! other.
Proof.
  intros Hne. unfold SolverDB.UpdateChallengeStatus. destruct io; [| reflexivity].
  cbn [fst]. destruct (db !! id); [| reflexivity].
  now rewrite lookup_insert_ne by congruence.
Qed.

Lemma UpdateChallengeStatus_same db id status attemptCount nextRetryTime :
  let db' := fst (SolverDB.UpdateChallengeStatus DriverOK db id status attemptCount
                    nextRetryTime) in
  (db !! id = None /\ db' !! id = None) \/
  exists c, db' !! id = Some c /\ PendingChallenge.Status c = status /\
            PendingChallenge.AttemptCount c = attemptCount /\
            PendingChallenge.NextRetryTime c = nextRetryTime.
Proof.
  unfold SolverDB.UpdateChallengeStatus. cbn [fst].
  destruct (db !! id) as [c|] eqn:E; [right | left; auto].
  eexists. rewrite lookup_insert_eq. repeat split.
Qed.

(** The loop, started at attempt [attempt] with the iterations that remain
    of the six. *)
Lemma retryLoop_outcome cfg h env challenge req :
  forall remaining attempt db,
    (attempt + remaining = 6)%nat ->
    let out := retryLoop cfg h env challenge req remaining attempt db in
    (sleeps (snd (fst out)) <= Nat.pred remaining)%nat /\
    (snd out = Returns None ->
     exists k status,
       (attempt <= k < 6)%nat /\
       snd (SendCallback cfg h (sendEnv env k) (PendingChallenge.CallbackURL challenge) req)
       = Returns (status, None) /\ 200 <= status < 300) /\
    (forall other, other <> PendingChallenge.ID challenge ->
                   fst (fst out) !! other = db !! other).
Proof.
  induction remaining as [|remaining IH]; intros attempt db Hsum; cbv zeta.
  - cbn [retryLoop fst snd]. repeat split; auto; discriminate.
  - cbn [retryLoop].
    destruct (SendCallback cfg h (sendEnv env attempt)
                (PendingChallenge.CallbackURL challenge) req)
      as [sent [|[statusCode err]]] eqn:Esend.
    { cbn [fst snd]. rewrite sleeps_Sent. repeat split; auto; try lia; discriminate. }
    destruct err as [e|].
    + (* an error of SendCallback is retried *)
      cbn [andb negb shouldRetry].
      destruct (Z.eqb_spec (Z.of_nat attempt) (MaxRetryAttempts - 1)) as [Hlast | Hlast].
      { cbn [fst snd]. rewrite sleeps_Sent. repeat split; auto; try lia; discriminate. }
      assert (Hrem : (S attempt + remaining = 6)%nat) by lia.
      specialize (IH (S attempt)
                    (fst (SolverDB.UpdateChallengeStatus (io_retryUpdate env attempt) db
                            (PendingChallenge.ID challenge) "processing"
                            (Z.of_nat attempt + 1)
                            (retryClock env attempt
                             + calculateBackoffDelay (Z.of_nat attempt)
                                 (randFloat64 env attempt)))) Hrem).
      cbv zeta in IH.
      destruct (retryLoop cfg h env challenge req remaining (S attempt) _)
        as [[db' later] ret].
      cbn [fst snd] in *. destruct IH as (Hs & Hok & Hother).
      rewrite !sleeps_app, sleeps_Sent.
      unfold MaxRetryAttempts in Hlast.
      split; [change (sleeps [Slept ?d]) with 1%nat; lia |]. split.
      * intros Hr. destruct (Hok Hr) as (k & status & Hk & Hsend & Hst).
        exists k, status. repeat split; auto; lia.
      * intros other Hne. rewrite (Hother other Hne).
        now apply UpdateChallengeStatus_other.
    + cbn [andb].
      destruct ((statusCode >=? 200) && (statusCode <? 300)) eqn:E2xx.
      { cbn [fst snd]. rewrite sleeps_Sent. split; [lia |]. split; [| auto].
        intros _. exists attempt, statusCode. rewrite Esend.
        apply andb_true_iff in E2xx as [A B].
        apply Z.geb_le in A. apply Z.ltb_lt in B. repeat split; auto; lia. }
      destruct (negb (shouldRetry statusCode false)).
      { cbn [fst snd]. rewrite sleeps_Sent. repeat split; auto; try lia; discriminate. }
      destruct (Z.eqb_spec (Z.of_nat attempt) (MaxRetryAttempts - 1)) as [Hlast | Hlast].
      { cbn [fst snd]. rewrite sleeps_Sent. repeat split; auto; try lia; discriminate. }
      assert (Hrem : (S attempt + remaining = 6)%nat) by lia.
      specialize (IH (S attempt)
                    (fst (SolverDB.UpdateChallengeStatus (io_retryUpdate env attempt) db
                            (PendingChallenge.ID challenge) "processing"
                            (Z.of_nat attempt + 1)
                            (retryClock env attempt
                             + calculateBackoffDelay (Z.of_nat attempt)
                                 (randFloat64 env attempt)))) Hrem).
      cbv zeta in IH.
      destruct (retryLoop cfg h env challenge req remaining (S attempt) _)
        as [[db' later] ret].
      cbn [fst snd] in *. destruct IH as (Hs & Hok & Hother).
      rewrite !sleeps_app, sleeps_Sent.
      unfold MaxRetryAttempts in Hlast.
      split; [change (sleeps [Slept ?d]) with 1%nat; lia |]. split.
      * intros Hr. destruct (Hok Hr) as (k & status & Hk & Hsend & Hst).
        exists k, status. repeat split; auto; lia.
      * intros other Hne. rewrite (Hother other Hne).
        now apply UpdateChallengeStatus_other.
Qed.

(** What every delivery keeps to. *)
Lemma delivery_is_bounded_core cfg h env challenge req db :
  let out := sendCallbackWithRetry cfg h env challenge req db in
  (attempts (snd (fst out)) <= 6)%nat /\
  (forall other, other <> PendingChallenge.ID challenge ->
                 fst (fst out) !! other = db !! other).
Proof.
  cbv zeta. unfold sendCallbackWithRetry.
  change (Z.to_nat MaxRetryAttempts) with 6%nat.
  destruct (retryLoop_outcome cfg h env challenge req 6 0 db eq_refl) as (_ & _ & Hother).
  split; [apply (retryLoop_attempts cfg h env challenge req 6 0 db) | exact Hother].
Qed.

End DeliveryFacts.

Module X13.
Import GoStrings GoNum Http Auth ChallengerDB Solver RetrySpec SolverFacts RetryFacts.
Import DeliveryFacts Scenario Scenario2.
Local Open Scope Z_scope.

(** X13: whatever the callback target and the store do, one delivery of a
    callback hands at most six requests to the HTTP client and pauses at
    most five times; it reports success only if one of its attempts got a
    status from 200 to 299 without error; and of the table of pending
    problems it touches no row but that of its problem.  When the first
    attempt gets such a status, the delivery ends there, without a pause and
    without a change of the table. *)
Theorem delivery_is_bounded (cfg : Config) (h : Auth.HMACAuth) (env : RetryEnv)
    (challenge : PendingChallenge.t) (req : CallbackRequest.t) (db : SolverDB.t) :
  let out := sendCallbackWithRetry cfg h env challenge req db in
  let url := PendingChallenge.CallbackURL challenge in
  (attempts (snd (fst out)) <= 6)%nat /\
  (sleeps (snd (fst out)) <= 5)%nat /\
  (snd out = Returns None ->
   exists k status,
     (k < 6)%nat /\
     snd (SendCallback cfg h (sendEnv env k) url req) = Returns (status, None) /\
     200 <= status < 300) /\
  (forall other, other <> PendingChallenge.ID challenge ->
                 fst (fst out) !! other = db !! other) /\
  (forall status,
      snd (SendCallback cfg h (sendEnv env 0) url req) = Returns (status, None) ->
      200 <= status < 300 ->
      out = (db, List.map Sent (fst (SendCallback cfg h (sendEnv env 0) url req)),
             Returns None)).
Proof.
  cbv zeta. unfold sendCallbackWithRetry.
  change (Z.to_nat MaxRetryAttempts) with 6%nat.
  destruct (retryLoop_outcome cfg h env challenge req 6 0 db eq_refl) as (Hs & Hok & Hother).
  split; [apply (retryLoop_attempts cfg h env challenge req 6 0 db) |].
  split; [exact Hs |]. split.
  - intros Hr. destruct (Hok Hr) as (k & status & Hk & Hsend & Hst).
    exists k, status. repeat split; auto; lia.
  - split; [exact Hother |].
    intros status Hsend Hst.
    change (retryLoop cfg h env challenge req 6 0 db)
      with (retryLoop cfg h env challenge req (S 5) 0 db).
    cbn [retryLoop].
    destruct (SendCallback cfg h (sendEnv env 0) (PendingChallenge.CallbackURL challenge) req)
      as [sent ret]. cbn [snd fst] in *. subst ret. cbn [andb].
    destruct (Z.geb_spec status 200); [| lia].
    destruct (Z.ltb_spec status 300); [| lia]. reflexivity.
Qed.

Lemma delivery_is_bounded_witness :
  sendCallbackWithRetry solver_cfg solver_auth (retryEnv0 200) pending0 callback0 solverdb0
  = (solverdb0,
     List.map Sent (fst (SendCallback solver_cfg solver_auth (sendEnv0 200 0) callback_url
                           callback0)),
     Returns None).
Proof.
  destruct (delivery_is_bounded solver_cfg solver_auth (retryEnv0 200) pending0 callback0
              solverdb0) as (_ & _ & _ & _ & H).
  apply (H 200); [vm_compute; reflexivity | lia].
Defined.

End X13.

Module X14.
Import GoStrings GoNum Http Auth ChallengerDB Solver RetrySpec SolverFacts RetryFacts.
Import DeliveryFacts Scenario Scenario2 Scenario6.
Local Open Scope Z_scope.

(** X14: where a worker leaves a problem.  When [processChallenge] returns
    and the store took the final statement, the problem is either gone from
    the table of pending problems or stands there as failed with an attempt
    count of six; it is never left as pending or processing.  No other row
    is touched and at most six requests are sent.  When the store refuses to
    mark the problem as processing, nothing is sent and nothing changes. *)
Theorem processChallenge_final_state (cfg : Config) (h : Auth.HMACAuth) (env : WorkerEnv)
    (challenge : PendingChallenge.t) (db db' : SolverDB.t) (events : list Event) :
  processChallenge cfg h env challenge db = (db', events, Returns tt) ->
  let id := PendingChallenge.ID challenge in
  (io_markProcessing env = DriverFails -> db' = db /\ events = []) /\
  (io_markProcessing env = DriverOK -> io_finish env = DriverOK ->
   db' !! id = None \/
   exists c, db' !! id = Some c /\ PendingChallenge.Status c = "failed" /\
             PendingChallenge.AttemptCount c = 6) /\
  (forall other, other <> id -> db' !! other = db !! other) /\
  (attempts events <= 6)%nat.
Proof.
  intros E id. unfold processChallenge in E. fold id in E.
  pose proof (UpdateChallengeStatus_other (io_markProcessing env) db id "processing"
                (PendingChallenge.AttemptCount challenge) (workerClock env)) as Hmark.
  destruct (io_markProcessing env) eqn:Eio.
  - cbn [SolverDB.UpdateChallengeStatus] in E, Hmark. cbn [fst] in Hmark.
    set (db1 := match db !! id with
                | Some c => _
                | None => db
                end) in *.
    pose proof (delivery_is_bounded_core cfg h (retryEnv env) challenge
                  (callbackRequestOf env challenge) db1) as (Ha & Hother).
    destruct (sendCallbackWithRetry cfg h (retryEnv env) challenge
                (callbackRequestOf env challenge) db1) as [[db2 events2] [|[e|]]];
      cbn [fst snd] in *; [discriminate | |].
    + inversion E; subst db' events. clear E.
      split; [discriminate |]. split.
      * intros _ Hfin. rewrite Hfin.
        destruct (UpdateChallengeStatus_same db2 id "failed" MaxRetryAttempts
                    (workerClock env)) as [[_ Hn] | (c & Hc & Hst & Hat & _)].
        -- now left.
        -- right. exists c. auto.
      * split; [| exact Ha].
        intros other Hne. rewrite UpdateChallengeStatus_other by exact Hne.
        rewrite (Hother other Hne). now apply Hmark.
    + inversion E; subst db' events. clear E.
      split; [discriminate |]. split.
      * intros _ Hfin. rewrite Hfin. left.
        unfold SolverDB.DeleteChallenge. cbn [fst]. apply lookup_delete_eq.
      * split; [| exact Ha].
        intros other Hne. unfold SolverDB.DeleteChallenge.
        destruct (io_finish env); cbn [fst].
        -- rewrite lookup_delete_ne by congruence.
           rewrite (Hother other Hne). now apply Hmark.
        -- rewrite (Hother other Hne). now apply Hmark.
  - cbn [SolverDB.UpdateChallengeStatus] in E. inversion E; subst db' events.
    split; [auto |]. split; [discriminate |]. split; [reflexivity |].
    unfold attempts. simpl. lia.
Qed.

Lemma processChallenge_final_state_witness :
  exists db',
    fst (fst (processChallenge solver_cfg solver_auth (workerEnv0 200) pending0 solverdb0)) = db' /\
    db' !! "ch_m1" = None.
Proof.
  set (out := processChallenge solver_cfg solver_auth (workerEnv0 200) pending0 solverdb0).
  assert (E : out = (fst (fst out), snd (fst out), Returns tt))
    by (vm_compute; reflexivity).
  destruct (processChallenge_final_state solver_cfg solver_auth (workerEnv0 200) pending0
              solverdb0 (fst (fst out)) (snd (fst out)) E) as (_ & H & _).
  exists (fst (fst out)). split; [reflexivity |].
  destruct (H eq_refl eq_refl) as [Hn | (c & Hc & Hs & _)]; [exact Hn |].
  exfalso. revert Hc Hs. vm_compute. intros Hc. discriminate Hc.
Defined.

End X14.

(** ** The configuration *)

Module X15.
Import GoStrings GoNum Auth Config SolverFacts Scenario7.
Local Open Scope Z_scope.

Lemma validate_fields c c' :
  validate c = (c', None) ->
  ChalHMACKeyID c' = ChalHMACKeyID c /\ ChalHMACSecret c' = ChalHMACSecret c /\
  SolverHMACKeyID c' = SolverHMACKeyID c /\ SolverHMACSecret c' = SolverHMACSecret c /\
  SharedSecretKey c' = SharedSecretKey c /\ ClockSkewSeconds c' = ClockSkewSeconds c /\
  PublicCallbackHost c' <> "" /\
  (SharedSecretKey c <> "" \/ (ChalHMACSecret c <> "" /\ SolverHMACSecret c <> "")).
Proof.
  unfold validate.
  destruct (String.eqb_spec (SharedSecretKey c) "") as [Es | Es];
    destruct (String.eqb_spec (ChalHMACSecret c) "") as [Ec | Ec];
    destruct (String.eqb_spec (SolverHMACSecret c) "") as [Eo | Eo];
    cbn [andb orb]; try discriminate;
    (destruct (String.eqb_spec (PublicCallbackHost c) "") as [Eh | Eh];
     [destruct (UseNgrok c); [discriminate |] |]);
    intros E; inversion E; subst c'; cbn; repeat split; auto; discriminate.
Qed.

(** X15: a configuration that [validate] accepts can sign in both
    directions.  The challenger and the solver get the same map of secrets
    from it; the map holds a non-empty secret for the key id of either side
    and nothing else, so that [CreateAuthHeader] of an authenticator made
    from it never returns the empty string for these key ids; the callback
    host is set; and a tolerance of zero seconds makes [NewHMACAuth] fall
    back to 300 seconds. *)
Theorem validated_config_signs (c c' : Config.t) :
  validate c = (c', None) ->
  let secrets := GetSolverSecrets c' in
  let hmacAuth := NewHMACAuth secrets (GetClockSkew c') in
  GetChallengerSecrets c' = secrets /\
  (exists secret, secrets !! ChalHMACKeyID c' = Some secret /\ secret <> "") /\
  (exists secret, secrets !! SolverHMACKeyID c' = Some secret /\ secret <> "") /\
  (forall keyID, keyID <> ChalHMACKeyID c' -> keyID <> SolverHMACKeyID c' ->
                 secrets !! keyID = None) /\
  (forall now m path body nonce,
      CreateAuthHeader hmacAuth now m path body (ChalHMACKeyID c') nonce <> "" /\
      CreateAuthHeader hmacAuth now m path body (SolverHMACKeyID c') nonce <> "") /\
  PublicCallbackHost c' <> "" /\
  (ClockSkewSeconds c' = 0 -> skewSeconds hmacAuth = 300).
Proof.
  intros Hv secrets hmacAuth.
  destruct (validate_fields c c' Hv) as (_ & _ & _ & _ & _ & _ & Hhost & _).
  assert (Hs : SharedSecretKey c' <> "" \/
               (SharedSecretKey c' = "" /\ ChalHMACSecret c' <> "" /\ SolverHMACSecret c' <> "")).
  { destruct (validate_fields c c' Hv) as (_ & E2 & _ & E4 & E5 & _ & _ & H).
    rewrite E2, E4, E5.
    destruct (String.eqb_spec (SharedSecretKey c) ""); [| now left].
    destruct H as [H | H]; [contradiction | now right]. }
  assert (Hchal : exists secret, secrets !! ChalHMACKeyID c' = Some secret /\ secret <> "").
  { unfold secrets, GetSolverSecrets. destruct Hs as [Hs | (Hs & Hc & Ho)].
    - apply String.eqb_neq in Hs as Hs'. rewrite Hs'. cbn [negb].
      exists (SharedSecretKey c'). split; [| exact Hs].
      destruct (decide (SolverHMACKeyID c' = ChalHMACKeyID c')) as [E | E].
      + rewrite E. apply lookup_insert_eq.
      + rewrite lookup_insert_ne by exact E. apply lookup_insert_eq.
    - rewrite Hs. cbn [String.eqb negb]. cbv zeta.
      apply String.eqb_neq in Hc as Hc'. apply String.eqb_neq in Ho as Ho'.
      rewrite Hc', Ho'. cbn [negb].
      destruct (decide (SolverHMACKeyID c' = ChalHMACKeyID c')) as [E | E].
      + exists (SolverHMACSecret c'). split; [| exact Ho]. rewrite E. apply lookup_insert_eq.
      + exists (ChalHMACSecret c'). split; [| exact Hc].
        rewrite lookup_insert_ne by exact E. apply lookup_insert_eq. }
  assert (Hsol : exists secret, secrets !! SolverHMACKeyID c' = Some secret /\ secret <> "").
  { unfold secrets, GetSolverSecrets. destruct Hs as [Hs | (Hs & Hc & Ho)].
    - apply String.eqb_neq in Hs as Hs'. rewrite Hs'. cbn [negb].
      exists (SharedSecretKey c'). split; [apply lookup_insert_eq | exact Hs].
    - rewrite Hs. cbn [String.eqb negb]. cbv zeta.
      apply String.eqb_neq in Hc as Hc'. apply String.eqb_neq in Ho as Ho'.
      rewrite Hc', Ho'. cbn [negb].
      exists (SolverHMACSecret c'). split; [apply lookup_insert_eq | exact Ho]. }
  split; [reflexivity |]. split; [exact Hchal |]. split; [exact Hsol |]. split.
  - intros keyID H1 H2. unfold secrets, GetSolverSecrets.
    destruct (negb (String.eqb (SharedSecretKey c') "")).
    + rewrite !lookup_insert_ne by congruence. apply lookup_empty.
    + cbv zeta.
      destruct (negb (String.eqb (ChalHMACSecret c') ""));
        destruct (negb (String.eqb (SolverHMACSecret c') ""));
        rewrite ?lookup_insert_ne by congruence; apply lookup_empty.
  - split; [| split; [exact Hhost |]].
    + intros now m path body nonce.
      destruct Hchal as (s1 & H1 & _). destruct Hsol as (s2 & H2 & _). split.
      * erewrite CreateAuthHeader_known_key; [discriminate |].
        unfold hmacAuth, NewHMACAuth. cbn [Auth.secrets]. exact H1.
      * erewrite CreateAuthHeader_known_key; [discriminate |].
        unfold hmacAuth, NewHMACAuth. cbn [Auth.secrets]. exact H2.
    + intros Hz. unfold hmacAuth, GetClockSkew. rewrite Hz.
      vm_compute. reflexivity.
Qed.

Lemma validated_config_signs_witness :
  exists c',
    validate config0 = (c', None) /\
    PublicCallbackHost c' = "http://localhost:8080" /\
    GetSolverSecrets c' !! "chal-kid-1" = Some "chal-secret" /\
    skewSeconds (NewHMACAuth (GetSolverSecrets c') (GetClockSkew c')) = 300.
Proof.
  eexists. split; [reflexivity |].
  destruct (validated_config_signs config0 _ eq_refl) as (_ & _ & _ & _ & _ & _ & H).
  split; [reflexivity |]. split; [reflexivity |]. exact (H eq_refl).
Defined.

End X15.
